(** * Miner price tracker: ingestion, preview, rollback and compaction

    A shallow embedding of the state engine of
    [src/components/MinerPriceTracker.js] (the newer implementation, storage
    version 1.1.0): [generateUploadPreview], [actuallyUpdateData],
    [rollbackUpload] and [optimizePriceHistory], with the properties the
    specification states about them; then of the functions around them: the
    row parser, the upload dialogue, the cleanup and clear commands, the
    efficiency recalculations, the migration of version 1.0.0 histories and
    the dashboard figures, with properties read off the code.

    Conventions of the embedding.
    - A JavaScript number held in the state is a finite double; it is written
      as a rational ([Q]) and arithmetic on it is exact.  Two fractions that
      are [Qeq] denote the same number, so [===] on numbers is [Qeq_bool].
      The one place where the code can leave the finite numbers is the
      division in the preview; its result has type [number], which adds the
      infinities and NaN.
    - An ISO timestamp string is only ever read through [new Date(...)]; it
      is written as the instant it denotes, in milliseconds ([Z]).
    - A calendar date stays a string: the code compares dates with [===] and
      orders them through [new Date(...)], which is the section variable
      [dateMs].
    - Objects used as dictionaries are [gmap string _], the [Set] of known
      names is a [gset string].
    - [JSON.parse(JSON.stringify(v))] returns a structurally equal, unshared
      copy of a value made of finite numbers, strings, null, arrays and plain
      objects; values here are immutable, so the copy is the value itself.
    - An exception is [None]; the React setters run after the last statement
      that can throw, so a failed update leaves the state as it was.
    The file readers, the storage layer, the sorted and filtered views and
    the exports are not part of this development; an optional property of a row that is missing and
    one that holds [undefined] read alike and are both [Undefined] or
    [None]. *)

From Stdlib Require Import QArith Qabs Qround ZArith String Lqa.
From stdpp Require Import gmap strings list fin_maps sorting pretty.

Close Scope Q_scope.
Open Scope string_scope.
Open Scope list_scope.

(** ** Numbers *)

(** Result of an arithmetic expression that may divide by zero. *)
Inductive number :=
  | Finite (q : Q)
  | PosInfinity
  | NegInfinity
  | NaN.

(** A numeric property of an object that may be missing (it reads as
    [undefined]) or [null]. *)
Inductive optNumber :=
  | Undefined
  | Null
  | Number (q : Q).

(** [a > b] on finite numbers. *)
Definition jsGt (a b : Q) : bool := negb (Qle_bool a b).

(** [a / b]: IEEE division of finite numbers. *)
Definition jsDiv (a b : Q) : number :=
  if Qeq_bool b 0 then
    if Qeq_bool a 0 then NaN
    else if jsGt a 0 then PosInfinity else NegInfinity
  else Finite (a / b)%Q.

(** [x * c] for a finite constant [c]. *)
Definition jsMul (x : number) (c : Q) : number :=
  match x with
  | Finite q => Finite (q * c)%Q
  | PosInfinity =>
      if Qeq_bool c 0 then NaN else if jsGt c 0 then PosInfinity else NegInfinity
  | NegInfinity =>
      if Qeq_bool c 0 then NaN else if jsGt c 0 then NegInfinity else PosInfinity
  | NaN => NaN
  end.

(** [Math.abs(x)]. *)
Definition jsAbs (x : number) : number :=
  match x with
  | Finite q => Finite (Qabs q)
  | PosInfinity | NegInfinity => PosInfinity
  | NaN => NaN
  end.

(** [x < c] for a finite constant [c]. *)
Definition jsLt (x : number) (c : Q) : bool :=
  match x with
  | Finite q => negb (Qle_bool c q)
  | NegInfinity => true
  | PosInfinity | NaN => false
  end.

(** [parseFloat(x.toFixed(1))]: one decimal, halves rounded away from zero;
    from 1e21 on [toFixed] prints the number itself. *)
Definition toFixed1 (x : number) : number :=
  match x with
  | Finite q =>
      if Qle_bool (10 ^ 21)%Q (Qabs q) then Finite q
      else
        let n := Qfloor (Qabs q * 10 + (1 # 2))%Q in
        Finite (if Qle_bool 0 q then n # 10 else (- n)%Z # 10)
  | other => other
  end.

(** [Math.max(a, b)] on finite numbers. *)
Definition jsMax (a b : Q) : Q := if Qle_bool a b then b else a.

(** [v || 0] for a number read from a dictionary. *)
Definition orZero (v : option Q) : Q :=
  match v with
  | Some q => if Qeq_bool q 0 then 0%Q else q
  | None => 0%Q
  end.

(** ** Arrays *)

(** [arr.findIndex(p)], with [None] for -1. *)
Fixpoint findIndex {A} (p : A → bool) (l : list A) : option nat :=
  match l with
  | [] => None
  | x :: l' => if p x then Some 0 else S <$> findIndex p l'
  end.

(** Insertion of [x] in front of the first element it does not follow. *)
Fixpoint sortInsert {A} (cmp : A → A → Z) (x : A) (l : list A) : list A :=
  match l with
  | [] => [x]
  | y :: l' => if (cmp x y <=? 0)%Z then x :: y :: l' else y :: sortInsert cmp x l'
  end.

(** [arr.sort(cmp)]: the sort is stable, and for a comparator that is a
    difference of keys every stable sort returns this list. *)
Fixpoint jsSort {A} (cmp : A → A → Z) (l : list A) : list A :=
  match l with
  | [] => []
  | x :: l' => sortInsert cmp x (jsSort cmp l')
  end.

(** [arr.reduce(f)] without an initial value, on a non-empty array. *)
Definition reduce1 {A} (f : A → A → A) (l : list A) : option A :=
  match l with
  | [] => None
  | x :: l' => Some (fold_left f l' x)
  end.

(** [arr.forEach(f)] for a body that may throw. *)
Fixpoint forEachM {A S} (f : S → A → option S) (l : list A) (s : S) : option S :=
  match l with
  | [] => Some s
  | x :: l' =>
      match f s x with
      | Some s' => forEachM f l' s'
      | None => None
      end
  end.

(** ** Data model *)

(** One parsed row ([parseDataRows] only emits rows with a name, a hashrate
    and a price; the other properties depend on the row layout). *)
Record miner := {
  imageUrl : option string;
  name : string;
  hashrate : Q;
  algorithm : option string;
  price : Q;
  dailyEarnings : optNumber;
  powerConsumption : optNumber;
  efficiency : optNumber;
  date : string;
  uploadTimestamp : Z;
  uploadId : string;
}.

(** One point of a price history. *)
Record histEntry := {
  hDate : string;
  hTimestamp : Z;
  hUploadId : string;
  hPrice : Q;
  hHashrate : Q;
  hDailyEarnings : optNumber;
  hEfficiency : optNumber;
  hPowerConsumption : optNumber;
}.

(** What the history dictionary holds for a name: the [{daily, intraday}]
    object, or the flat array of storage version 1.0.0. *)
Inductive minerHistory :=
  | History (daily intraday : list histEntry)
  | LegacyHistory (entries : list histEntry).

Record minerSpec := {
  specPowerConsumption : optNumber;
  specEfficiency : optNumber;
  specAlgorithm : option string;
}.

(** The snapshot stored in an upload record; a record read back from storage
    may lack any of the properties. *)
Record snapshot := {
  snapMiners : option (list miner);
  snapPriceHistory : option (gmap string minerHistory);
  snapKnownMiners : option (list string);
  snapMinerSpecs : option (gmap string minerSpec);
  snapMaxPrices : option (gmap string Q);
  snapPreviousPrices : option (gmap string Q);
}.

Record uploadRecord := {
  recId : string;
  recDate : string;
  recTimestamp : Z;
  recFileName : string;
  recMinerCount : nat;
  recNewMinerCount : nat;
  recUpdatedCount : nat;
  recStrategy : string;
  recSnapshot : option snapshot;
}.

(** The component state the engine reads and writes. *)
Record state := {
  miners : list miner;
  priceHistory : gmap string minerHistory;
  knownMiners : gset string;
  newMinersLastUpload : gset string;
  minerSpecs : gmap string minerSpec;
  uploadHistory : list uploadRecord;
  maxPrices : gmap string Q;
  previousPrices : gmap string Q;
}.

(** The state of a freshly mounted component. *)
Definition initialState : state := {|
  miners := [];
  priceHistory := ∅;
  knownMiners := ∅;
  newMinersLastUpload := ∅;
  minerSpecs := ∅;
  uploadHistory := [];
  maxPrices := ∅;
  previousPrices := ∅;
|}.

(** ** Upload preview *)

Record updatedRow := {
  rowName : string;
  oldPrice : Q;
  newPrice : Q;
  change : number;
  oldHashrate : Q;
  newHashrate : Q;
  rowEfficiency : optNumber;
}.

Record previewSummary := {
  newCount : nat;
  updatedCount : nat;
  unchangedCount : nat;
  removedCount : nat;
}.

Record preview := {
  pvNew : list miner;
  pvUpdated : list updatedRow;
  pvUnchanged : list string;
  pvRemoved : list string;
  pvErrors : list string;
  pvWarnings : list string;
  pvSummary : previewSummary;
}.

Definition emptyPreview : preview := {|
  pvNew := []; pvUpdated := []; pvUnchanged := []; pvRemoved := [];
  pvErrors := []; pvWarnings := [];
  pvSummary := {| newCount := 0; updatedCount := 0; unchangedCount := 0; removedCount := 0 |};
|}.

(** [m.name && m.price > 0 && m.hashrate > 0]. *)
Definition validMiner (m : miner) : bool :=
  negb (String.eqb (name m) "") && jsGt (price m) 0 && jsGt (hashrate m) 0.

Definition errorMessage (index : nat) (m : miner) : string :=
  "Row " +:+ pretty (index + 1)%nat +:+ " (Name: "
    +:+ (if String.eqb (name m) "" then "N/A" else name m)
    +:+ "): Missing required fields (Name, Price > 0, Hashrate > 0) or invalid values.".

(** The local [priceChange] of the preview loop. *)
Definition priceChange (newP oldP : Q) : number :=
  if negb (Qeq_bool newP oldP) then jsMul (jsDiv (newP - oldP)%Q oldP) 100
  else Finite 0.

(** Body of the [forEach] over the parsed rows. *)
Definition previewEntry (currentMinersList : list miner) (pv : preview)
    (index : nat) (newMiner : miner) : preview :=
  let sm := pvSummary pv in
  if negb (validMiner newMiner) then
    {| pvNew := pvNew pv; pvUpdated := pvUpdated pv; pvUnchanged := pvUnchanged pv;
       pvRemoved := pvRemoved pv;
       pvErrors := pvErrors pv ++ [errorMessage index newMiner];
       pvWarnings := pvWarnings pv; pvSummary := sm |}
  else
    match List.find (λ m, String.eqb (name m) (name newMiner)) currentMinersList with
    | None =>
        {| pvNew := pvNew pv ++ [newMiner]; pvUpdated := pvUpdated pv;
           pvUnchanged := pvUnchanged pv; pvRemoved := pvRemoved pv;
           pvErrors := pvErrors pv; pvWarnings := pvWarnings pv;
           pvSummary := {| newCount := S (newCount sm); updatedCount := updatedCount sm;
                           unchangedCount := unchangedCount sm;
                           removedCount := removedCount sm |} |}
    | Some existing =>
        let pc := priceChange (price newMiner) (price existing) in
        if jsLt (jsAbs pc) (1 # 100) && Qeq_bool (hashrate newMiner) (hashrate existing) then
          {| pvNew := pvNew pv; pvUpdated := pvUpdated pv;
             pvUnchanged := pvUnchanged pv ++ [name newMiner]; pvRemoved := pvRemoved pv;
             pvErrors := pvErrors pv; pvWarnings := pvWarnings pv;
             pvSummary := {| newCount := newCount sm; updatedCount := updatedCount sm;
                             unchangedCount := S (unchangedCount sm);
                             removedCount := removedCount sm |} |}
        else
          {| pvNew := pvNew pv;
             pvUpdated := pvUpdated pv ++
               [{| rowName := name newMiner; oldPrice := price existing;
                   newPrice := price newMiner; change := toFixed1 pc;
                   oldHashrate := hashrate existing; newHashrate := hashrate newMiner;
                   rowEfficiency := efficiency newMiner |}];
             pvUnchanged := pvUnchanged pv; pvRemoved := pvRemoved pv;
             pvErrors := pvErrors pv; pvWarnings := pvWarnings pv;
             pvSummary := {| newCount := newCount sm; updatedCount := S (updatedCount sm);
                             unchangedCount := unchangedCount sm;
                             removedCount := removedCount sm |} |}
    end.

(** Body of the [forEach] over the current list under ['replace']. *)
Definition previewRemoved (newMinerEntries : list miner) (pv : preview)
    (existingMiner : miner) : preview :=
  let sm := pvSummary pv in
  match List.find (λ nm, String.eqb (name nm) (name existingMiner)) newMinerEntries with
  | Some _ => pv
  | None =>
      {| pvNew := pvNew pv; pvUpdated := pvUpdated pv; pvUnchanged := pvUnchanged pv;
         pvRemoved := pvRemoved pv ++ [name existingMiner];
         pvErrors := pvErrors pv; pvWarnings := pvWarnings pv;
         pvSummary := {| newCount := newCount sm; updatedCount := updatedCount sm;
                         unchangedCount := unchangedCount sm;
                         removedCount := S (removedCount sm) |} |}
  end.

(** The rows paired with their [forEach] index, from [start] on. *)
Fixpoint indexed {A} (start : nat) (l : list A) : list (nat * A) :=
  match l with
  | [] => []
  | x :: l' => (start, x) :: indexed (S start) l'
  end.

Definition generateUploadPreview (newMinerEntries currentMinersList : list miner)
    (currentMergeStrategy : string) : preview :=
  let pv := fold_left (λ pv ie, previewEntry currentMinersList pv ie.1 ie.2)
              (indexed 0 newMinerEntries) emptyPreview in
  if String.eqb currentMergeStrategy "replace" then
    fold_left (previewRemoved newMinerEntries) currentMinersList pv
  else pv.

(** An element of the [intraday] array under compaction: the entry and the
    position it has in the array, which stands for the identity of the
    object ([Set] membership compares references, not contents). *)
Abbreviation object := (nat * histEntry)%type.

(** ** Central data update *)

Section Engine.

(** [new Date(d).getTime()] for a calendar date string. *)
Variable dateMs : string → Z.

(** The three sort comparators of the engine. *)
Definition byTimestamp (a b : histEntry) : Z := (hTimestamp a - hTimestamp b)%Z.
Definition byTimestampDesc (a b : histEntry) : Z := (hTimestamp b - hTimestamp a)%Z.
Definition byDate (a b : histEntry) : Z := (dateMs (hDate a) - dateMs (hDate b))%Z.

Definition newHistEntry (entry : miner) : histEntry := {|
  hDate := date entry;
  hTimestamp := uploadTimestamp entry;
  hUploadId := uploadId entry;
  hPrice := price entry;
  hHashrate := hashrate entry;
  hDailyEarnings := dailyEarnings entry;
  hEfficiency := efficiency entry;
  hPowerConsumption := powerConsumption entry;
|}.

(** Callback of the [reduce] that picks the latest entry of a date. *)
Definition laterOf (latest current : histEntry) : histEntry :=
  if (hTimestamp latest <? hTimestamp current)%Z then current else latest.

(** Phase 1 for one row, on the [{daily, intraday}] object of its name. *)
Definition updateHistory (entry : miner) (daily intraday : list histEntry)
    : minerHistory :=
  let intraday' := jsSort byTimestamp (intraday ++ [newHistEntry entry]) in
  let entriesForDate := filter (λ h, hDate h = date entry) intraday' in
  match reduce1 laterOf entriesForDate with
  | Some latestForDate =>
      let daily' :=
        match findIndex (λ d, String.eqb (hDate d) (date entry)) daily with
        | Some dailyIdx => <[dailyIdx := latestForDate]> daily
        | None => daily ++ [latestForDate]
        end in
      History (jsSort byDate daily') intraday'
  | None => History daily intraday'
  end.

(** The copies the update works on, and its two counters. *)
Record working := {
  tempPriceHistory : gmap string minerHistory;
  tempKnownMiners : gset string;
  tempMinerSpecs : gmap string minerSpec;
  tempMaxPrices : gmap string Q;
  countTrulyNewMiners : nat;
  minersInThisUploadBatch : gset string;
}.

(** Body of the first [forEach] of [actuallyUpdateData].  A name whose
    history is still a flat array has no [intraday] to push on: the push
    throws. *)
Definition recordEntry (snapshotKnownMiners : list string) (w : working)
    (entry : miner) : option working :=
  let key := name entry in
  let structured :=
    match tempPriceHistory w !! key with
    | None => Some ([], [])
    | Some (History daily intraday) => Some (daily, intraday)
    | Some (LegacyHistory _) => None
    end in
  match structured with
  | None => None
  | Some (daily, intraday) =>
      Some {|
        tempPriceHistory := <[key := updateHistory entry daily intraday]> (tempPriceHistory w);
        tempKnownMiners := {[key]} ∪ tempKnownMiners w;
        tempMinerSpecs :=
          <[key := {| specPowerConsumption := powerConsumption entry;
                      specEfficiency := efficiency entry;
                      specAlgorithm := algorithm entry |}]> (tempMinerSpecs w);
        tempMaxPrices :=
          <[key := jsMax (orZero (tempMaxPrices w !! key)) (price entry)]> (tempMaxPrices w);
        countTrulyNewMiners :=
          if bool_decide (key ∈ snapshotKnownMiners) then countTrulyNewMiners w
          else S (countTrulyNewMiners w);
        minersInThisUploadBatch := {[key]} ∪ minersInThisUploadBatch w;
      |}
  end.

(** [{ ...old, ...newMiner }]: every property the new row has wins, the
    others are kept. *)
Definition spread (old newMiner : miner) : miner := {|
  imageUrl := match imageUrl newMiner with Some u => Some u | None => imageUrl old end;
  name := name newMiner;
  hashrate := hashrate newMiner;
  algorithm := match algorithm newMiner with Some a => Some a | None => algorithm old end;
  price := price newMiner;
  dailyEarnings :=
    match dailyEarnings newMiner with Undefined => dailyEarnings old | v => v end;
  powerConsumption :=
    match powerConsumption newMiner with Undefined => powerConsumption old | v => v end;
  efficiency :=
    match efficiency newMiner with Undefined => efficiency old | v => v end;
  date := date newMiner;
  uploadTimestamp := uploadTimestamp newMiner;
  uploadId := uploadId newMiner;
|}.

(** Loop body of the ['replace'] branch; [oldMiners] is the list of the
    state, not the list under construction. *)
Definition replaceStep (oldMiners : list miner) (acc : list miner * gmap string Q)
    (newMiner : miner) : list miner * gmap string Q :=
  let '(newSnapshotMiners, tempPreviousPrices) := acc in
  match List.find (λ m, String.eqb (name m) (name newMiner)) oldMiners with
  | Some oldMinerData =>
      (newSnapshotMiners ++ [newMiner],
       <[name newMiner := price oldMinerData]> tempPreviousPrices)
  | None =>
      (newSnapshotMiners ++ [newMiner], delete (name newMiner) tempPreviousPrices)
  end.

(** Loop body of the ['merge'] branch. *)
Definition mergeStep (acc : list miner * gmap string Q) (newMiner : miner)
    : list miner * gmap string Q :=
  let '(merged, tempPreviousPrices) := acc in
  match findIndex (λ m, String.eqb (name m) (name newMiner)) merged with
  | Some idx =>
      match merged !! idx with
      | Some old =>
          (<[idx := spread old newMiner]> merged,
           <[name newMiner := price old]> tempPreviousPrices)
      | None => acc
      end
  | None => (merged ++ [newMiner], delete (name newMiner) tempPreviousPrices)
  end.

(** Loop body of the ['append'] branch. *)
Definition appendStep (acc : list miner * gmap string Q) (newMiner : miner)
    : list miner * gmap string Q :=
  let '(appended, tempPreviousPrices) := acc in
  match findIndex (λ m, String.eqb (name m) (name newMiner)) appended with
  | Some idx =>
      match appended !! idx with
      | Some old =>
          (<[idx := spread old newMiner]> appended,
           <[name newMiner := price old]> tempPreviousPrices)
      | None => acc
      end
  | None => (appended ++ [newMiner], delete (name newMiner) tempPreviousPrices)
  end.

(** Phase 2: the next snapshot list and previous-price dictionary. *)
Definition applyStrategy (currentStrategy : string) (oldMiners : list miner)
    (oldPreviousPrices : gmap string Q) (uploadedEntries : list miner)
    : list miner * gmap string Q :=
  if String.eqb currentStrategy "replace" then
    fold_left (replaceStep oldMiners) uploadedEntries ([], oldPreviousPrices)
  else if String.eqb currentStrategy "merge" then
    fold_left mergeStep uploadedEntries (oldMiners, oldPreviousPrices)
  else if String.eqb currentStrategy "append" then
    fold_left appendStep uploadedEntries (oldMiners, oldPreviousPrices)
  else (oldMiners, oldPreviousPrices).

Definition snapshotOf (s : state) : snapshot := {|
  snapMiners := Some (miners s);
  snapPriceHistory := Some (priceHistory s);
  snapKnownMiners := Some (elements (knownMiners s));
  snapMinerSpecs := Some (minerSpecs s);
  snapMaxPrices := Some (maxPrices s);
  snapPreviousPrices := Some (previousPrices s);
|}.

(** [actuallyUpdateData].  Besides its four arguments it reads the component
    state [s] and the preview on display, and draws a record id
    ([crypto.randomUUID()]) and the current instant. *)
Definition actuallyUpdateData (s : state) (uploadPreview : option preview)
    (freshId : string) (now : Z)
    (uploadedEntries : list miner) (fileName currentStrategy dateOfUploadData : string)
    : option state :=
  let snapshotForHistory := snapshotOf s in
  let w0 := {|
    tempPriceHistory := priceHistory s;
    tempKnownMiners := knownMiners s;
    tempMinerSpecs := minerSpecs s;
    tempMaxPrices := maxPrices s;
    countTrulyNewMiners := 0;
    minersInThisUploadBatch := ∅;
  |} in
  match forEachM (recordEntry (elements (knownMiners s))) uploadedEntries w0 with
  | None => None
  | Some w =>
      let next := applyStrategy currentStrategy (miners s) (previousPrices s)
                    uploadedEntries in
      let newUploadRecord := {|
        recId := freshId;
        recDate := dateOfUploadData;
        recTimestamp := now;
        recFileName := fileName;
        recMinerCount := length uploadedEntries;
        recNewMinerCount := countTrulyNewMiners w;
        recUpdatedCount :=
          match uploadPreview with
          | Some pv => updatedCount (pvSummary pv)
          | None => 0
          end;
        recStrategy := currentStrategy;
        recSnapshot := Some snapshotForHistory;
      |} in
      Some {|
        miners := next.1;
        priceHistory := tempPriceHistory w;
        knownMiners := tempKnownMiners w;
        newMinersLastUpload := minersInThisUploadBatch w;
        minerSpecs := tempMinerSpecs w;
        uploadHistory := uploadHistory s ++ [newUploadRecord];
        maxPrices := tempMaxPrices w;
        previousPrices := next.2;
      |}
  end.

(** ** Rollback *)

Inductive rollbackOutcome :=
  | SnapshotNotFound
  | Declined
  | RolledBack.

(** [rollbackUpload]; [confirmed] is the operator's answer to
    [window.confirm]. *)
Definition rollbackUpload (s : state) (confirmed : bool)
    (uploadIdToRollback : string) : rollbackOutcome * state :=
  match List.find (λ u, String.eqb (recId u) uploadIdToRollback) (uploadHistory s) with
  | None => (SnapshotNotFound, s)
  | Some uploadToRestore =>
      match recSnapshot uploadToRestore with
      | None => (SnapshotNotFound, s)
      | Some snap =>
          if confirmed then
            (RolledBack,
             {| miners := default [] (snapMiners snap);
                priceHistory := default ∅ (snapPriceHistory snap);
                knownMiners := list_to_set (default [] (snapKnownMiners snap));
                newMinersLastUpload := ∅;
                minerSpecs := default ∅ (snapMinerSpecs snap);
                uploadHistory := uploadHistory s;
                maxPrices := default ∅ (snapMaxPrices snap);
                previousPrices := default ∅ (snapPreviousPrices snap) |})
          else (Declined, s)
      end
  end.

(** ** Storage optimisation *)

(** [if (!map.has(entry.date)) map.set(entry.date, entry)] on a [Map], kept
    in insertion order. *)
Definition mapSetIfAbsent (m : list (string * object)) (entry : object)
    : list (string * object) :=
  if bool_decide (hDate entry.2 ∈ m.*1) then m else m ++ [(hDate entry.2, entry)].

(** [set.add(entry)] on a [Set] of objects, kept in insertion order. *)
Definition setAdd (set : list object) (entry : object) : list object :=
  if bool_decide (entry.1 ∈ set.*1) then set else set ++ [entry].

(** Compaction of the history of one name. *)
Definition optimizeEntry (thirtyDaysAgo : Z) (historyData : minerHistory)
    : minerHistory :=
  match historyData with
  | LegacyHistory _ => historyData
  | History _ intraday =>
      let objects := indexed 0 intraday in
      let sortedIntradayDesc := jsSort (λ a b, byTimestampDesc a.2 b.2) objects in
      let latestDailyMap := fold_left mapSetIfAbsent sortedIntradayDesc [] in
      let latest := fold_left setAdd latestDailyMap.*2 [] in
      let finalIntradayEntries :=
        fold_left
          (λ set entry,
             if bool_decide (thirtyDaysAgo ≤ hTimestamp entry.2)%Z
             then setAdd set entry else set)
          objects latest in
      let newDailyArray := jsSort (λ a b, byDate a.2 b.2) latestDailyMap.*2 in
      let newIntradayArray := jsSort (λ a b, byTimestamp a.2 b.2) finalIntradayEntries in
      History newDailyArray.*2 newIntradayArray.*2
  end.

(** [optimizePriceHistory]; [thirtyDaysAgo] is the instant thirty days before
    the call. *)
Definition optimizePriceHistory (thirtyDaysAgo : Z)
    (currentPriceHistory : gmap string minerHistory) : gmap string minerHistory :=
  optimizeEntry thirtyDaysAgo <$> currentPriceHistory.

End Engine.

(** ** Sample data *)

(** A flat-layout row as [parseDataRows] builds it. *)
Definition sampleMiner (n : string) (h p : Q) (d : string) (t : Z) : miner := {|
  imageUrl := None;
  name := n;
  hashrate := h;
  algorithm := None;
  price := p;
  dailyEarnings := Number 0;
  powerConsumption := Number 0;
  efficiency := Null;
  date := d;
  uploadTimestamp := t;
  uploadId := d +:+ "_" +:+ pretty t +:+ "_0_abcde";
|}.

(** An order-preserving reading of [YYYY-MM-DD] dates: the digits as one
    decimal number. *)
Definition digitsKey (d : string) : Z :=
  fold_left
    (λ acc c, let k := Ascii.nat_of_ascii c in
              if (48 <=? k)%nat && (k <=? 57)%nat
              then (acc * 10 + Z.of_nat (k - 48))%Z else acc)
    (list_ascii_of_string d) 0%Z.


(** ** Notions used in the statements *)


(** Every history of the dictionary has the [{daily, intraday}] shape (the
    legacy migration has run). *)
Definition structured (h : gmap string minerHistory) : Prop :=
  ∀ n entries, h !! n ≠ Some (LegacyHistory entries).

(** [ingests dateMs s s']: [s'] is reached from [s] by a sequence of
    successful calls of [actuallyUpdateData]. *)
Inductive ingests (dateMs : string → Z) : state → state → Prop :=
  | ingests_refl s : ingests dateMs s s
  | ingests_step s s1 s2 uploadPreview freshId now uploadedEntries fileName
      currentStrategy dateOfUploadData :
      ingests dateMs s s1 →
      actuallyUpdateData dateMs s1 uploadPreview freshId now uploadedEntries
        fileName currentStrategy dateOfUploadData = Some s2 →
      ingests dateMs s s2.


(** [cmp] orders by the key [k]: it is negative, zero or positive as the
    difference of the keys is. *)
Definition sortsBy {A} (cmp : A → A → Z) (k : A → Z) : Prop :=
  ∀ a b, (cmp a b ≤ 0)%Z ↔ (k a ≤ k b)%Z.

(** The relation between the two views of one history: every daily entry is
    an intraday entry, and the daily view has exactly one entry for each date
    of the intraday view. *)
Definition dailyWithinIntraday (daily intraday : list histEntry) : Prop :=
  (∀ e, e ∈ daily → e ∈ intraday) ∧
  NoDup (hDate <$> daily) ∧
  (∀ e, e ∈ intraday → hDate e ∈ hDate <$> daily).

Definition historyInvariant (h : gmap string minerHistory) : Prop :=
  ∀ n v, h !! n = Some v →
    ∃ daily intraday, v = History daily intraday ∧ dailyWithinIntraday daily intraday.

(** *** Compaction, as list operations *)

(** The values of [latestDailyMap] once the loop has gone through [l]: the
    first object of every date that is not in [seen], in the order of [l]. *)
Fixpoint firstPerDate (seen : list string) (l : list object) : list object :=
  match l with
  | [] => []
  | x :: l' =>
      if bool_decide (hDate x.2 ∈ seen) then firstPerDate seen l'
      else x :: firstPerDate (seen ++ [hDate x.2]) l'
  end.

(** The objects of the latest entry of each date. *)
Definition latestPerDate (objects : list object) : list object :=
  firstPerDate [] (jsSort (λ a b, byTimestampDesc a.2 b.2) objects).

(** The objects inside the retention window that are not a latest entry. *)
Definition recentOnly (thirtyDaysAgo : Z) (objects : list object) : list object :=
  filter (λ x, (thirtyDaysAgo ≤ hTimestamp x.2)%Z ∧ x.1 ∉ (latestPerDate objects).*1)
    objects.

(** The two arrays compaction builds from the objects of one history. *)
Definition compacted (dateMs : string → Z) (thirtyDaysAgo : Z) (objects : list object)
    : list object * list object :=
  (jsSort (λ a b, byDate dateMs a.2 b.2) (latestPerDate objects),
   jsSort (λ a b, byTimestamp a.2 b.2)
     (latestPerDate objects ++ recentOnly thirtyDaysAgo objects)).

(** The same entry under another object identity. *)
Definition retag (f : nat → nat) (x : object) : object := (f x.1, x.2).

(** ** A sample run

    Two uploads of one miner on consecutive days, under ['merge']. *)

Definition sampleFirstBatch : list miner :=
  [sampleMiner "A" 100 50 "2024-01-01" 1704103200000].

Definition sampleSecondBatch : list miner :=
  [sampleMiner "A" 100 60 "2024-01-02" 1704189600000].

Definition sampleAfterFirst : state :=
  default initialState
    (actuallyUpdateData digitsKey initialState None "upload-1" 1704103200000
       sampleFirstBatch "prices-1.csv" "merge" "2024-01-01").

Definition sampleAfterSecond : state :=
  default sampleAfterFirst
    (actuallyUpdateData digitsKey sampleAfterFirst None "upload-2" 1704189600000
       sampleSecondBatch "prices-2.csv" "merge" "2024-01-02").

(** A history with two entries on one day and one on the next. *)
Definition sampleEntry (d : string) (t : Z) (p : Q) : histEntry := {|
  hDate := d; hTimestamp := t; hUploadId := d +:+ "_" +:+ pretty t;
  hPrice := p; hHashrate := 100;
  hDailyEarnings := Number 0; hEfficiency := Null; hPowerConsumption := Number 0;
|}.

Definition sampleIntraday : list histEntry :=
  [sampleEntry "2024-01-01" 1704103200000 50;
   sampleEntry "2024-01-01" 1704110400000 52;
   sampleEntry "2024-01-02" 1704189600000 60].

Definition sampleHistory : gmap string minerHistory :=
  {[ "A" := History [] sampleIntraday ]}.

(** ** Storage cleanup and displayed price changes *)

(** [cleanupStorage]; [confirmed] is the operator's answer to
    [window.confirm], [thirtyDaysAgo] the boundary [optimizePriceHistory]
    computes. *)
Definition cleanupStorage (dateMs : string → Z) (s : state) (confirmed : bool)
    (thirtyDaysAgo : Z) : state :=
  if confirmed then
    {| miners := miners s;
       priceHistory := optimizePriceHistory dateMs thirtyDaysAgo (priceHistory s);
       knownMiners := knownMiners s;
       newMinersLastUpload := newMinersLastUpload s;
       minerSpecs := minerSpecs s;
       uploadHistory :=
         if (10 <? length (uploadHistory s))%nat
         then drop (length (uploadHistory s) - 10) (uploadHistory s)
         else uploadHistory s;
       maxPrices := maxPrices s;
       previousPrices := previousPrices s |}
  else s.

(** [clearAllData]; the two answers of the operator and the outcome of
    [storageUtils.clearAll]. *)
Definition clearAllData (s : state) (confirmed reallyConfirmed cleared : bool) : state :=
  if confirmed then
    if reallyConfirmed then
      if cleared then initialState else s
    else s
  else s.

Record priceChanges := {
  changeFromMax : number;
  changeFromPrevious : option number;
}.

(** [calculatePriceChanges]; [None] is the [null] of a missing or equal
    previous price. *)
Definition calculatePriceChanges (maxPrices previousPrices : gmap string Q)
    (miner : miner) : priceChanges :=
  let currentPrice := price miner in
  let maxPrice :=
    match maxPrices !! name miner with
    | Some v => if Qeq_bool v 0 then currentPrice else v
    | None => currentPrice
    end in
  let prevPrice := previousPrices !! name miner in
  let fromMax :=
    if jsGt maxPrice 0
    then jsMul (jsDiv (currentPrice - maxPrice)%Q maxPrice) 100
    else Finite 0 in
  let fromPrevious :=
    match prevPrice with
    | Some p =>
        if negb (Qeq_bool p currentPrice)
        then Some (jsMul (jsDiv (currentPrice - p)%Q p) 100)
        else None
    | None => None
    end in
  {| changeFromMax := toFixed1 fromMax;
     changeFromPrevious := toFixed1 <$> fromPrevious |}.

(** ** Power data

    [recalculateEfficiency] and [applyResearchedPowerData] read the constant
    [powerDatabase] through two string operations.  The three are parameters
    here: what is proved holds for every table and every pair of functions. *)

(** Truthiness of a number property: defined, not [null], not 0. *)
Definition truthy (v : optNumber) : bool :=
  match v with
  | Number q => negb (Qeq_bool q 0)
  | _ => false
  end.

(** [a || b] on two dictionary reads. *)
Definition jsOr (a b : option Q) : option Q :=
  match a with
  | Some q => if Qeq_bool q 0 then b else a
  | None => b
  end.

Definition setPower (m : miner) (p : optNumber) : miner := {|
  imageUrl := imageUrl m; name := name m; hashrate := hashrate m;
  algorithm := algorithm m; price := price m; dailyEarnings := dailyEarnings m;
  powerConsumption := p; efficiency := efficiency m; date := date m;
  uploadTimestamp := uploadTimestamp m; uploadId := uploadId m;
|}.

Definition setEfficiency (m : miner) (e : optNumber) : miner := {|
  imageUrl := imageUrl m; name := name m; hashrate := hashrate m;
  algorithm := algorithm m; price := price m; dailyEarnings := dailyEarnings m;
  powerConsumption := powerConsumption m; efficiency := e; date := date m;
  uploadTimestamp := uploadTimestamp m; uploadId := uploadId m;
|}.

(** [entry.powerConsumption = ...; entry.efficiency = ...] on a history
    entry. *)
Definition setEntry (p e : optNumber) (entry : histEntry) : histEntry := {|
  hDate := hDate entry; hTimestamp := hTimestamp entry; hUploadId := hUploadId entry;
  hPrice := hPrice entry; hHashrate := hHashrate entry;
  hDailyEarnings := hDailyEarnings entry;
  hEfficiency := e; hPowerConsumption := p;
|}.

(** Body of the [forEach] that both functions run over the updated list
    once some efficiency has changed: specs and history of the name take the
    power and the efficiency of the record. *)
Definition writeEfficiency (acc : gmap string minerSpec * gmap string minerHistory)
    (miner : miner) : gmap string minerSpec * gmap string minerHistory :=
  let '(newSpecs, newHistory) := acc in
  if truthy (efficiency miner) then
    (<[name miner :=
         {| specPowerConsumption := powerConsumption miner;
            specEfficiency := efficiency miner;
            specAlgorithm :=
              match newSpecs !! name miner with
              | Some spec => specAlgorithm spec
              | None => None
              end |}]> newSpecs,
     match newHistory !! name miner with
     | Some (History daily intraday) =>
         <[name miner :=
             History (setEntry (powerConsumption miner) (efficiency miner) <$> daily)
                     (setEntry (powerConsumption miner) (efficiency miner) <$> intraday)]>
           newHistory
     | _ => newHistory
     end)
  else acc.

(** The state once the updated list is written. *)
Definition writeMiners (s : state) (updatedMinersList : list miner) : state :=
  let next := fold_left writeEfficiency updatedMinersList (minerSpecs s, priceHistory s) in
  {| miners := updatedMinersList;
     priceHistory := next.2;
     knownMiners := knownMiners s;
     newMinersLastUpload := newMinersLastUpload s;
     minerSpecs := next.1;
     uploadHistory := uploadHistory s;
     maxPrices := maxPrices s;
     previousPrices := previousPrices s |}.

Section Component.

(** [s.trim()] and [s.replace(/\s+/g, " ")]. *)
Variable trim : string → string.
Variable collapseSpaces : string → string.

(** [Object.entries(powerDatabase)]. *)
Variable powerDatabase : list (string * Q).

(** [powerDatabase[key]]. *)
Definition powerLookup (key : string) : option Q :=
  snd <$> List.find (λ kv, String.eqb kv.1 key) powerDatabase.

(** The [map] callback of [recalculateEfficiency]: the updated record, and
    whether it counts as updated. *)
Definition recalculateMiner (m : miner) : miner * bool :=
  let powerVal :=
    jsOr (powerLookup (trim (name m)))
         (powerLookup (trim (collapseSpaces (name m)))) in
  let updatedMiner :=
    match powerVal with
    | Some q => if Qeq_bool q 0 then m else setPower m (Number q)
    | None => m
    end in
  match powerConsumption updatedMiner with
  | Number p =>
      if negb (Qeq_bool p 0) && negb (Qeq_bool (hashrate updatedMiner) 0) then
        let newEfficiency := (p / hashrate updatedMiner)%Q in
        let same :=
          match efficiency updatedMiner with
          | Number e => Qeq_bool e newEfficiency
          | _ => false
          end in
        if same then (updatedMiner, false)
        else (setEfficiency updatedMiner (Number newEfficiency), true)
      else (updatedMiner, false)
  | _ => (updatedMiner, false)
  end.

Definition recalculateEfficiency (s : state) : state :=
  let results := recalculateMiner <$> miners s in
  let updatedCount := length (filter (λ r, r.2 = true) results) in
  if (0 <? updatedCount)%nat then writeMiners s results.*1 else s.

(** The [map] callback of [applyResearchedPowerData]. *)
Definition researchMiner (m : miner) : miner * bool :=
  let direct :=
    jsOr (powerLookup (trim (name m)))
         (powerLookup (trim (collapseSpaces (name m)))) in
  let found :=
    match direct with
    | Some q => negb (Qeq_bool q 0)
    | None => false
    end in
  let powerValue :=
    if found then direct
    else
      let normalizedMinerName := trim (collapseSpaces (name m)) in
      match List.find (λ kv, String.eqb (trim (collapseSpaces kv.1)) normalizedMinerName)
              powerDatabase with
      | Some kv => Some kv.2
      | None => direct
      end in
  match powerValue with
  | Some v =>
      let differs :=
        match powerConsumption m with
        | Number p => negb (Qeq_bool p v)
        | _ => true
        end in
      if negb (Qeq_bool v 0) && (negb (truthy (efficiency m)) || differs) then
        let updatedMiner := setPower m (Number v) in
        if negb (Qeq_bool (hashrate updatedMiner) 0)
        then (setEfficiency updatedMiner (Number (v / hashrate updatedMiner)%Q), true)
        else (updatedMiner, false)
      else (m, false)
  | None => (m, false)
  end.

Definition applyResearchedPowerData (s : state) : state :=
  let results := researchMiner <$> miners s in
  let updatedCount := length (filter (λ r, r.2 = true) results) in
  if (0 <? updatedCount)%nat then writeMiners s results.*1 else s.

(** ** The operations of the component on its data *)

Variable dateMs : string → Z.

(** One call of a function that writes the data, with what it reads from
    outside the state. *)
Inductive operation :=
  | Upload (shownPreview : option preview) (freshId : string) (now : Z)
      (uploadedEntries : list miner) (fileName currentStrategy dateOfUploadData : string)
  | Rollback (confirmed : bool) (uploadIdToRollback : string)
  | Cleanup (confirmed : bool) (thirtyDaysAgo : Z)
  | ClearAll (confirmed reallyConfirmed cleared : bool)
  | RecalculateEfficiency
  | ApplyResearchedPower.

(** The state after the call.  An update that throws has called no setter
    yet: the state is unchanged. *)
Definition perform (op : operation) (s : state) : state :=
  match op with
  | Upload shownPreview freshId now uploadedEntries fileName currentStrategy
      dateOfUploadData =>
      default s (actuallyUpdateData dateMs s shownPreview freshId now uploadedEntries
                   fileName currentStrategy dateOfUploadData)
  | Rollback confirmed uploadIdToRollback =>
      (rollbackUpload s confirmed uploadIdToRollback).2
  | Cleanup confirmed thirtyDaysAgo => cleanupStorage dateMs s confirmed thirtyDaysAgo
  | ClearAll confirmed reallyConfirmed cleared =>
      clearAllData s confirmed reallyConfirmed cleared
  | RecalculateEfficiency => recalculateEfficiency s
  | ApplyResearchedPower => applyResearchedPowerData s
  end.

Definition run (ops : list operation) (s : state) : state :=
  fold_left (λ s op, perform op s) ops s.

(** ** The upload dialogue *)

Record fileInfo := {
  fName : string;
  fSize : Z;
}.

(** The state of the upload controls, around the data. *)
Record session := {
  data : state;
  mergeStrategy : string;
  uploadDate : string;
  selectedFile : option fileInfo;
  stagedNewMiners : option (list miner);
  stagedUploadFileName : string;
  uploadPreview : option preview;
  showUploadPreview : bool;
}.

(** The controls of a freshly mounted component, around [s]. *)
Definition initialSession (s : state) (today : string) : session := {|
  data := s;
  mergeStrategy := "merge";
  uploadDate := today;
  selectedFile := None;
  stagedNewMiners := None;
  stagedUploadFileName := "";
  uploadPreview := None;
  showUploadPreview := false;
|}.

(** The controls once an upload is confirmed or cancelled. *)
Definition closeDialogue (ss : session) (s : state) : session := {|
  data := s;
  mergeStrategy := mergeStrategy ss;
  uploadDate := uploadDate ss;
  selectedFile := None;
  stagedNewMiners := None;
  stagedUploadFileName := "";
  uploadPreview := None;
  showUploadPreview := false;
|}.

(** [handleFileUpload]; [file] is [event.target.files[0]] and [parsed] what
    [parseUploadedData] resolves to, [None] when it rejects. *)
Definition handleFileUpload (ss : session) (file : option fileInfo)
    (parsed : option (list miner)) : session :=
  match file with
  | None => ss
  | Some f =>
      if (10 * 1024 * 1024 <? fSize f)%Z then
        {| data := data ss; mergeStrategy := mergeStrategy ss; uploadDate := uploadDate ss;
           selectedFile := None;
           stagedNewMiners := stagedNewMiners ss;
           stagedUploadFileName := stagedUploadFileName ss;
           uploadPreview := uploadPreview ss;
           showUploadPreview := showUploadPreview ss |}
      else
        match parsed with
        | None =>
            {| data := data ss; mergeStrategy := mergeStrategy ss;
               uploadDate := uploadDate ss;
               selectedFile := None;
               stagedNewMiners := None;
               stagedUploadFileName := "";
               uploadPreview := uploadPreview ss;
               showUploadPreview := showUploadPreview ss |}
        | Some [] =>
            {| data := data ss; mergeStrategy := mergeStrategy ss;
               uploadDate := uploadDate ss;
               selectedFile := None;
               stagedNewMiners := stagedNewMiners ss;
               stagedUploadFileName := stagedUploadFileName ss;
               uploadPreview := uploadPreview ss;
               showUploadPreview := showUploadPreview ss |}
        | Some parsedMiners =>
            {| data := data ss; mergeStrategy := mergeStrategy ss;
               uploadDate := uploadDate ss;
               selectedFile := Some f;
               stagedNewMiners := Some parsedMiners;
               stagedUploadFileName := fName f;
               uploadPreview :=
                 Some (generateUploadPreview parsedMiners (miners (data ss))
                         (mergeStrategy ss));
               showUploadPreview := true |}
        end
  end.

(** [confirmUpload], with the record id and the instant the update draws.
    A failed update keeps the staged batch. *)
Definition confirmUpload (ss : session) (freshId : string) (now : Z) : session :=
  match stagedNewMiners ss with
  | None | Some [] => ss
  | Some staged =>
      let blocked :=
        match uploadPreview ss with
        | Some pv => (0 <? length (pvErrors pv))%nat
        | None => false
        end in
      if blocked then ss
      else
        match actuallyUpdateData dateMs (data ss) (uploadPreview ss) freshId now staged
                (stagedUploadFileName ss) (mergeStrategy ss) (uploadDate ss) with
        | Some s' => closeDialogue ss s'
        | None => ss
        end
  end.






End Component.

(** ** The row parser *)

(** A cell of a sheet or of a CSV line: empty (it reads as [undefined]),
    a string or a number.  A number in a name cell is read as its decimal
    string. *)
Inductive cell :=
  | Missing
  | Text (s : string)
  | Num (q : Q).

(** [row[k]]. *)
Definition cellAt (row : list cell) (k : nat) : cell := default Missing (row !! k).

(** The object [parseDataRows] fills before it decides whether to keep the
    row; [None] is a hashrate or a price that was not set. *)
Record candidate := {
  cImageUrl : option string;
  cName : string;
  cHashrate : option Q;
  cAlgorithm : option string;
  cPrice : option Q;
  cDailyEarnings : optNumber;
  cPowerConsumption : optNumber;
  cEfficiency : optNumber;
}.

Section Parser.

(** [String(x)] of a number, [s.trim()], [parseFloat(s)] and [parseInt(s)]
    ([None] for NaN), [s.toLowerCase()], [s.replace("Algo:", "")], and the
    groups of the four regular expressions. *)
Variable numberToString : Q → string.
Variable trim : string → string.
Variable parseFloat : string → option Q.
Variable parseInt : string → option Q.
Variable toLowerCase : string → string.
Variable removeAlgo : string → string.
Variable matchHashrate : string → option (string * string).
Variable matchDecimal : string → option string.
Variable matchDollars : string → option string.
Variable matchDigits : string → option string.

Variable powerDatabase : list (string * Q).

(** The instant of the call and the upload id made up for the row at an
    index. *)
Variable uploadTime : Z.
Variable rowUploadId : string → nat → string.

(** [(c || "").toString()], which is also [String(c || "")]. *)
Definition cellText (c : cell) : string :=
  match c with
  | Missing => ""
  | Text s => s
  | Num q => if Qeq_bool q 0 then "" else numberToString q
  end.

(** [parseFloat(c)] and [parseInt(c)] on a cell. *)
Definition parseFloatCell (c : cell) : option Q :=
  match c with
  | Missing => None
  | Text s => parseFloat s
  | Num q => Some q
  end.

Definition parseIntCell (c : cell) : option Q :=
  match c with
  | Missing => None
  | Text s => parseInt s
  | Num q => parseInt (numberToString q)
  end.

(** [x || 0] and [x || null] on a parsed number. *)
Definition orZeroNumber (x : option Q) : Q :=
  match x with
  | Some q => q
  | None => 0%Q
  end.

Definition orNull (x : option Q) : optNumber :=
  match x with
  | Some q => if Qeq_bool q 0 then Null else Number q
  | None => Null
  end.

Definition ofMatch (x : option Q) : optNumber :=
  match x with
  | Some q => Number q
  | None => Undefined
  end.

(** The branch for rows that start with an image address. *)
Definition readListingRow (row : list cell) (imageUrl : string) : candidate :=
  let hashrate :=
    match matchHashrate (cellText (cellAt row 2)) with
    | Some (value, unit) =>
        match parseFloat value with
        | Some h =>
            Some (if String.eqb (toLowerCase unit) "gh/s" then (h / 1000)%Q else h)
        | None => None
        end
    | None => None
    end in
  let wide := (7 <? length row)%nat in
  {| cImageUrl := Some imageUrl;
     cName := cellText (cellAt row 1);
     cHashrate := hashrate;
     cAlgorithm := Some (trim (removeAlgo (cellText (cellAt row 3))));
     cPrice := matchDecimal (cellText (cellAt row 4)) ≫= parseFloat;
     cDailyEarnings :=
       match matchDollars (cellText (cellAt row 5)) with
       | Some value => ofMatch (parseFloat value)
       | None => Undefined
       end;
     cPowerConsumption :=
       if wide then
         match matchDigits (cellText (cellAt row 8)) with
         | Some value => ofMatch (parseInt value)
         | None => Undefined
         end
       else Undefined;
     cEfficiency :=
       if wide then
         match matchDecimal (cellText (cellAt row 9)) with
         | Some value => ofMatch (parseFloat value)
         | None => Undefined
         end
       else Undefined |}.

(** The branch for the standard layout. *)
Definition readStandardRow (row : list cell) : candidate :=
  {| cImageUrl := None;
     cName := trim (cellText (cellAt row 0));
     cHashrate := Some (orZeroNumber (parseFloatCell (cellAt row 1)));
     cAlgorithm := None;
     cPrice := Some (orZeroNumber (parseFloatCell (cellAt row 2)));
     cDailyEarnings := Number (orZeroNumber (parseFloatCell (cellAt row 3)));
     cPowerConsumption := Number (orZeroNumber (parseIntCell (cellAt row 4)));
     cEfficiency := orNull (parseFloatCell (cellAt row 5)) |}.

(** The power of the table for a row without one, then the efficiency of a
    row that has power and hashrate but no efficiency. *)
Definition fillPower (c : candidate) : optNumber :=
  if truthy (cPowerConsumption c) then cPowerConsumption c
  else
    match powerLookup powerDatabase (cName c) with
    | Some v => if Qeq_bool v 0 then cPowerConsumption c else Number v
    | None => cPowerConsumption c
    end.

Definition fillEfficiency (c : candidate) (power : optNumber) : optNumber :=
  match power, cHashrate c with
  | Number p, Some h =>
      if negb (Qeq_bool p 0) && negb (Qeq_bool h 0) && negb (truthy (cEfficiency c))
      then Number (p / h)%Q
      else cEfficiency c
  | _, _ => cEfficiency c
  end.

(** One turn of the loop of [parseDataRows]: the record pushed for the row
    at index [i], if any. *)
Definition parseRow (dateForData : string) (i : nat) (row : list cell) : option miner :=
  if (length row <? 2)%nat then None
  else
    let c :=
      match cellAt row 0 with
      | Text s =>
          match String.index 0 "http" s with
          | Some _ => readListingRow row s
          | None => readStandardRow row
          end
      | _ => readStandardRow row
      end in
    let power := fillPower c in
    let efficiency := fillEfficiency c power in
    match cHashrate c, cPrice c with
    | Some h, Some p =>
        if negb (String.eqb (cName c) "") && jsGt h 0 && jsGt p 0 then
          Some {| imageUrl := cImageUrl c; name := cName c; hashrate := h;
                  algorithm := cAlgorithm c; price := p;
                  dailyEarnings := cDailyEarnings c; powerConsumption := power;
                  efficiency := efficiency; date := dateForData;
                  uploadTimestamp := uploadTime;
                  uploadId := rowUploadId dateForData i |}
        else None
    | _, _ => None
    end.

Definition parseDataRows (rows : list (list cell)) (dateForData : string) : list miner :=
  omap (λ ir, parseRow dateForData ir.1 ir.2) (indexed 0 rows).

End Parser.

(** ** Migration of version 1.0.0 histories *)

(** A point of a stored history.  The migration fills in the date, the
    timestamp and the upload id where they are missing or empty, and copies
    the other properties. *)
Record storedEntry := {
  sDate : option string;
  sTimestamp : option Z;
  sUploadId : option string;
  sPrice : Q;
  sHashrate : Q;
  sDailyEarnings : optNumber;
  sEfficiency : optNumber;
  sPowerConsumption : optNumber;
}.

(** What is stored for a name: an array (version 1.0.0), an object with an
    own [intraday] property, or anything else. *)
Inductive storedHistory :=
  | StoredArray (entries : list storedEntry)
  | StoredObject (daily intraday : list histEntry)
  | StoredOther.

(** The two storage items the migration reads and writes; the history in
    the order of [Object.entries]. *)
Record storage := {
  dataMigrationV2 : bool;
  storedPriceHistory : list (string * storedHistory);
}.

(** [obj[key] = value] on an object kept in the order of its keys. *)
Definition objSet {V} (obj : list (string * V)) (key : string) (value : V)
    : list (string * V) :=
  match findIndex (λ kv, String.eqb kv.1 key) obj with
  | Some i => <[i := (key, value)]> obj
  | None => obj ++ [(key, value)]
  end.

(** Body of the [forEach] that fills [dailyEntriesMap]. *)
Definition dailySet (dailyEntriesMap : list (string * histEntry)) (entry : histEntry)
    : list (string * histEntry) :=
  match List.find (λ kv, String.eqb kv.1 (hDate entry)) dailyEntriesMap with
  | Some (_, existing) =>
      if (hTimestamp existing <=? hTimestamp entry)%Z
      then objSet dailyEntriesMap (hDate entry) entry
      else dailyEntriesMap
  | None => objSet dailyEntriesMap (hDate entry) entry
  end.

Section Migration.

(** [new Date().toISOString().split("T")[0]], the instant of noon UTC on a
    date, and the upload id made up for an entry of a date at an index. *)
Variable today : string.
Variable noonMs : string → Z.
Variable legacyId : string → nat → string.
Variable dateMs : string → Z.

(** The [map] callback over a stored array. *)
Definition migrateEntry (index : nat) (entry : storedEntry) : histEntry :=
  let entryDate :=
    match sDate entry with
    | Some d => if String.eqb d "" then today else d
    | None => today
    end in
  {| hDate := entryDate;
     hTimestamp := default (noonMs entryDate) (sTimestamp entry);
     hUploadId :=
       match sUploadId entry with
       | Some u => if String.eqb u "" then legacyId entryDate index else u
       | None => legacyId entryDate index
       end;
     hPrice := sPrice entry;
     hHashrate := sHashrate entry;
     hDailyEarnings := sDailyEarnings entry;
     hEfficiency := sEfficiency entry;
     hPowerConsumption := sPowerConsumption entry |}.

(** The [{daily, intraday}] object built from a stored array, as the pair
    of its arrays. *)
Definition migrateArray (entries : list storedEntry)
    : list histEntry * list histEntry :=
  let intradayEntries :=
    jsSort byTimestamp ((λ ie, migrateEntry ie.1 ie.2) <$> indexed 0 entries) in
  let dailyEntriesMap := fold_left dailySet intradayEntries [] in
  (jsSort (byDate dateMs) dailyEntriesMap.*2, intradayEntries).

(** Body of the [forEach] over the stored histories: the object under
    construction and the number of arrays migrated. *)
Definition migrateName (acc : list (string * (list histEntry * list histEntry)) * nat)
    (item : string * storedHistory)
    : list (string * (list histEntry * list histEntry)) * nat :=
  let '(newStructuredHistory, totalMinersMigrated) := acc in
  match item.2 with
  | StoredArray entries =>
      (objSet newStructuredHistory item.1 (migrateArray entries), S totalMinersMigrated)
  | StoredObject daily intraday =>
      (objSet newStructuredHistory item.1 (daily, intraday), totalMinersMigrated)
  | StoredOther => acc
  end.

(** What a call leaves: the argument of [setPriceHistory], if it is called,
    and the storage. *)
Record migration := {
  migratedHistory : option (gmap string minerHistory);
  storageAfter : storage;
}.

(** [migrateExistingData]; [accepted] tells whether the storage accepts the
    writes of the call. *)
Definition migrateExistingData (st : storage) (accepted : bool) : migration :=
  let flagged :=
    {| dataMigrationV2 := if accepted then true else dataMigrationV2 st;
       storedPriceHistory := storedPriceHistory st |} in
  if dataMigrationV2 st then {| migratedHistory := None; storageAfter := st |}
  else
    match storedPriceHistory st with
    | [] => {| migratedHistory := None; storageAfter := flagged |}
    | (firstMinerKey, first) :: _ =>
        let alreadyNew :=
          negb (String.eqb firstMinerKey "") &&
          match first with StoredObject _ _ => true | _ => false end in
        if alreadyNew then {| migratedHistory := None; storageAfter := flagged |}
        else
          let '(newStructuredHistory, totalMinersMigrated) :=
            fold_left migrateName (storedPriceHistory st) ([], 0%nat) in
          if (0 <? totalMinersMigrated)%nat then
            {| migratedHistory :=
                 Some ((λ di : list histEntry * list histEntry, History di.1 di.2) <$>
                         list_to_map newStructuredHistory);
               storageAfter :=
                 if accepted then
                   {| dataMigrationV2 := true;
                      storedPriceHistory :=
                        (λ kv : string * (list histEntry * list histEntry),
                           (kv.1, StoredObject kv.2.1 kv.2.2)) <$> newStructuredHistory |}
                 else st |}
          else {| migratedHistory := None; storageAfter := flagged |}
    end.

End Migration.

(** ** Figures of the dashboard *)

(** [x.toFixed(2)], as the number the string denotes. *)
Definition toFixed2 (q : Q) : Q :=
  if Qle_bool (10 ^ 21)%Q (Qabs q) then q
  else
    let n := Qfloor (Qabs q * 100 + (1 # 2))%Q in
    if Qle_bool 0 q then n # 100 else (- n)%Z # 100.

(** [m.efficiency && m.efficiency > 0 && !isNaN(m.efficiency)]. *)
Definition ratedEfficiency (m : miner) : option Q :=
  match efficiency m with
  | Number e => if negb (Qeq_bool e 0) && jsGt e 0 then Some e else None
  | _ => None
  end.

Record stats := {
  totalMiners : nat;
  efficientMiners : nat;
  withoutEfficiency : nat;
  avgPrice : Q;
  avgHashrate : Q;
  avgEfficiency : Q;
  newMinerCount : nat;
}.

(** [arr.length || 1] as a number. *)
Definition lengthOrOne {A} (l : list A) : Q :=
  inject_Z (Z.of_nat (if (length l =? 0)%nat then 1%nat else length l)).

(** The [stats] of the component. *)
Definition computeStats (miners : list miner) (newMinersLastUpload : gset string) : stats :=
  let efficientCount :=
    length (filter (λ m, (match efficiency m with
                          | Number e => negb (Qeq_bool e 0) && Qle_bool e 20
                          | _ => false
                          end) = true) miners) in
  let withoutEfficiencyCount :=
    length (filter (λ m, (match efficiency m with
                          | Number e => Qeq_bool e 0 || Qle_bool e 0
                          | _ => true
                          end) = true) miners) in
  let sum (l : list Q) := fold_left Qplus l 0%Q in
  let efficientMinersForAvg := omap ratedEfficiency miners in
  {| totalMiners := length miners;
     efficientMiners := efficientCount;
     withoutEfficiency := withoutEfficiencyCount;
     avgPrice := toFixed2 (sum (price <$> miners) / lengthOrOne miners);
     avgHashrate := toFixed2 (sum (hashrate <$> miners) / lengthOrOne miners);
     avgEfficiency :=
       toFixed2 (sum efficientMinersForAvg / lengthOrOne efficientMinersForAvg);
     newMinerCount := size newMinersLastUpload |}.

Record rangeCount := {
  range : string;
  count : nat;
  color : string;
}.

(** [ranges[i].count++]. *)
Definition countUp (ranges : list rangeCount) (i : nat) : list rangeCount :=
  match ranges !! i with
  | Some r =>
      <[i := {| range := range r; count := S (count r); color := color r |}]> ranges
  | None => ranges
  end.

(** The [efficiencyDistribution] of the component. *)
Definition efficiencyDistribution (miners : list miner) : list rangeCount :=
  let ranges :=
    [{| range := "< 15 J/TH"; count := 0; color := "#10B981" |};
     {| range := "15-20 J/TH"; count := 0; color := "#3B82F6" |};
     {| range := "20-25 J/TH"; count := 0; color := "#F59E0B" |};
     {| range := "25-30 J/TH"; count := 0; color := "#EF4444" |};
     {| range := "> 30 J/TH"; count := 0; color := "#DC2626" |}] in
  let counted :=
    fold_left
      (λ ranges miner,
         match ratedEfficiency miner with
         | Some e =>
             if negb (Qle_bool 15 e) then countUp ranges 0
             else if negb (Qle_bool 20 e) then countUp ranges 1
             else if negb (Qle_bool 25 e) then countUp ranges 2
             else if negb (Qle_bool 30 e) then countUp ranges 3
             else countUp ranges 4
         | None => ranges
         end)
      miners ranges in
  filter (λ r, (0 < count r)%nat) counted.

(** [formatLastSaved]; [now] is the current instant and [lastSaved] the
    stored one, both in milliseconds, [toLocaleDateString] the rendering of
    a date in the locale of the browser. *)
Definition formatLastSaved (toLocaleDateString : Z → string) (lastSaved : option Z)
    (now : Z) : string :=
  match lastSaved with
  | None => "Never"
  | Some date =>
      let diffMs := (now - date)%Z in
      let diffSeconds := (diffMs / 1000)%Z in
      if (diffSeconds <? 5)%Z then "Just now"
      else if (diffSeconds <? 60)%Z then pretty diffSeconds +:+ "s ago"
      else
        let diffMins := (diffSeconds / 60)%Z in
        if (diffMins <? 60)%Z then pretty diffMins +:+ "m ago"
        else
          let diffHours := (diffMins / 60)%Z in
          if (diffHours <? 24)%Z then pretty diffHours +:+ "h ago"
          else toLocaleDateString date
  end.

(** ** Notions used in the further statements *)

(** The counters of a preview agree with its lists, and [n] rows have been
    classified. *)
Definition previewCounts (pv : preview) (n : nat) : Prop :=
  (length (pvNew pv) + length (pvUpdated pv) + length (pvUnchanged pv)
    + length (pvErrors pv) = n)%nat ∧
  newCount (pvSummary pv) = length (pvNew pv) ∧
  updatedCount (pvSummary pv) = length (pvUpdated pv) ∧
  unchangedCount (pvSummary pv) = length (pvUnchanged pv) ∧
  removedCount (pvSummary pv) = length (pvRemoved pv).

(** The intraday array a dictionary lookup gives, [[]] where the update
    would create the object. *)
Definition intradayOf (h : option minerHistory) : list histEntry :=
  match h with
  | Some (History _ intraday) => intraday
  | _ => []
  end.

(** The specs the update stores for a row. *)
Definition specOf (entry : miner) : minerSpec :=
  {| specPowerConsumption := powerConsumption entry;
     specEfficiency := efficiency entry;
     specAlgorithm := algorithm entry |}.

(** Every daily entry is the latest of its date in the intraday array. *)
Definition dailyLatest (daily intraday : list histEntry) : Prop :=
  ∀ d e, d ∈ daily → e ∈ intraday → hDate e = hDate d →
    (hTimestamp e ≤ hTimestamp d)%Z.

(** [list.find(m => m.name === n)]. *)
Definition findByName (n : string) (l : list miner) : option miner :=
  List.find (λ m, String.eqb (name m) n) l.

(** A property of the snapshot list, the histories, the maximum prices and
    the previous prices holds of a state and of every snapshot its upload
    records carry, read as a rollback reads them. *)
Definition holds
    (P : list miner → gmap string minerHistory → gmap string Q → gmap string Q → Prop)
    (s : state) : Prop :=
  P (miners s) (priceHistory s) (maxPrices s) (previousPrices s) ∧
  ∀ u snap, u ∈ uploadHistory s → recSnapshot u = Some snap →
    P (default [] (snapMiners snap)) (default ∅ (snapPriceHistory snap))
      (default ∅ (snapMaxPrices snap)) (default ∅ (snapPreviousPrices snap)).

(** The two views of every history agree: the daily array has one entry per
    date of the intraday array, taken from it, and it is the latest. *)
Definition viewsAgree (h : gmap string minerHistory) : Prop :=
  ∀ n v, h !! n = Some v →
    ∃ daily intraday, v = History daily intraday ∧
      dailyWithinIntraday daily intraday ∧ dailyLatest daily intraday.



(** The batches of the updates among [ops] all satisfy [okBatch]. *)
Definition uploadsSatisfy (okBatch : list miner → Prop) (ops : list operation) : Prop :=
  Forall (λ op, match op with
                | Upload _ _ _ uploadedEntries _ _ _ => okBatch uploadedEntries
                | _ => True
                end) ops.


(** [Array.isArray(v)] on a stored history. *)
Definition isStoredArray (v : storedHistory) : bool :=
  match v with
  | StoredArray _ => true
  | _ => false
  end.



(** A storage of version 1.0.0: an array with two points of one day, the
    second without a date, next to an object and a stray value. *)
Definition sampleStorage : storage := {|
  dataMigrationV2 := false;
  storedPriceHistory :=
    [("A", StoredArray
             [{| sDate := Some "2024-01-01"; sTimestamp := None; sUploadId := None;
                 sPrice := 50; sHashrate := 100; sDailyEarnings := Number 0;
                 sEfficiency := Null; sPowerConsumption := Number 0 |};
              {| sDate := None; sTimestamp := None; sUploadId := None;
                 sPrice := 60; sHashrate := 100; sDailyEarnings := Number 0;
                 sEfficiency := Null; sPowerConsumption := Number 0 |}]);
     ("B", StoredObject [] []);
     ("C", StoredOther)];
|}.

(** A power table with one name. *)
Definition samplePowerDatabase : list (string * Q) := [("A", 3000%Q)].

(** Two uploads, a cleanup and a recalculation on a fresh component. *)
Definition sampleOperations : list operation :=
  [Upload None "upload-1" 1704103200000 sampleFirstBatch "prices-1.csv" "merge"
     "2024-01-01";
   Upload None "upload-2" 1704189600000 sampleSecondBatch "prices-2.csv" "merge"
     "2024-01-02";
   Cleanup true 1704150000000;
   RecalculateEfficiency].

Definition sampleFinal : state :=
  run id id samplePowerDatabase digitsKey sampleOperations initialState.


(** The second batch chosen in the dialogue after the first upload. *)
Definition sampleSession : session :=
  handleFileUpload (initialSession sampleAfterFirst "2024-01-02")
    (Some {| fName := "prices-2.csv"; fSize := 2048 |}) (Some sampleSecondBatch).

(** Two lines of a CSV file in the standard layout, the second without
    numbers, and the string functions used to read them. *)
Definition sampleRows : list (list cell) :=
  [[Text "A"; Num 100; Num 2000; Num 10; Missing; Missing];
   [Text "note"; Text "n/a"]].

Definition sampleParse (rows : list (list cell)) (dateForData : string) : list miner :=
  parseDataRows (λ _, "") id (λ _, None) (λ _, None) id id (λ _, None) (λ _, None)
    (λ _, None) (λ _, None) samplePowerDatabase 1704189600000
    (λ d i, d +:+ "_" +:+ pretty i) rows dateForData.

(** * Properties *)

(** ** Preview *)

Lemma Qeq_bool_false_iff (a b : Q) : Qeq_bool a b = false ↔ ¬ (a == b)%Q.
Proof.
  split.
  - intros H E. apply Qeq_bool_iff in E. congruence.
  - intros H. destruct (Qeq_bool a b) eqn:E; [|done].
    apply Qeq_bool_iff in E. contradiction.
Qed.







(** The rows of the first loop never touch the removed list. *)
Lemma previewEntry_removed cur pv i nm :
  pvRemoved (previewEntry cur pv i nm) = pvRemoved pv.
Proof.
  unfold previewEntry. destruct (negb (validMiner nm)); [done|].
  destruct (List.find _ cur); [|done].
  by destruct (_ && _).
Qed.

Lemma preview_rows_removed cur rows pv :
  pvRemoved (fold_left (λ pv ie, previewEntry cur pv ie.1 ie.2) rows pv) = pvRemoved pv.
Proof.
  revert pv. induction rows as [|[i nm] rows IH]; intros pv; simpl; [done|].
  by rewrite IH, previewEntry_removed.
Qed.

Lemma previewEntry_errors_mono cur pv i nm e :
  e ∈ pvErrors pv → e ∈ pvErrors (previewEntry cur pv i nm).
Proof.
  intros He. unfold previewEntry. destruct (negb (validMiner nm)); simpl.
  { apply elem_of_app. by left. }
  destruct (List.find _ cur); [|done].
  by destruct (_ && _).
Qed.

Lemma preview_rows_errors_mono cur rows pv e :
  e ∈ pvErrors pv →
  e ∈ pvErrors (fold_left (λ pv ie, previewEntry cur pv ie.1 ie.2) rows pv).
Proof.
  revert pv. induction rows as [|[i nm] rows IH]; intros pv He; simpl; [done|].
  apply IH. by apply previewEntry_errors_mono.
Qed.

Lemma preview_rows_errors cur rows pv i nm :
  (i, nm) ∈ rows → validMiner nm = false →
  errorMessage i nm ∈ pvErrors (fold_left (λ pv ie, previewEntry cur pv ie.1 ie.2) rows pv).
Proof.
  revert pv. induction rows as [|[j x] rows IH]; intros pv Hin Hbad; simpl.
  { by apply elem_of_nil in Hin. }
  apply elem_of_cons in Hin as [Heq|Hin]; [|by apply IH].
  inversion Heq; subst j x. apply preview_rows_errors_mono.
  unfold previewEntry. rewrite Hbad. simpl. apply elem_of_app. right. by apply list_elem_of_singleton.
Qed.

Lemma indexed_lookup {A} (l : list A) start i x :
  l !! i = Some x → (start + i, x) ∈ indexed start l.
Proof.
  revert start i. induction l as [|y l IH]; intros start i H; [done|].
  destruct i as [|i]; simpl in *.
  - inversion H; subst. rewrite Nat.add_0_r. apply elem_of_cons. by left.
  - apply elem_of_cons. right. replace (start + S i) with (S start + i) by lia. by apply IH.
Qed.

Lemma previewRemoved_errors batch pv ex : pvErrors (previewRemoved batch pv ex) = pvErrors pv.
Proof. unfold previewRemoved. by destruct (List.find _ batch). Qed.

Lemma preview_removed_errors batch cur pv :
  pvErrors (fold_left (previewRemoved batch) cur pv) = pvErrors pv.
Proof.
  revert pv. induction cur as [|ex cur IH]; intros pv; simpl; [done|].
  by rewrite IH, previewRemoved_errors.
Qed.

(** The removed list under ['replace']: the names of the current list that no
    row of the batch carries, in the order of the current list. *)
Lemma preview_removed_fold batch cur pv :
  pvRemoved (fold_left (previewRemoved batch) cur pv) =
    pvRemoved pv ++ (name <$> filter (λ ex, name ex ∉ name <$> batch) cur).
Proof.
  revert pv. induction cur as [|ex cur IH]; intros pv; simpl.
  { by rewrite app_nil_r. }
  rewrite IH. unfold previewRemoved.
  destruct (List.find _ batch) as [nm|] eqn:Hfind.
  - apply find_some in Hfind as [Hin Heq]. apply String.eqb_eq in Heq.
    rewrite filter_cons_False; [done|].
    intros Hn. apply Hn. rewrite <- Heq. apply list_elem_of_fmap. exists nm.
    split; [done|]. by apply list_elem_of_In.
  - rewrite filter_cons_True.
    + simpl. by rewrite <- app_assoc.
    + intros Hn. apply list_elem_of_fmap in Hn as [nm [Heq Hin]].
      apply list_elem_of_In in Hin.
      apply (find_none _ _ Hfind) in Hin. simpl in Hin.
      apply String.eqb_neq in Hin. congruence.
Qed.

(** C10.  Under ['replace'] a name of the current list is listed as removed
    exactly when no row of the raw batch carries it; so a name carried only
    by a row that fails the required-field check is reported under errors
    and is not listed as removed. *)
Theorem preview_removed_ignores_validity (newMinerEntries currentMinersList : list miner) :
  let pv := generateUploadPreview newMinerEntries currentMinersList "replace" in
  pvRemoved pv =
    name <$> filter (λ ex, name ex ∉ name <$> newMinerEntries) currentMinersList ∧
  ∀ index newMiner,
    newMinerEntries !! index = Some newMiner →
    validMiner newMiner = false →
    errorMessage index newMiner ∈ pvErrors pv ∧ name newMiner ∉ pvRemoved pv.
Proof.
  unfold generateUploadPreview. simpl.
  rewrite preview_removed_fold, preview_rows_removed. simpl.
  split; [done|]. intros i nm Hi Hbad. split.
  - rewrite preview_removed_errors. apply preview_rows_errors; [|done].
    by apply (indexed_lookup _ 0).
  - intros Hin. apply list_elem_of_fmap in Hin as [ex [Heq Hex]].
    apply list_elem_of_filter in Hex as [Hno _]. apply Hno. rewrite <- Heq.
    apply list_elem_of_fmap. exists nm. split; [done|].
    by apply list_elem_of_lookup_2 in Hi.
Qed.

Lemma preview_removed_ignores_validity_witness :
  let batch := [sampleMiner "A" 100 0 "2024-01-02" 2000] in
  let current := [sampleMiner "A" 100 50 "2024-01-01" 1000;
                  sampleMiner "B" 90 40 "2024-01-01" 1000] in
  pvRemoved (generateUploadPreview batch current "replace") = ["B"] ∧
  errorMessage 0 (sampleMiner "A" 100 0 "2024-01-02" 2000)
    ∈ pvErrors (generateUploadPreview batch current "replace") ∧
  "A" ∉ pvRemoved (generateUploadPreview batch current "replace").
Proof.
  pose proof (preview_removed_ignores_validity
                [sampleMiner "A" 100 0 "2024-01-02" 2000]
                [sampleMiner "A" 100 50 "2024-01-01" 1000;
                 sampleMiner "B" 90 40 "2024-01-01" 1000]) as [H1 H2].
  split; [exact H1|]. exact (H2 0 _ eq_refl eq_refl).
Defined.

(** ** Rollback *)



(** The three outcomes of [rollbackUpload], by what [find] returns. *)
Lemma rollbackUpload_absent (s : state) (confirmed : bool) (id : string) :
  List.find (λ v, String.eqb (recId v) id) (uploadHistory s) = None →
  rollbackUpload s confirmed id = (SnapshotNotFound, s).
Proof. intros H. unfold rollbackUpload. by rewrite H. Qed.

Lemma rollbackUpload_no_snapshot (s : state) (confirmed : bool) (id : string) u :
  List.find (λ v, String.eqb (recId v) id) (uploadHistory s) = Some u →
  recSnapshot u = None →
  rollbackUpload s confirmed id = (SnapshotNotFound, s).
Proof. intros H Hs. unfold rollbackUpload. by rewrite H, Hs. Qed.

Lemma rollbackUpload_found (s : state) (confirmed : bool) (id : string) u snap :
  List.find (λ v, String.eqb (recId v) id) (uploadHistory s) = Some u →
  recSnapshot u = Some snap →
  rollbackUpload s confirmed id =
    if confirmed then
      (RolledBack,
       {| miners := default [] (snapMiners snap);
          priceHistory := default ∅ (snapPriceHistory snap);
          knownMiners := list_to_set (default [] (snapKnownMiners snap));
          newMinersLastUpload := ∅;
          minerSpecs := default ∅ (snapMinerSpecs snap);
          uploadHistory := uploadHistory s;
          maxPrices := default ∅ (snapMaxPrices snap);
          previousPrices := default ∅ (snapPreviousPrices snap) |})
    else (Declined, s).
Proof. intros H Hs. unfold rollbackUpload. by rewrite H, Hs. Qed.


(** A declined prompt changes nothing. *)
Lemma rollbackUpload_declined (s : state) (id : string) :
  (rollbackUpload s false id).2 = s.
Proof.
  unfold rollbackUpload. destruct (List.find _ _) as [u|]; [|done].
  by destruct (recSnapshot u).
Qed.

(** ** Ingestion succeeds on structured histories *)




(** The update appends one record, which carries the snapshot of the state
    it started from. *)
Lemma actuallyUpdateData_record dateMs s pv freshId now batch fileName strategy dataDate s' :
  actuallyUpdateData dateMs s pv freshId now batch fileName strategy dataDate = Some s' →
  ∃ r, uploadHistory s' = uploadHistory s ++ [r] ∧ recId r = freshId ∧
       recSnapshot r = Some (snapshotOf s).
Proof.
  unfold actuallyUpdateData. destruct (forEachM _ _ _) as [w|]; [|done].
  intros [= <-]. simpl. eexists. by repeat split.
Qed.


(** ** Merge strategies *)

Lemma findIndex_Some {A} (p : A → bool) (l : list A) (i : nat) :
  findIndex p l = Some i →
  ∃ before x after,
    l = before ++ x :: after ∧ length before = i ∧ p x = true ∧
    Forall (λ y, p y = false) before.
Proof.
  revert i. induction l as [|y l IH]; intros i; simpl; [done|].
  destruct (p y) eqn:E.
  - intros [= <-]. exists [], y, l. by split_and!.
  - destruct (findIndex p l) as [j|]; simpl; [|done].
    intros [= <-]. destruct (IH j eq_refl) as (before & x & after & -> & Hlen & Hx & Hb).
    exists (y :: before), x, after. split_and!; simpl; [done|by f_equal|done|by constructor].
Qed.

Lemma findIndex_None {A} (p : A → bool) (l : list A) :
  findIndex p l = None → Forall (λ y, p y = false) l.
Proof.
  induction l as [|y l IH]; simpl; [by constructor|].
  destruct (p y) eqn:E; [done|].
  destruct (findIndex p l); simpl; [done|]. intros _. constructor; [done|by apply IH].
Qed.

Lemma findIndex_first {A} (p : A → bool) (before : list A) (x : A) (after : list A) :
  Forall (λ y, p y = false) before → p x = true →
  findIndex p (before ++ x :: after) = Some (length before).
Proof.
  intros Hb Hx. induction Hb as [|y before Hy Hb IH]; simpl.
  - by rewrite Hx.
  - by rewrite Hy, IH.
Qed.

Lemma findIndex_absent {A} (p : A → bool) (l : list A) :
  Forall (λ y, p y = false) l → findIndex p l = None.
Proof.
  intros H. induction H as [|y l Hy Hl IH]; simpl; [done|]. by rewrite Hy, IH.
Qed.

(** The ['merge'] body on a list that has the name: the first record with
    the name is overwritten in place, its price is remembered. *)
Lemma mergeStep_overwrite (before after : list miner) (old newMiner : miner)
    (prev : gmap string Q) :
  Forall (λ m, name m ≠ name newMiner) before → name old = name newMiner →
  mergeStep (before ++ old :: after, prev) newMiner =
    (before ++ spread old newMiner :: after, <[name newMiner := price old]> prev).
Proof.
  intros Hb Hold. unfold mergeStep.
  rewrite (findIndex_first _ before old after).
  - rewrite list_lookup_middle by done.
    replace (length before) with (length before + 0) by lia.
    by rewrite insert_app_r.
  - eapply Forall_impl; [exact Hb|]. intros m Hm. by apply String.eqb_neq.
  - by apply String.eqb_eq.
Qed.

(** The ['merge'] body on a list that lacks the name: the row goes to the
    end, the remembered price of the name is dropped. *)
Lemma mergeStep_new (merged : list miner) (newMiner : miner) (prev : gmap string Q) :
  Forall (λ m, name m ≠ name newMiner) merged →
  mergeStep (merged, prev) newMiner =
    (merged ++ [newMiner], delete (name newMiner) prev).
Proof.
  intros Hm. unfold mergeStep. rewrite findIndex_absent; [done|].
  eapply Forall_impl; [exact Hm|]. intros m H. by apply String.eqb_neq.
Qed.

(** One of the two cases always applies. *)
Lemma mergeStep_cases (merged : list miner) (newMiner : miner) :
  Forall (λ m, name m ≠ name newMiner) merged ∨
  ∃ before old after,
    merged = before ++ old :: after ∧
    Forall (λ m, name m ≠ name newMiner) before ∧ name old = name newMiner.
Proof.
  destruct (findIndex (λ m, String.eqb (name m) (name newMiner)) merged) as [i|] eqn:E.
  - right. apply findIndex_Some in E as (before & x & after & -> & _ & Hx & Hb).
    exists before, x, after. split_and!; [done| |by apply String.eqb_eq].
    eapply Forall_impl; [exact Hb|]. intros m H. by apply String.eqb_neq.
  - left. apply findIndex_None in E.
    eapply Forall_impl; [exact E|]. intros m H. by apply String.eqb_neq.
Qed.

(** C7.  ['merge'] and ['append'] give the same next snapshot list and the
    same previous-price dictionary, from every list, dictionary and batch.
    For each row either the first record with its name is overwritten in
    place and the price it had is remembered, or the row is appended and the
    remembered price of its name is dropped. *)
Theorem merge_append_identical (oldMiners : list miner) (prev : gmap string Q)
    (batch : list miner) :
  applyStrategy "merge" oldMiners prev batch = applyStrategy "append" oldMiners prev batch ∧
  (∀ dateMs s pv freshId now fileName dataDate,
     (λ s', (miners s', previousPrices s')) <$>
       actuallyUpdateData dateMs s pv freshId now batch fileName "merge" dataDate =
     (λ s', (miners s', previousPrices s')) <$>
       actuallyUpdateData dateMs s pv freshId now batch fileName "append" dataDate) ∧
  (∀ before old after newMiner,
     Forall (λ m, name m ≠ name newMiner) before → name old = name newMiner →
     let next := (before ++ spread old newMiner :: after,
                  <[name newMiner := price old]> prev) in
     mergeStep (before ++ old :: after, prev) newMiner = next ∧
     appendStep (before ++ old :: after, prev) newMiner = next) ∧
  (∀ newMiner,
     Forall (λ m, name m ≠ name newMiner) oldMiners →
     let next := (oldMiners ++ [newMiner], delete (name newMiner) prev) in
     mergeStep (oldMiners, prev) newMiner = next ∧
     appendStep (oldMiners, prev) newMiner = next).
Proof.
  split_and!.
  - reflexivity.
  - intros. unfold actuallyUpdateData. by destruct (forEachM _ _ _).
  - intros before old after newMiner Hb Hold next.
    split; [|change (mergeStep (before ++ old :: after, prev) newMiner = next)];
      by apply mergeStep_overwrite.
  - intros newMiner Hm next.
    split; [|change (mergeStep (oldMiners, prev) newMiner = next)];
      by apply mergeStep_new.
Qed.

(** ** One record per name *)

#[local] Arguments mergeStep : simpl never.
#[local] Arguments replaceStep : simpl never.

Lemma mergeStep_NoDup (merged : list miner) (prev : gmap string Q) (newMiner : miner) :
  NoDup (name <$> merged) →
  NoDup (name <$> (mergeStep (merged, prev) newMiner).1).
Proof.
  intros Hnd. destruct (mergeStep_cases merged newMiner)
    as [Hnew|(before & old & after & -> & Hb & Hold)].
  - rewrite mergeStep_new by done. simpl. rewrite fmap_app. simpl.
    apply NoDup_app. split_and!; [done| |apply NoDup_singleton].
    intros n Hn Hn'. apply list_elem_of_singleton in Hn'. subst n.
    apply list_elem_of_fmap in Hn as (m & Heq & Hm).
    rewrite Forall_forall in Hnew. apply Hnew in Hm. congruence.
  - rewrite mergeStep_overwrite by done. simpl.
    rewrite fmap_app in *. simpl in *. by rewrite Hold in Hnd.
Qed.

Lemma merge_fold_NoDup (batch merged : list miner) (prev : gmap string Q) :
  NoDup (name <$> merged) →
  NoDup (name <$> (fold_left mergeStep batch (merged, prev)).1).
Proof.
  revert merged prev. induction batch as [|r batch IH]; intros merged prev Hnd; simpl; [done|].
  destruct (mergeStep (merged, prev) r) as [merged' prev'] eqn:E.
  apply IH. replace merged' with (mergeStep (merged, prev) r).1 by by rewrite E.
  by apply mergeStep_NoDup.
Qed.

(** A record stays in the list while rows of other names are merged. *)
Lemma mergeStep_keeps (merged : list miner) (prev : gmap string Q) (newMiner m : miner) :
  m ∈ merged → name newMiner ≠ name m → m ∈ (mergeStep (merged, prev) newMiner).1.
Proof.
  intros Hm Hne. destruct (mergeStep_cases merged newMiner)
    as [Hnew|(before & old & after & -> & Hb & Hold)].
  - rewrite mergeStep_new by done. simpl. apply elem_of_app. by left.
  - rewrite mergeStep_overwrite by done. simpl.
    apply elem_of_app in Hm as [Hm|Hm]; apply elem_of_app; [by left|right].
    apply elem_of_cons in Hm as [->|Hm]; [congruence|]. apply elem_of_cons. by right.
Qed.

Lemma merge_fold_keeps (batch merged : list miner) (prev : gmap string Q) (m : miner) :
  m ∈ merged → Forall (λ r, name r ≠ name m) batch →
  m ∈ (fold_left mergeStep batch (merged, prev)).1.
Proof.
  revert merged prev. induction batch as [|r batch IH]; intros merged prev Hm Hb; simpl; [done|].
  inversion Hb; subst.
  destruct (mergeStep (merged, prev) r) as [merged' prev'] eqn:E.
  apply IH; [|done]. replace merged' with (mergeStep (merged, prev) r).1 by by rewrite E.
  by apply mergeStep_keeps.
Qed.

(** After its own step a row is in the list, as it is or spread over the
    record it overwrote. *)
Lemma mergeStep_written (merged : list miner) (prev : gmap string Q) (r : miner) :
  ∃ m, m ∈ (mergeStep (merged, prev) r).1 ∧ (m = r ∨ ∃ old, m = spread old r).
Proof.
  destruct (mergeStep_cases merged r) as [Hnew|(before & old & after & -> & Hb & Hold)].
  - rewrite mergeStep_new by done. exists r. split; [|by left].
    simpl. apply elem_of_app. right. by apply list_elem_of_singleton.
  - rewrite mergeStep_overwrite by done. exists (spread old r). split; [|right; by exists old].
    simpl. apply elem_of_app. right. apply elem_of_cons. by left.
Qed.

Lemma merge_fold_last_write (before after merged : list miner) (prev : gmap string Q)
    (r : miner) :
  Forall (λ x, name x ≠ name r) after →
  ∃ m, m ∈ (fold_left mergeStep (before ++ r :: after) (merged, prev)).1 ∧
       (m = r ∨ ∃ old, m = spread old r).
Proof.
  intros Ha. rewrite fold_left_app. simpl.
  destruct (fold_left mergeStep before (merged, prev)) as [merged1 prev1].
  destruct (mergeStep_written merged1 prev1 r) as (m & Hm & Hshape).
  exists m. split; [|done].
  destruct (mergeStep (merged1, prev1) r) as [merged2 prev2]. simpl in Hm.
  apply merge_fold_keeps; [done|].
  assert (name m = name r) as -> by (destruct Hshape as [->|[old ->]]; done).
  done.
Qed.

Lemma replace_fold_list (oldMiners batch acc : list miner) (prev : gmap string Q) :
  (fold_left (replaceStep oldMiners) batch (acc, prev)).1 = acc ++ batch.
Proof.
  revert acc prev. induction batch as [|r batch IH]; intros acc prev; simpl.
  - by rewrite app_nil_r.
  - unfold replaceStep at 2. destruct (List.find _ oldMiners);
      rewrite IH; by rewrite <- app_assoc.
Qed.

(** C8 (amended).  Under ['merge'] and ['append'] a snapshot list with at
    most one record per name keeps at most one record per name, whatever the
    batch, repeated names included, and the last row of the batch with a
    given name is in the list, as it is or spread over the record it
    overwrote.  Under ['replace'] the next list is the batch itself. *)
Theorem snapshot_one_record_per_name (oldMiners : list miner) (prev : gmap string Q)
    (batch : list miner) :
  (∀ strategy, strategy = "merge" ∨ strategy = "append" →
     (NoDup (name <$> oldMiners) →
      NoDup (name <$> (applyStrategy strategy oldMiners prev batch).1)) ∧
     (∀ before r after,
        batch = before ++ r :: after → Forall (λ x, name x ≠ name r) after →
        ∃ m, m ∈ (applyStrategy strategy oldMiners prev batch).1 ∧
             (m = r ∨ ∃ old, m = spread old r))) ∧
  (applyStrategy "replace" oldMiners prev batch).1 = batch.
Proof.
  split.
  - intros strategy Hs.
    assert (applyStrategy strategy oldMiners prev batch =
            fold_left mergeStep batch (oldMiners, prev)) as ->.
    { by destruct Hs as [->| ->]. }
    split.
    + apply merge_fold_NoDup.
    + intros before r after -> Ha. by apply merge_fold_last_write.
  - unfold applyStrategy. simpl. by rewrite replace_fold_list.
Qed.

(** C8, the claim as stated, fails under ['replace']: a batch with two rows
    of one name leaves two records of that name in the list. *)
Lemma replace_keeps_repeated_names :
  let batch := [sampleMiner "A" 100 50 "2024-01-02" 2000;
                sampleMiner "A" 100 60 "2024-01-02" 2000] in
  name <$> (applyStrategy "replace" [] ∅ batch).1 = ["A"; "A"] ∧
  ¬ NoDup (name <$> (applyStrategy "replace" [] ∅ batch).1).
Proof.
  split; [reflexivity|]. vm_compute. intros H. inversion H as [|x l Hx Hl]; subst.
  apply Hx. apply elem_of_cons. by left.
Qed.

Lemma snapshot_one_record_per_name_witness :
  let old := [sampleMiner "A" 100 50 "2024-01-01" 1000] in
  let batch := [sampleMiner "A" 100 55 "2024-01-02" 2000;
                sampleMiner "A" 100 60 "2024-01-02" 2000] in
  NoDup (name <$> (applyStrategy "merge" old ∅ batch).1) ∧
  ∃ m, m ∈ (applyStrategy "merge" old ∅ batch).1 ∧
       (m = sampleMiner "A" 100 60 "2024-01-02" 2000 ∨
        ∃ o, m = spread o (sampleMiner "A" 100 60 "2024-01-02" 2000)).
Proof.
  pose proof (snapshot_one_record_per_name
                [sampleMiner "A" 100 50 "2024-01-01" 1000] ∅
                [sampleMiner "A" 100 55 "2024-01-02" 2000;
                 sampleMiner "A" 100 60 "2024-01-02" 2000]) as [H _].
  destruct (H "merge" (or_introl eq_refl)) as [Hnd Hlast].
  split.
  - apply Hnd. vm_compute. apply NoDup_singleton.
  - apply (Hlast [sampleMiner "A" 100 55 "2024-01-02" 2000]
             (sampleMiner "A" 100 60 "2024-01-02" 2000) []); [reflexivity|constructor].
Defined.

(** ** Maximum prices *)










(** ** The stable sort *)

Section Sorting.
Context {A : Type} (cmp : A → A → Z).

Lemma sortInsert_perm (x : A) (l : list A) : sortInsert cmp x l ≡ₚ x :: l.
Proof.
  induction l as [|y l IH]; simpl; [done|].
  destruct (cmp x y <=? 0)%Z; [done|].
  rewrite IH. apply Permutation_swap.
Qed.

Lemma jsSort_perm (l : list A) : jsSort cmp l ≡ₚ l.
Proof.
  induction l as [|x l IH]; simpl; [done|].
  by rewrite sortInsert_perm, IH.
Qed.

Lemma elem_of_jsSort (x : A) (l : list A) : x ∈ jsSort cmp l ↔ x ∈ l.
Proof. by rewrite jsSort_perm. Qed.

Context (k : A → Z) (Hk : sortsBy cmp k).

Lemma cmp_le_true (a b : A) : (k a ≤ k b)%Z → (cmp a b <=? 0)%Z = true.
Proof. intros H. apply Z.leb_le. by apply Hk. Qed.

Lemma cmp_le_false (a b : A) : (k b < k a)%Z → (cmp a b <=? 0)%Z = false.
Proof. intros H. apply Z.leb_gt. destruct (Hk a b) as [H1 _]. lia. Qed.

Lemma cmp_cases (a b : A) :
  ((k a ≤ k b)%Z ∧ (cmp a b <=? 0)%Z = true) ∨
  ((k b < k a)%Z ∧ (cmp a b <=? 0)%Z = false).
Proof.
  destruct (Z.le_gt_cases (k a) (k b)).
  - left. split; [done|by apply cmp_le_true].
  - right. split; [lia|apply cmp_le_false; lia].
Qed.

(** An element that precedes the whole list goes to its front. *)
Lemma sortInsert_front (x : A) (l : list A) :
  Forall (λ y, (k x ≤ k y)%Z) l → sortInsert cmp x l = x :: l.
Proof.
  intros H. destruct H as [|y l Hy Hl]; simpl; [done|].
  by rewrite cmp_le_true.
Qed.

Lemma sortInsert_sorted (x : A) (l : list A) :
  StronglySorted (λ a b, (k a ≤ k b)%Z) l →
  StronglySorted (λ a b, (k a ≤ k b)%Z) (sortInsert cmp x l).
Proof.
  induction 1 as [|y l Hl IH Hy]; simpl.
  - repeat constructor.
  - destruct (cmp_cases x y) as [[Hle ->]|[Hgt ->]].
    + constructor; [by constructor|]. constructor; [done|].
      eapply Forall_impl; [exact Hy|]. simpl. intros; lia.
    + constructor; [done|]. rewrite sortInsert_perm. constructor; [lia|done].
Qed.

Lemma jsSort_sorted (l : list A) :
  StronglySorted (λ a b, (k a ≤ k b)%Z) (jsSort cmp l).
Proof.
  induction l as [|x l IH]; simpl; [constructor|]. by apply sortInsert_sorted.
Qed.

(** Sorting a sorted array leaves it as it is. *)
Lemma jsSort_id (l : list A) :
  StronglySorted (λ a b, (k a ≤ k b)%Z) l → jsSort cmp l = l.
Proof.
  induction 1 as [|x l Hl IH Hx]; simpl; [done|].
  rewrite IH. by apply sortInsert_front.
Qed.

Lemma jsSort_idemp (l : list A) : jsSort cmp (jsSort cmp l) = jsSort cmp l.
Proof. apply jsSort_id, jsSort_sorted. Qed.

(** Stability: the sort commutes with every filter. *)
Lemma filter_sortInsert (P : A → Prop) `{!∀ x, Decision (P x)} (x : A) (l : list A) :
  StronglySorted (λ a b, (k a ≤ k b)%Z) l →
  filter P (sortInsert cmp x l) =
    if decide (P x) then sortInsert cmp x (filter P l) else filter P l.
Proof.
  induction 1 as [|y l Hl IH Hy]; simpl.
  - rewrite filter_cons, filter_nil. by destruct (decide (P x)).
  - destruct (cmp_cases x y) as [[Hle ->]|[Hgt ->]].
    + rewrite filter_cons. destruct (decide (P x)); [|done].
      rewrite sortInsert_front; [done|].
      apply Forall_forall. intros z Hz. apply list_elem_of_filter in Hz as [_ Hz].
      apply elem_of_cons in Hz as [->|Hz]; [done|].
      rewrite Forall_forall in Hy. apply Hy in Hz. lia.
    + rewrite !(filter_cons _ y), IH. destruct (decide (P y)); [|done].
      destruct (decide (P x)); [|done]. simpl. by rewrite cmp_le_false.
Qed.

Lemma filter_jsSort (P : A → Prop) `{!∀ x, Decision (P x)} (l : list A) :
  filter P (jsSort cmp l) = jsSort cmp (filter P l).
Proof.
  induction l as [|x l IH]; simpl; [done|].
  rewrite filter_sortInsert by apply jsSort_sorted.
  rewrite filter_cons, IH. by destruct (decide (P x)).
Qed.

(** Sorting the tail of an array first does not change the result. *)
Lemma jsSort_app_sorted_r (l1 l2 : list A) :
  jsSort cmp (l1 ++ jsSort cmp l2) = jsSort cmp (l1 ++ l2).
Proof.
  induction l1 as [|x l1 IH]; simpl; [apply jsSort_idemp|]. by rewrite IH.
Qed.

(** Two insertions of different keys commute. *)
Lemma sortInsert_comm (x y : A) (l : list A) :
  k x ≠ k y →
  sortInsert cmp x (sortInsert cmp y l) = sortInsert cmp y (sortInsert cmp x l).
Proof.
  intros Hne. induction l as [|z l IH]; simpl.
  - destruct (cmp_cases x y) as [[? ->]|[? ->]];
      destruct (cmp_cases y x) as [[? ->]|[? ->]]; simpl; done || lia.
  - destruct (cmp_cases x z) as [[? Hxz]|[? Hxz]];
      destruct (cmp_cases y z) as [[? Hyz]|[? Hyz]];
      rewrite ?Hxz, ?Hyz; simpl; rewrite ?Hxz, ?Hyz.
    + destruct (cmp_cases x y) as [[? ->]|[? ->]];
        destruct (cmp_cases y x) as [[? ->]|[? ->]]; simpl;
        rewrite ?Hxz, ?Hyz; done || lia.
    + rewrite (cmp_le_false y x) by lia. simpl. by rewrite ?Hyz.
    + rewrite (cmp_le_false x y) by lia. simpl. by rewrite ?Hxz.
    + by rewrite IH.
Qed.

(** An element may move to the front across elements of other keys. *)
Lemma jsSort_move_front (x : A) (l1 l2 : list A) :
  Forall (λ y, k y ≠ k x) l1 →
  jsSort cmp (l1 ++ x :: l2) = sortInsert cmp x (jsSort cmp (l1 ++ l2)).
Proof.
  induction 1 as [|y l1 Hy Hl IH]; simpl; [done|].
  rewrite IH. by apply sortInsert_comm.
Qed.

(** Where a sorted array receives a new element. *)
Lemma sortInsert_split (x : A) (l : list A) :
  ∃ l1 l2, l = l1 ++ l2 ∧ sortInsert cmp x l = l1 ++ x :: l2 ∧
           Forall (λ y, (k y < k x)%Z) l1.
Proof.
  induction l as [|y l (l1 & l2 & -> & Heq & Hl1)]; simpl.
  - by exists [], [].
  - destruct (cmp_cases x y) as [[Hle ->]|[Hgt ->]].
    + by exists [], (y :: l1 ++ l2).
    + exists (y :: l1), l2. rewrite Heq. split_and!; [done..|]. by constructor.
Qed.
End Sorting.

(** A sort by a finer key is not affected by an earlier sort by a coarser
    one: the earlier sort keeps the order of the elements the later one has
    to keep in order. *)
Lemma jsSort_after_jsSort {A} (cmp cmp' : A → A → Z) (k k' : A → Z) (l : list A) :
  sortsBy cmp k → sortsBy cmp' k' → (∀ a b, k' a = k' b → k a = k b) →
  jsSort cmp' (jsSort cmp l) = jsSort cmp' l.
Proof.
  intros Hk Hk' Hfiner. induction l as [|x l IH]; simpl; [done|].
  destruct (sortInsert_split cmp k Hk x (jsSort cmp l)) as (l1 & l2 & Hl & -> & Hl1).
  rewrite (jsSort_move_front cmp' k' Hk').
  - by rewrite <- Hl, IH.
  - eapply Forall_impl; [exact Hl1|]. simpl. intros y Hy Heq. apply Hfiner in Heq. lia.
Qed.

Lemma StronglySorted_impl {A} (R R' : relation A) (l : list A) :
  (∀ a b, R a b → R' a b) → StronglySorted R l → StronglySorted R' l.
Proof.
  intros H. induction 1 as [|x l Hl IH Hx]; constructor; [done|].
  eapply Forall_impl; [exact Hx|]. apply H.
Qed.

Lemma NoDup_filter_fst {A B} (P : A * B → Prop) `{!∀ x, Decision (P x)} (l : list (A * B)) :
  NoDup l.*1 → NoDup (filter P l).*1.
Proof.
  induction l as [|x l IH]; [done|].
  rewrite fmap_cons, filter_cons. intros [Hx Hl]%NoDup_cons.
  destruct (decide (P x)); [|by apply IH].
  rewrite fmap_cons. apply NoDup_cons. split; [|by apply IH].
  intros Hin. apply Hx. apply list_elem_of_fmap in Hin as (y & Hy & Hyin).
  apply list_elem_of_filter in Hyin as [_ Hyin]. apply list_elem_of_fmap. by exists y.
Qed.

Lemma filter_nil_Forall {A} (P : A → Prop) `{!∀ x, Decision (P x)} (l : list A) :
  Forall (λ x, ¬ P x) l → filter P l = [].
Proof.
  induction 1 as [|x l Hx Hl IH]; [done|]. by rewrite filter_cons_False.
Qed.

(** ** Daily and intraday views *)

Lemma laterOf_fold_elem (l : list histEntry) (x : histEntry) :
  fold_left laterOf l x ∈ x :: l.
Proof.
  revert x. induction l as [|y l IH]; intros x; simpl.
  - apply elem_of_cons. by left.
  - specialize (IH (laterOf x y)). apply elem_of_cons in IH as [H|H].
    + rewrite H. unfold laterOf. destruct (_ <? _)%Z.
      * apply elem_of_cons. right. apply elem_of_cons. by left.
      * apply elem_of_cons. by left.
    + apply elem_of_cons. right. apply elem_of_cons. by right.
Qed.

Lemma reduce1_laterOf (l : list histEntry) (x : histEntry) :
  x ∈ l → ∃ e, reduce1 laterOf l = Some e ∧ e ∈ l.
Proof.
  destruct l as [|y l]; [by intros H%elem_of_nil|]. intros _.
  eexists. split; [done|]. apply laterOf_fold_elem.
Qed.

(** Phase 1 keeps the relation between the two views. *)
Lemma updateHistory_invariant dateMs (entry : miner) (daily intraday : list histEntry) :
  dailyWithinIntraday daily intraday →
  ∃ daily' intraday',
    updateHistory dateMs entry daily intraday = History daily' intraday' ∧
    dailyWithinIntraday daily' intraday'.
Proof.
  intros (Hsub & Hnd & Hcov). unfold updateHistory.
  set (intraday' := jsSort byTimestamp (intraday ++ [newHistEntry entry])).
  assert (∀ e, e ∈ intraday' ↔ e ∈ intraday ∨ e = newHistEntry entry) as Hin.
  { intros e. unfold intraday'. rewrite elem_of_jsSort, elem_of_app, list_elem_of_singleton.
    done. }
  destruct (reduce1_laterOf (filter (λ h, hDate h = date entry) intraday')
              (newHistEntry entry)) as (latest & -> & Hlatest).
  { apply list_elem_of_filter. split; [done|]. apply Hin. by right. }
  apply list_elem_of_filter in Hlatest as [Hdate Hlatest].
  eexists _, intraday'. split; [done|].
  set (p := λ d : histEntry, String.eqb (hDate d) (date entry)).
  destruct (findIndex p daily) as [idx|] eqn:Hidx.
  - apply findIndex_Some in Hidx as (before & old & after & -> & <- & Hold & _).
    apply String.eqb_eq in Hold.
    replace (length before) with (length before + 0) by lia.
    rewrite insert_app_r. simpl.
    assert (hDate <$> (before ++ latest :: after) = hDate <$> (before ++ old :: after))
      as Hdates.
    { rewrite !fmap_app. simpl. congruence. }
    split_and!.
    + intros e He. apply elem_of_jsSort in He.
      apply elem_of_app in He as [He|He].
      * apply Hin. left. apply Hsub. apply elem_of_app. by left.
      * apply elem_of_cons in He as [->|He]; [done|].
        apply Hin. left. apply Hsub. apply elem_of_app. right. apply elem_of_cons. by right.
    + rewrite (jsSort_perm _ _). by rewrite Hdates.
    + intros e He. rewrite (jsSort_perm _ _), Hdates.
      apply Hin in He as [He| ->]; [by apply Hcov|]. simpl.
      rewrite <- Hold. apply list_elem_of_fmap. exists old. split; [done|].
      apply elem_of_app. right. apply elem_of_cons. by left.
  - apply findIndex_None in Hidx.
    assert (date entry ∉ hDate <$> daily) as Hfresh.
    { intros Hd. apply list_elem_of_fmap in Hd as (d & Hd & Hdin).
      rewrite Forall_forall in Hidx. apply Hidx in Hdin. unfold p in Hdin.
      apply String.eqb_neq in Hdin. congruence. }
    split_and!.
    + intros e He. apply elem_of_jsSort in He.
      apply elem_of_app in He as [He|He].
      * apply Hin. left. by apply Hsub.
      * apply list_elem_of_singleton in He as ->. done.
    + rewrite (jsSort_perm _ _), fmap_app. simpl. apply NoDup_app. split_and!; [done| |apply NoDup_singleton].
      intros d Hd Hd'. apply list_elem_of_singleton in Hd'. subst d. congruence.
    + intros e He. rewrite (jsSort_perm _ _), fmap_app. apply elem_of_app.
      apply Hin in He as [He| ->]; [left; by apply Hcov|].
      right. simpl. rewrite Hdate. apply list_elem_of_singleton. done.
Qed.

Lemma dailyWithinIntraday_nil : dailyWithinIntraday [] [].
Proof.
  split_and!; [done|constructor|]. by intros e H%elem_of_nil.
Qed.

Lemma recordEntry_invariant dateMs known (w w' : working) (entry : miner) :
  historyInvariant (tempPriceHistory w) →
  recordEntry dateMs known w entry = Some w' →
  historyInvariant (tempPriceHistory w').
Proof.
  intros Hinv Hrun. unfold recordEntry in Hrun.
  assert (∃ daily intraday,
            dailyWithinIntraday daily intraday ∧
            tempPriceHistory w' =
              <[name entry := updateHistory dateMs entry daily intraday]>
                (tempPriceHistory w)) as (daily & intraday & Hdi & ->).
  { destruct (tempPriceHistory w !! name entry) as [[d i|l]|] eqn:E.
    - apply Hinv in E as (d' & i' & [= <- <-] & Hdi).
      inversion Hrun; subst. by exists d, i.
    - done.
    - inversion Hrun; subst. exists [], []. split; [apply dailyWithinIntraday_nil|done]. }
  intros n v. destruct (decide (name entry = n)) as [<-|Hne].
  - rewrite lookup_insert_eq. intros [= <-].
    by apply updateHistory_invariant.
  - rewrite lookup_insert_ne by done. apply Hinv.
Qed.

Lemma forEachM_invariant dateMs known (batch : list miner) (w w' : working) :
  historyInvariant (tempPriceHistory w) →
  forEachM (recordEntry dateMs known) batch w = Some w' →
  historyInvariant (tempPriceHistory w').
Proof.
  revert w. induction batch as [|e batch IH]; intros w Hinv; cbn [forEachM].
  - by intros [= <-].
  - destruct (recordEntry dateMs known w e) as [w1|] eqn:E; [|done].
    apply IH. by eapply recordEntry_invariant.
Qed.

Lemma actuallyUpdateData_invariant dateMs s pv freshId now batch fileName strategy
    dataDate s' :
  historyInvariant (priceHistory s) →
  actuallyUpdateData dateMs s pv freshId now batch fileName strategy dataDate = Some s' →
  historyInvariant (priceHistory s').
Proof.
  intros Hinv. unfold actuallyUpdateData.
  destruct (forEachM _ batch _) as [w|] eqn:E; [|done]. intros [= <-]. simpl.
  eapply forEachM_invariant; [|exact E]. exact Hinv.
Qed.

(** C6.  The relation between the two views holds for every name after any
    sequence of updates that starts from a state where it holds, the empty
    state of a freshly mounted component in particular: every daily entry is
    an intraday entry of the same name, and the daily view has exactly one
    entry per date of the intraday view.  Validity of the rows is not
    needed. *)
Theorem daily_within_intraday (dateMs : string → Z) (s s' : state) :
  ingests dateMs s s' →
  (s = initialState ∨ historyInvariant (priceHistory s)) →
  ∀ n v, priceHistory s' !! n = Some v →
    ∃ daily intraday,
      v = History daily intraday ∧
      (∀ e, e ∈ daily → e ∈ intraday) ∧
      NoDup (hDate <$> daily) ∧
      (∀ e, e ∈ intraday → hDate e ∈ hDate <$> daily).
Proof.
  intros Hseq Hstart.
  assert (historyInvariant (priceHistory s)) as Hinv.
  { destruct Hstart as [->|H]; [|done]. intros n v. simpl. by rewrite lookup_empty. }
  clear Hstart. change (historyInvariant (priceHistory s')).
  induction Hseq as [s|s s1 s2 ???????? IH Hrun]; [done|].
  eapply actuallyUpdateData_invariant; [|exact Hrun]. by apply IH.
Qed.

(** ** Compaction *)

Lemma filter_ext_Forall {A} (P Q : A → Prop) `{!∀ x, Decision (P x)}
    `{!∀ x, Decision (Q x)} (l : list A) :
  Forall (λ x, P x ↔ Q x) l → filter P l = filter Q l.
Proof.
  induction 1 as [|x l Hx Hl IH]; [done|].
  rewrite !filter_cons, IH. destruct (decide (P x)), (decide (Q x)); tauto.
Qed.

Lemma indexed_lookup_eq {A} (l : list A) (start i : nat) :
  indexed start l !! i = (λ x, (start + i, x)) <$> l !! i.
Proof.
  revert start i. induction l as [|y l IH]; intros start i; [done|].
  destruct i as [|i]; simpl.
  - by rewrite Nat.add_0_r.
  - rewrite IH. by replace (S start + i) with (start + S i) by lia.
Qed.

Lemma indexed_fst {A} (l : list A) (start : nat) :
  (indexed start l).*1 = seq start (length l).
Proof.
  revert start. induction l as [|y l IH]; intros start; simpl; [done|]. by rewrite IH.
Qed.

Lemma indexed_NoDup {A} (l : list A) (start : nat) : NoDup (indexed start l).*1.
Proof. rewrite indexed_fst. apply NoDup_seq. Qed.

(** The [Map] loop. *)
Lemma mapSetIfAbsent_fold (l : list object) (m : list (string * object)) :
  (fold_left mapSetIfAbsent l m).*2 = m.*2 ++ firstPerDate m.*1 l.
Proof.
  revert m. induction l as [|x l IH]; intros m; simpl.
  - by rewrite app_nil_r.
  - rewrite IH. unfold mapSetIfAbsent. case_bool_decide; [done|].
    rewrite !fmap_app. simpl. by rewrite <- app_assoc.
Qed.

(** The [Set] loops. *)
Lemma setAdd_fold_NoDup (l set : list object) :
  NoDup (set.*1 ++ l.*1) → fold_left setAdd l set = set ++ l.
Proof.
  revert set. induction l as [|x l IH]; intros set Hnd; simpl.
  - by rewrite app_nil_r.
  - unfold setAdd at 2. simpl in Hnd. case_bool_decide as Hx.
    + apply NoDup_app in Hnd as (_ & Hdisj & _). exfalso.
      apply (Hdisj _ Hx). apply elem_of_cons. by left.
    + rewrite IH.
      * by rewrite <- app_assoc.
      * rewrite fmap_app. simpl. by rewrite <- app_assoc.
Qed.

Lemma setAdd_fold_filter (P : object → Prop) `{!∀ x, Decision (P x)}
    (l set : list object) :
  NoDup l.*1 →
  fold_left (λ set entry, if bool_decide (P entry) then setAdd set entry else set) l set =
    set ++ filter (λ x, P x ∧ x.1 ∉ set.*1) l.
Proof.
  revert set. induction l as [|x l IH]; intros set Hnd; cbn [fold_left].
  - by rewrite filter_nil, app_nil_r.
  - rewrite fmap_cons in Hnd. apply NoDup_cons in Hnd as [Hx Hl]. rewrite IH by done.
    assert (∀ set' : list object, set'.*1 ⊆ x.1 :: set.*1 → set.*1 ⊆ set'.*1 →
              filter (λ y, P y ∧ y.1 ∉ set'.*1) l = filter (λ y, P y ∧ y.1 ∉ set.*1) l)
      as Hsame.
    { intros set' H1 H2. apply filter_ext_Forall. apply Forall_forall. intros y Hy.
      split; intros [HP Hn]; (split; [done|]); intros Hin.
      - apply Hn. by apply H2.
      - apply H1 in Hin. apply elem_of_cons in Hin as [Heq|Hin]; [|done].
        apply Hx. rewrite <- Heq. apply list_elem_of_fmap. by exists y. }
    rewrite filter_cons. case_bool_decide as HP.
    + unfold setAdd. case_bool_decide as Hin.
      * rewrite decide_False by tauto. done.
      * rewrite decide_True by tauto. rewrite <- app_assoc. simpl. f_equal. f_equal.
        apply Hsame; rewrite fmap_app; simpl; intros z; rewrite ?elem_of_app, ?list_elem_of_singleton, ?elem_of_cons; tauto.
    + rewrite decide_False by tauto. done.
Qed.

Lemma elem_of_firstPerDate (seen : list string) (l : list object) (x : object) :
  x ∈ firstPerDate seen l → x ∈ l ∧ hDate x.2 ∉ seen.
Proof.
  revert seen. induction l as [|y l IH]; intros seen; simpl.
  - by intros H%elem_of_nil.
  - case_bool_decide as Hy.
    + intros [H1 H2]%IH. split; [|done]. apply elem_of_cons. by right.
    + intros [->|[H1 H2]%IH]%elem_of_cons; [split; [|done]; apply elem_of_cons; by left|].
      split; [apply elem_of_cons; by right|]. intros Hs. apply H2. apply elem_of_app. by left.
Qed.

Lemma firstPerDate_NoDup_fst (seen : list string) (l : list object) :
  NoDup l.*1 → NoDup (firstPerDate seen l).*1.
Proof.
  revert seen. induction l as [|y l IH]; intros seen Hnd; simpl; [constructor|].
  inversion Hnd as [|? ? Hy Hl]; subst.
  case_bool_decide; [by apply IH|]. simpl. constructor; [|by apply IH].
  intros Hin. apply list_elem_of_fmap in Hin as (z & Hz & Hzin).
  apply elem_of_firstPerDate in Hzin as [Hzin _]. apply Hy. rewrite Hz.
  apply list_elem_of_fmap. by exists z.
Qed.

Lemma latestPerDate_subset (objects : list object) (x : object) :
  x ∈ latestPerDate objects → x ∈ objects.
Proof.
  intros [H _]%elem_of_firstPerDate. by apply elem_of_jsSort in H.
Qed.

Lemma latestPerDate_NoDup_fst (objects : list object) :
  NoDup objects.*1 → NoDup (latestPerDate objects).*1.
Proof.
  intros Hnd. apply firstPerDate_NoDup_fst. by rewrite (jsSort_perm _ _).
Qed.

(** [optimizeEntry], loop by loop, is [compacted] on the objects of the
    [intraday] array. *)
Lemma optimizeEntry_compacted dateMs thirtyDaysAgo (daily intraday : list histEntry) :
  optimizeEntry dateMs thirtyDaysAgo (History daily intraday) =
    History (compacted dateMs thirtyDaysAgo (indexed 0 intraday)).1.*2
            (compacted dateMs thirtyDaysAgo (indexed 0 intraday)).2.*2.
Proof.
  unfold optimizeEntry, compacted. simpl.
  pose proof (indexed_NoDup intraday 0) as Hnd.
  set (objects := indexed 0 intraday) in *.
  rewrite mapSetIfAbsent_fold. simpl. fold (latestPerDate objects).
  rewrite (setAdd_fold_NoDup (latestPerDate objects) []).
  - simpl. rewrite (setAdd_fold_filter (λ x, (thirtyDaysAgo ≤ hTimestamp x.2)%Z)) by done.
    done.
  - simpl. by apply latestPerDate_NoDup_fst.
Qed.

(** *** Compaction does not depend on the object identities *)

Lemma filter_fmap {A B} (f : A → B) (P : B → Prop) `{!∀ y, Decision (P y)} (l : list A) :
  filter P (f <$> l) = f <$> filter (λ x, P (f x)) l.
Proof.
  induction l as [|x l IH]; [done|].
  rewrite fmap_cons, !filter_cons, IH. by destruct (decide (P (f x))).
Qed.

Lemma sortInsert_fmap {A B} (f : A → B) (cmp : A → A → Z) (cmp' : B → B → Z)
    (x : A) (l : list A) :
  (∀ a b, cmp' (f a) (f b) = cmp a b) →
  sortInsert cmp' (f x) (f <$> l) = f <$> sortInsert cmp x l.
Proof.
  intros Hf. induction l as [|y l IH]; [done|].
  rewrite fmap_cons. cbn [sortInsert]. rewrite Hf.
  destruct (cmp x y <=? 0)%Z; [done|]. by rewrite IH.
Qed.

Lemma jsSort_fmap {A B} (f : A → B) (cmp : A → A → Z) (cmp' : B → B → Z) (l : list A) :
  (∀ a b, cmp' (f a) (f b) = cmp a b) →
  jsSort cmp' (f <$> l) = f <$> jsSort cmp l.
Proof.
  intros Hf. induction l as [|x l IH]; [done|].
  rewrite fmap_cons. cbn [jsSort]. rewrite IH. by apply sortInsert_fmap.
Qed.

Lemma firstPerDate_retag (f : nat → nat) (seen : list string) (l : list object) :
  firstPerDate seen (retag f <$> l) = retag f <$> firstPerDate seen l.
Proof.
  revert seen. induction l as [|x l IH]; intros seen; [done|].
  rewrite fmap_cons. cbn [firstPerDate retag snd].
  case_bool_decide; [apply IH|]. by rewrite IH.
Qed.

Lemma latestPerDate_retag (f : nat → nat) (objects : list object) :
  latestPerDate (retag f <$> objects) = retag f <$> latestPerDate objects.
Proof.
  unfold latestPerDate.
  rewrite (jsSort_fmap (retag f) (λ a b, byTimestampDesc a.2 b.2)) by done.
  apply firstPerDate_retag.
Qed.

Lemma recentOnly_retag (f : nat → nat) (thirtyDaysAgo : Z) (objects : list object) :
  (∀ a b, a ∈ objects.*1 → b ∈ objects.*1 → f a = f b → a = b) →
  recentOnly thirtyDaysAgo (retag f <$> objects) =
    retag f <$> recentOnly thirtyDaysAgo objects.
Proof.
  intros Hinj. unfold recentOnly. rewrite latestPerDate_retag, filter_fmap.
  f_equal. apply filter_ext_Forall, Forall_forall. intros x Hx. simpl.
  assert (f x.1 ∈ (retag f <$> latestPerDate objects).*1 ↔ x.1 ∈ (latestPerDate objects).*1)
    as Hmem; [|tauto].
  split.
  - intros Hin. apply list_elem_of_fmap in Hin as (y & Hy & Hyin).
    apply list_elem_of_fmap in Hyin as (z & -> & Hz). simpl in Hy.
    apply Hinj in Hy.
    + rewrite Hy. apply list_elem_of_fmap. by exists z.
    + apply list_elem_of_fmap. by exists x.
    + apply list_elem_of_fmap. exists z. split; [done|]. by apply latestPerDate_subset.
  - intros Hin. apply list_elem_of_fmap in Hin as (z & Hz & Hzin).
    apply list_elem_of_fmap. exists (retag f z). split; [simpl; by rewrite Hz|].
    apply list_elem_of_fmap. by exists z.
Qed.

Lemma compacted_retag dateMs (f : nat → nat) (thirtyDaysAgo : Z) (objects : list object) :
  (∀ a b, a ∈ objects.*1 → b ∈ objects.*1 → f a = f b → a = b) →
  compacted dateMs thirtyDaysAgo (retag f <$> objects) =
    (retag f <$> (compacted dateMs thirtyDaysAgo objects).1,
     retag f <$> (compacted dateMs thirtyDaysAgo objects).2).
Proof.
  intros Hinj. unfold compacted. simpl.
  rewrite recentOnly_retag, latestPerDate_retag by done. rewrite <- fmap_app.
  rewrite (jsSort_fmap (retag f) (λ a b, byDate dateMs a.2 b.2)) by done.
  by rewrite (jsSort_fmap (retag f) (λ a b, byTimestamp a.2 b.2)) by done.
Qed.

Lemma retag_snd (f : nat → nat) (l : list object) : (retag f <$> l).*2 = l.*2.
Proof. rewrite <- list_fmap_compose. done. Qed.

(** Objects with distinct identities are the array of their entries, with
    positions renamed. *)
Lemma retag_indexed (objects : list object) :
  NoDup objects.*1 →
  ∃ f, objects = retag f <$> indexed 0 objects.*2 ∧
       ∀ a b, a ∈ (indexed 0 objects.*2).*1 → b ∈ (indexed 0 objects.*2).*1 →
              f a = f b → a = b.
Proof.
  intros Hnd. exists (λ i, default 0 (objects.*1 !! i)). split.
  - apply list_eq. intros i.
    rewrite list_lookup_fmap, indexed_lookup_eq, !list_lookup_fmap.
    destruct (objects !! i) as [[t e]|] eqn:E; [|done].
    simpl. unfold retag. simpl. by rewrite list_lookup_fmap, E.
  - intros a b Ha Hb Heq. rewrite indexed_fst, length_fmap in Ha, Hb.
    apply elem_of_seq in Ha, Hb.
    destruct (lookup_lt_is_Some_2 objects.*1 a) as [ta Hta]; [rewrite length_fmap; lia|].
    destruct (lookup_lt_is_Some_2 objects.*1 b) as [tb Htb]; [rewrite length_fmap; lia|].
    rewrite Hta, Htb in Heq. simpl in Heq. subst tb.
    by apply (NoDup_lookup _ _ _ _ Hnd Hta Htb).
Qed.

(** The entries compaction returns for the objects of an array are those it
    returns for the array of their entries. *)
Lemma compacted_entries dateMs (thirtyDaysAgo : Z) (objects : list object) :
  NoDup objects.*1 →
  (compacted dateMs thirtyDaysAgo (indexed 0 objects.*2)).1.*2 =
    (compacted dateMs thirtyDaysAgo objects).1.*2 ∧
  (compacted dateMs thirtyDaysAgo (indexed 0 objects.*2)).2.*2 =
    (compacted dateMs thirtyDaysAgo objects).2.*2.
Proof.
  intros Hnd. destruct (retag_indexed objects Hnd) as (f & Heq & Hinj).
  set (T := indexed 0 objects.*2) in *.
  assert (compacted dateMs thirtyDaysAgo objects =
          compacted dateMs thirtyDaysAgo (retag f <$> T)) as -> by (by rewrite <- Heq).
  rewrite compacted_retag by done. simpl.
  by rewrite !retag_snd.
Qed.

(** *** The latest entry of each date *)

Lemma firstPerDate_Forall (P : object → Prop) (seen : list string) (l : list object) :
  Forall P l → Forall P (firstPerDate seen l).
Proof.
  rewrite !Forall_forall. intros H x [Hx _]%elem_of_firstPerDate. by apply H.
Qed.

Lemma firstPerDate_sorted (R : relation object) (seen : list string) (l : list object) :
  StronglySorted R l → StronglySorted R (firstPerDate seen l).
Proof.
  intros Hl. revert seen. induction Hl as [|x l Hl IH Hx]; intros seen; simpl; [constructor|].
  case_bool_decide; [apply IH|]. constructor; [apply IH|]. by apply firstPerDate_Forall.
Qed.

Lemma firstPerDate_NoDup_dates (seen : list string) (l : list object) :
  NoDup ((λ x : object, hDate x.2) <$> firstPerDate seen l).
Proof.
  revert seen. induction l as [|x l IH]; intros seen; simpl; [constructor|].
  case_bool_decide; [apply IH|]. rewrite fmap_cons. constructor; [|apply IH].
  intros Hin. apply list_elem_of_fmap in Hin as (y & Hy & Hyin).
  apply elem_of_firstPerDate in Hyin as [_ Hn]. apply Hn. rewrite <- Hy.
  apply elem_of_app. right. by apply list_elem_of_singleton.
Qed.

(** In an array sorted from the newest entry on, every entry of a date not
    yet seen is covered by the kept entry of its date, which is not older. *)
Lemma firstPerDate_covers (seen : list string) (l : list object) (x : object) :
  StronglySorted (λ a b : object, (hTimestamp b.2 ≤ hTimestamp a.2)%Z) l →
  x ∈ l → hDate x.2 ∉ seen →
  ∃ m, m ∈ firstPerDate seen l ∧ hDate m.2 = hDate x.2 ∧
       (hTimestamp x.2 ≤ hTimestamp m.2)%Z.
Proof.
  intros Hl. revert seen. induction Hl as [|y l Hl IH Hy]; intros seen Hx Hn; simpl.
  { by apply elem_of_nil in Hx. }
  case_bool_decide as Hseen.
  - apply elem_of_cons in Hx as [->|Hx]; [done|]. by apply IH.
  - destruct (decide (hDate x.2 = hDate y.2)) as [Heq|Hne].
    + exists y. split_and!; [apply elem_of_cons; by left|done|].
      apply elem_of_cons in Hx as [->|Hx]; [done|].
      rewrite Forall_forall in Hy. by apply Hy.
    + apply elem_of_cons in Hx as [->|Hx]; [done|].
      destruct (IH (seen ++ [hDate y.2]) Hx) as (m & Hm & Hd & Ht).
      * intros [H|H%list_elem_of_singleton]%elem_of_app; done.
      * exists m. split_and!; [apply elem_of_cons; by right|done..].
Qed.

Lemma firstPerDate_app_seen (seen : list string) (l1 l2 : list object) :
  Forall (λ y : object, hDate y.2 ∈ seen) l1 →
  firstPerDate seen (l1 ++ l2) = firstPerDate seen l2.
Proof.
  induction 1 as [|y l1 Hy Hl IH]; simpl; [done|]. by rewrite bool_decide_eq_true_2.
Qed.

Lemma desc_sortsBy :
  sortsBy (λ a b : object, byTimestampDesc a.2 b.2) (λ x, (- hTimestamp x.2)%Z).
Proof. intros a b. unfold byTimestampDesc. lia. Qed.

Lemma asc_sortsBy :
  sortsBy (λ a b : object, byTimestamp a.2 b.2) (λ x, hTimestamp x.2).
Proof. intros a b. unfold byTimestamp. lia. Qed.


Lemma latestPerDate_sorted (objects : list object) :
  StronglySorted (λ a b : object, (hTimestamp b.2 ≤ hTimestamp a.2)%Z)
    (latestPerDate objects).
Proof.
  apply firstPerDate_sorted.
  pose proof (jsSort_sorted _ _ desc_sortsBy objects) as H.
  eapply StronglySorted_impl; [|exact H]. simpl. intros; lia.
Qed.

Lemma latestPerDate_covers (objects : list object) (x : object) :
  x ∈ objects →
  ∃ m, m ∈ latestPerDate objects ∧ hDate m.2 = hDate x.2 ∧
       (hTimestamp x.2 ≤ hTimestamp m.2)%Z.
Proof.
  intros Hx. apply firstPerDate_covers.
  - pose proof (jsSort_sorted _ _ desc_sortsBy objects) as H.
    eapply StronglySorted_impl; [|exact H]. simpl. intros; lia.
  - by apply elem_of_jsSort.
  - by intros H%elem_of_nil.
Qed.

Lemma jsSort_app_foldr {A} (cmp : A → A → Z) (l1 l2 : list A) :
  jsSort cmp (l1 ++ l2) = foldr (sortInsert cmp) (jsSort cmp l2) l1.
Proof. induction l1 as [|x l1 IH]; simpl; [done|]. by rewrite IH. Qed.

Lemma foldr_sortInsert_perm {A} (cmp : A → A → Z) (l1 l2 : list A) :
  foldr (sortInsert cmp) l2 l1 ≡ₚ l1 ++ l2.
Proof.
  induction l1 as [|x l1 IH]; simpl; [done|]. by rewrite sortInsert_perm, IH.
Qed.

(** Inserting the latest entries, newest first, into entries they cover
    gives an array whose first entries per date are the latest entries
    again. *)
Lemma firstPerDate_reinsert (Msuf Mpre X : list object) :
  StronglySorted (λ a b : object, (hTimestamp b.2 ≤ hTimestamp a.2)%Z) (Mpre ++ Msuf) →
  NoDup ((λ x : object, hDate x.2) <$> (Mpre ++ Msuf)) →
  (∀ x, x ∈ X → ∃ m, m ∈ Mpre ++ Msuf ∧ hDate m.2 = hDate x.2 ∧
                     (hTimestamp x.2 ≤ hTimestamp m.2)%Z) →
  firstPerDate ((λ x : object, hDate x.2) <$> Mpre)
    (foldr (sortInsert (λ a b : object, byTimestampDesc a.2 b.2)) X Msuf) = Msuf.
Proof.
  revert Mpre. induction Msuf as [|m Msuf IH]; intros Mpre Hsorted Hnd Hcov.
  - simpl. rewrite app_nil_r in *.
    rewrite <- (app_nil_r X). rewrite firstPerDate_app_seen; [done|].
    apply Forall_forall. intros x Hx. destruct (Hcov x Hx) as (m' & Hm' & Hd & _).
    rewrite <- Hd. apply list_elem_of_fmap. by exists m'.
  - cbn [foldr].
    set (Y := foldr (sortInsert (λ a b : object, byTimestampDesc a.2 b.2)) X Msuf) in *.
    assert (Mpre ++ m :: Msuf = (Mpre ++ [m]) ++ Msuf) as Hassoc
      by (by rewrite <- app_assoc).
    specialize (IH (Mpre ++ [m])). rewrite <- Hassoc in IH.
    specialize (IH Hsorted Hnd Hcov).
    destruct (sortInsert_split _ _ desc_sortsBy m Y) as (Y1 & Y2 & HY & -> & HY1).
    assert (Forall (λ y : object, hDate y.2 ∈ (λ x : object, hDate x.2) <$> Mpre) Y1)
      as Hseen.
    { apply Forall_forall. intros y Hy.
      rewrite Forall_forall in HY1. pose proof (HY1 y Hy) as Hlt. simpl in Hlt.
      apply StronglySorted_app_1_r, StronglySorted_inv in Hsorted as [_ Hafter].
      rewrite Forall_forall in Hafter.
      assert (y ∈ Y) as HyY by (rewrite HY; apply elem_of_app; by left).
      unfold Y in HyY. rewrite foldr_sortInsert_perm in HyY.
      apply elem_of_app in HyY as [HyM|HyX].
      { apply Hafter in HyM. lia. }
      destruct (Hcov y HyX) as (m' & Hm' & Hd & Ht).
      apply elem_of_app in Hm' as [Hm'|Hm'].
      - rewrite <- Hd. apply list_elem_of_fmap. by exists m'.
      - apply elem_of_cons in Hm' as [->|Hm']; [lia|]. apply Hafter in Hm'. lia. }
    rewrite firstPerDate_app_seen by done. cbn [firstPerDate].
    rewrite bool_decide_eq_false_2.
    + f_equal. rewrite HY in IH. rewrite fmap_app in IH.
      rewrite firstPerDate_app_seen in IH; [done|].
      eapply Forall_impl; [exact Hseen|]. simpl. intros y Hy. apply elem_of_app. by left.
    + rewrite fmap_app in Hnd. apply NoDup_app in Hnd as (_ & Hdisj & _).
      intros Hin. apply (Hdisj _ Hin). rewrite fmap_cons. apply elem_of_cons. by left.
Qed.

Lemma latestPerDate_NoDup_dates (objects : list object) :
  NoDup ((λ x : object, hDate x.2) <$> latestPerDate objects).
Proof. apply firstPerDate_NoDup_dates. Qed.

Lemma recentOnly_elem (thirtyDaysAgo : Z) (objects : list object) (x : object) :
  x ∈ recentOnly thirtyDaysAgo objects ↔
  x ∈ objects ∧ (thirtyDaysAgo ≤ hTimestamp x.2)%Z ∧ x.1 ∉ (latestPerDate objects).*1.
Proof. unfold recentOnly. rewrite list_elem_of_filter. tauto. Qed.

(** The latest entries of the compacted array are the latest entries of the
    array. *)
Lemma latestPerDate_compacted dateMs (thirtyDaysAgo : Z) (objects : list object) :
  latestPerDate (compacted dateMs thirtyDaysAgo objects).2 = latestPerDate objects.
Proof.
  unfold compacted. simpl. unfold latestPerDate at 1.
  rewrite (jsSort_after_jsSort _ _ _ _ _ asc_sortsBy desc_sortsBy) by (intros; lia).
  rewrite <- (jsSort_app_sorted_r _ _ desc_sortsBy), jsSort_app_foldr.
  rewrite (jsSort_idemp _ _ desc_sortsBy).
  apply (firstPerDate_reinsert (latestPerDate objects) []).
  - apply latestPerDate_sorted.
  - apply latestPerDate_NoDup_dates.
  - intros x Hx. apply elem_of_jsSort in Hx. apply recentOnly_elem in Hx as [Hx _].
    by apply latestPerDate_covers.
Qed.

(** Compacting the compacted objects changes nothing. *)
Lemma compacted_again dateMs (thirtyDaysAgo : Z) (objects : list object) :
  compacted dateMs thirtyDaysAgo (compacted dateMs thirtyDaysAgo objects).2 =
    compacted dateMs thirtyDaysAgo objects.
Proof.
  set (I := (compacted dateMs thirtyDaysAgo objects).2).
  assert (latestPerDate I = latestPerDate objects) as HM
    by apply latestPerDate_compacted.
  assert (recentOnly thirtyDaysAgo I =
          jsSort (λ a b : object, byTimestamp a.2 b.2) (recentOnly thirtyDaysAgo objects))
    as HR.
  { unfold recentOnly at 1. rewrite HM. unfold I, compacted. simpl.
    rewrite (filter_jsSort _ _ asc_sortsBy), filter_app. f_equal.
    replace (filter _ (latestPerDate objects)) with (@nil object).
    - simpl. unfold recentOnly. by rewrite list_filter_filter_l.
    - symmetry. apply filter_nil_Forall, Forall_forall. intros x Hx [_ Hn]. apply Hn.
      apply list_elem_of_fmap. by exists x. }
  unfold compacted at 1. rewrite HM, HR.
  by rewrite (jsSort_app_sorted_r _ _ asc_sortsBy).
Qed.

Lemma compacted_NoDup dateMs (thirtyDaysAgo : Z) (objects : list object) :
  NoDup objects.*1 → NoDup (compacted dateMs thirtyDaysAgo objects).2.*1.
Proof.
  intros Hnd. unfold compacted. simpl. rewrite (jsSort_perm _ _), fmap_app.
  apply NoDup_app. split_and!.
  - by apply latestPerDate_NoDup_fst.
  - intros t Ht Hr. apply list_elem_of_fmap in Hr as (x & -> & Hx).
    apply recentOnly_elem in Hx as (_ & _ & Hn). done.
  - unfold recentOnly. by apply NoDup_filter_fst.
Qed.

(** *** Compaction of the history dictionary *)

#[local] Arguments optimizeEntry : simpl never.

Lemma optimizeEntry_idemp dateMs (thirtyDaysAgo : Z) (v : minerHistory) :
  optimizeEntry dateMs thirtyDaysAgo (optimizeEntry dateMs thirtyDaysAgo v) =
    optimizeEntry dateMs thirtyDaysAgo v.
Proof.
  destruct v as [daily intraday|entries]; [|done].
  rewrite optimizeEntry_compacted. rewrite optimizeEntry_compacted.
  set (objects := indexed 0 intraday).
  destruct (compacted_entries dateMs thirtyDaysAgo
              (compacted dateMs thirtyDaysAgo objects).2) as [H1 H2].
  { apply compacted_NoDup, indexed_NoDup. }
  rewrite H1, H2. by rewrite compacted_again.
Qed.

(** C4.  Compaction is idempotent: with the same window boundary, a second
    pass over a compacted history dictionary returns it unchanged, daily and
    intraday arrays alike. *)
Theorem optimizePriceHistory_idempotent (dateMs : string → Z) (thirtyDaysAgo : Z)
    (currentPriceHistory : gmap string minerHistory) :
  optimizePriceHistory dateMs thirtyDaysAgo
    (optimizePriceHistory dateMs thirtyDaysAgo currentPriceHistory) =
  optimizePriceHistory dateMs thirtyDaysAgo currentPriceHistory.
Proof.
  unfold optimizePriceHistory. rewrite <- map_fmap_compose.
  apply map_fmap_ext. intros n v _. apply optimizeEntry_idemp.
Qed.

Lemma NoDup_fmap_elem_inj {A B} (f : A → B) (l : list A) (x y : A) :
  NoDup (f <$> l) → x ∈ l → y ∈ l → f x = f y → x = y.
Proof.
  induction l as [|z l IH]; [by intros _ H%elem_of_nil|].
  rewrite fmap_cons. intros [Hz Hl]%NoDup_cons Hx Hy Heq.
  apply elem_of_cons in Hx as [->|Hx]; apply elem_of_cons in Hy as [->|Hy].
  - done.
  - exfalso. apply Hz. rewrite Heq. apply list_elem_of_fmap. by exists y.
  - exfalso. apply Hz. rewrite <- Heq. apply list_elem_of_fmap. by exists x.
  - by apply IH.
Qed.




(** ** The sample run *)

Lemma sample_first_step :
  actuallyUpdateData digitsKey initialState None "upload-1" 1704103200000
    sampleFirstBatch "prices-1.csv" "merge" "2024-01-01" = Some sampleAfterFirst.
Proof. vm_compute. reflexivity. Qed.

Lemma sample_second_step :
  actuallyUpdateData digitsKey sampleAfterFirst None "upload-2" 1704189600000
    sampleSecondBatch "prices-2.csv" "merge" "2024-01-02" = Some sampleAfterSecond.
Proof. vm_compute. reflexivity. Qed.

Lemma sample_ingests : ingests digitsKey initialState sampleAfterSecond.
Proof.
  eapply ingests_step; [|exact sample_second_step].
  eapply ingests_step; [|exact sample_first_step].
  apply ingests_refl.
Defined.

(** The first scenario of the specification: one record, one known name, a
    maximum price, no previous price, and an upload record whose snapshot
    has an empty list. *)
Example sample_first_upload :
  name <$> miners sampleAfterFirst = ["A"] ∧
  elements (knownMiners sampleAfterFirst) = ["A"] ∧
  maxPrices sampleAfterFirst !! "A" = Some 50%Q ∧
  previousPrices sampleAfterFirst !! "A" = None ∧
  (λ r, snapMiners <$> recSnapshot r) <$> uploadHistory sampleAfterFirst = [Some (Some [])].
Proof. vm_compute. by split_and!. Qed.

(** The second scenario: the overwritten price is remembered, the maximum
    follows, and both views of the history have two entries. *)
Example sample_second_upload :
  previousPrices sampleAfterSecond !! "A" = Some 50%Q ∧
  maxPrices sampleAfterSecond !! "A" = Some 60%Q ∧
  ∃ daily intraday,
    priceHistory sampleAfterSecond !! "A" = Some (History daily intraday) ∧
    (λ e, (hDate e, hPrice e)) <$> daily = [("2024-01-01", 50%Q); ("2024-01-02", 60%Q)] ∧
    length intraday = 2.
Proof. vm_compute. split_and!; [done..|]. eexists _, _. by split_and!. Qed.







Lemma daily_within_intraday_witness :
  ∃ daily intraday,
    History (newHistEntry <$> sampleFirstBatch ++ sampleSecondBatch)
            (newHistEntry <$> sampleFirstBatch ++ sampleSecondBatch)
      = History daily intraday ∧
    (∀ e, e ∈ daily → e ∈ intraday) ∧
    NoDup (hDate <$> daily) ∧
    (∀ e, e ∈ intraday → hDate e ∈ hDate <$> daily).
Proof.
  apply (daily_within_intraday digitsKey initialState sampleAfterSecond sample_ingests
           (or_introl eq_refl) "A").
  vm_compute. reflexivity.
Defined.


(** Compaction of the sample history: the older entry of the first day is
    outside the window and goes, the latest entry of each day stays. *)
Example sample_compaction :
  optimizePriceHistory digitsKey 1704150000000 sampleHistory !! "A" =
    Some (History
            [sampleEntry "2024-01-01" 1704110400000 52;
             sampleEntry "2024-01-02" 1704189600000 60]
            [sampleEntry "2024-01-01" 1704110400000 52;
             sampleEntry "2024-01-02" 1704189600000 60]).
Proof. vm_compute. reflexivity. Qed.

(** ** Further checks of the model on concrete inputs *)

(** The sort is stable: entries with equal timestamps keep their order. *)
Example jsSort_stable :
  hPrice <$> jsSort byTimestamp
    [sampleEntry "2024-01-02" 2000 1; sampleEntry "2024-01-01" 1000 2;
     sampleEntry "2024-01-03" 2000 3; sampleEntry "2024-01-04" 1000 4]
  = [2%Q; 4%Q; 1%Q; 3%Q].
Proof. reflexivity. Qed.

(** A second upload for the same day: the daily entry is replaced by the
    later one, the intraday array keeps both. *)
Example same_day_upload :
  (λ s, priceHistory s !! "A") <$>
    actuallyUpdateData digitsKey sampleAfterFirst None "upload-2" 1704110400000
      [sampleMiner "A" 100 52 "2024-01-01" 1704110400000] "prices-1b.csv" "merge"
      "2024-01-01"
  = Some (Some (History
       (newHistEntry <$> [sampleMiner "A" 100 52 "2024-01-01" 1704110400000])
       (newHistEntry <$> [sampleMiner "A" 100 50 "2024-01-01" 1704103200000;
                          sampleMiner "A" 100 52 "2024-01-01" 1704110400000]))).
Proof. vm_compute. reflexivity. Qed.

(** An update for a name whose history is still a flat array throws, and no
    state is produced. *)
Example legacy_history_throws :
  actuallyUpdateData digitsKey
    {| miners := []; priceHistory := {[ "A" := LegacyHistory sampleIntraday ]};
       knownMiners := ∅; newMinersLastUpload := ∅; minerSpecs := ∅;
       uploadHistory := []; maxPrices := ∅; previousPrices := ∅ |}
    None "upload-1" 1704103200000 sampleFirstBatch "prices-1.csv" "merge" "2024-01-01"
  = None.
Proof. vm_compute. reflexivity. Qed.

(** The third scenario of the specification: under ['replace'] a name the
    batch omits is previewed as removed and leaves the snapshot list, while
    its history, specs and known-name entry stay. *)
Example replace_omitting_a_name :
  let batch := [sampleMiner "B" 90 40 "2024-01-03" 1704276000000] in
  pvRemoved (generateUploadPreview batch (miners sampleAfterSecond) "replace") = ["A"] ∧
  ∃ s',
    actuallyUpdateData digitsKey sampleAfterSecond None "upload-3" 1704276000000
      batch "prices-3.csv" "replace" "2024-01-03" = Some s' ∧
    name <$> miners s' = ["B"] ∧
    priceHistory s' !! "A" = priceHistory sampleAfterSecond !! "A" ∧
    minerSpecs s' !! "A" = minerSpecs sampleAfterSecond !! "A" ∧
    elements (knownMiners s') = ["A"; "B"].
Proof.
  split; [vm_compute; reflexivity|].
  eexists. split; [vm_compute; reflexivity|]. vm_compute. by split_and!.
Qed.

(** A declined rollback and a rollback to an unknown id change nothing. *)
Example rollback_not_found :
  rollbackUpload sampleAfterSecond true "upload-9" = (SnapshotNotFound, sampleAfterSecond) ∧
  rollbackUpload sampleAfterSecond false "upload-1" = (Declined, sampleAfterSecond).
Proof. split; vm_compute; reflexivity. Qed.

(** Rounding of the displayed change: halves go away from zero. *)
Example toFixed1_rounds :
  toFixed1 (priceChange 60 50) = Finite (200 # 10) ∧
  toFixed1 (Finite (1 # 4)) = Finite (3 # 10) ∧
  toFixed1 (Finite (- 1 # 4)) = Finite (- 3 # 10) ∧
  toFixed1 (Finite (124 # 100)) = Finite (12 # 10).
Proof. vm_compute. by split_and!. Qed.

(** * Further properties *)

(** ** The preview lists *)

Lemma previewEntry_counts cur pv i nm n :
  previewCounts pv n → previewCounts (previewEntry cur pv i nm) (S n).
Proof.
  intros (Hsum & Hn & Hu & Hc & Hr). unfold previewEntry, previewCounts.
  destruct (negb (validMiner nm)); simpl.
  { rewrite length_app. simpl. split_and!; [lia|done..]. }
  destruct (List.find _ cur); simpl.
  - destruct (_ && _); simpl; rewrite length_app; simpl; split_and!; lia.
  - rewrite length_app. simpl. split_and!; lia.
Qed.

Lemma preview_rows_counts cur rows pv n :
  previewCounts pv n →
  previewCounts (fold_left (λ pv ie, previewEntry cur pv ie.1 ie.2) rows pv)
    (n + length rows).
Proof.
  revert pv n. induction rows as [|[i nm] rows IH]; intros pv n H; simpl.
  - by rewrite Nat.add_0_r.
  - replace (n + S (length rows))%nat with (S n + length rows)%nat by lia.
    apply IH. by apply previewEntry_counts.
Qed.

Lemma previewRemoved_counts batch pv ex n :
  previewCounts pv n → previewCounts (previewRemoved batch pv ex) n.
Proof.
  intros (Hsum & Hn & Hu & Hc & Hr). unfold previewRemoved, previewCounts.
  destruct (List.find _ batch); simpl; [done|].
  rewrite length_app. simpl. split_and!; lia.
Qed.

Lemma preview_removed_counts batch cur pv n :
  previewCounts pv n → previewCounts (fold_left (previewRemoved batch) cur pv) n.
Proof.
  revert pv. induction cur as [|ex cur IH]; intros pv H; simpl; [done|].
  apply IH. by apply previewRemoved_counts.
Qed.

Lemma indexed_snd' {A} (l : list A) (start : nat) : (indexed start l).*2 = l.
Proof.
  revert start. induction l as [|y l IH]; intros start; simpl; [done|]. by rewrite IH.
Qed.

Lemma indexed_length {A} (l : list A) (start : nat) : length (indexed start l) = length l.
Proof. revert start. induction l as [|x l IH]; intros start; simpl; [done|]. by rewrite IH. Qed.

(** X1.  Every row of the batch is classified exactly once: the new, updated,
    unchanged and error lists together have as many elements as the batch
    has rows, and the four counters of the summary are the lengths of their
    lists. *)
Theorem preview_partition (newMinerEntries currentMinersList : list miner)
    (currentMergeStrategy : string) :
  let pv := generateUploadPreview newMinerEntries currentMinersList currentMergeStrategy in
  (length (pvNew pv) + length (pvUpdated pv) + length (pvUnchanged pv)
     + length (pvErrors pv) = length newMinerEntries)%nat ∧
  newCount (pvSummary pv) = length (pvNew pv) ∧
  updatedCount (pvSummary pv) = length (pvUpdated pv) ∧
  unchangedCount (pvSummary pv) = length (pvUnchanged pv) ∧
  removedCount (pvSummary pv) = length (pvRemoved pv).
Proof.
  assert (previewCounts
            (fold_left (λ pv ie, previewEntry currentMinersList pv ie.1 ie.2)
               (indexed 0 newMinerEntries) emptyPreview) (length newMinerEntries)) as H.
  { rewrite <- (indexed_length newMinerEntries 0).
    apply (preview_rows_counts _ _ _ 0). by split_and!. }
  unfold generateUploadPreview.
  destruct (String.eqb currentMergeStrategy "replace"); [|exact H].
  by apply preview_removed_counts.
Qed.

Lemma previewEntry_lists cur pv i nm :
  let pv' := previewEntry cur pv i nm in
  pvErrors pv' = pvErrors pv ++ (if validMiner nm then [] else [errorMessage i nm]) ∧
  pvNew pv' = pvNew pv ++
    (if decide (validMiner nm = true ∧ name nm ∉ name <$> cur) then [nm] else []) ∧
  pvUnchanged pv' ++ (rowName <$> pvUpdated pv') ≡ₚ
    (pvUnchanged pv ++ (rowName <$> pvUpdated pv)) ++
    (if decide (validMiner nm = true ∧ name nm ∈ name <$> cur) then [name nm] else []) ∧
  pvWarnings pv' = pvWarnings pv.
Proof.
  unfold previewEntry. destruct (validMiner nm) eqn:Hv; simpl.
  - destruct (List.find _ cur) as [ex|] eqn:Hfind; simpl.
    + apply find_some in Hfind as [Hin Heq]. apply String.eqb_eq in Heq.
      assert (name nm ∈ name <$> cur) as Hmem.
      { rewrite <- Heq. apply list_elem_of_fmap. exists ex. split; [done|].
        by apply list_elem_of_In. }
      rewrite decide_False by tauto. rewrite decide_True by tauto.
      destruct (_ && _); simpl; rewrite ?app_nil_r; split_and!; try done.
      * rewrite <- !app_assoc. apply Permutation_app_head. apply Permutation_app_comm.
      * rewrite fmap_app. simpl. by rewrite app_assoc.
    + assert (name nm ∉ name <$> cur) as Hmem.
      { intros Hn. apply list_elem_of_fmap in Hn as (ex & Heq & Hin).
        apply list_elem_of_In in Hin. apply (find_none _ _ Hfind) in Hin. simpl in Hin.
        apply String.eqb_neq in Hin. congruence. }
      rewrite decide_True by tauto. rewrite decide_False by tauto.
      rewrite !app_nil_r. by split_and!.
  - rewrite ?app_nil_r. by split_and!.
Qed.

Lemma preview_rows_lists cur rows pv :
  let pv' := fold_left (λ pv ie, previewEntry cur pv ie.1 ie.2) rows pv in
  pvErrors pv' = pvErrors pv ++
    ((λ ie, errorMessage ie.1 ie.2) <$> filter (λ ie, validMiner ie.2 = false) rows) ∧
  pvNew pv' = pvNew pv ++
    filter (λ m, validMiner m = true ∧ name m ∉ name <$> cur) rows.*2 ∧
  pvUnchanged pv' ++ (rowName <$> pvUpdated pv') ≡ₚ
    (pvUnchanged pv ++ (rowName <$> pvUpdated pv)) ++
    (name <$> filter (λ m, validMiner m = true ∧ name m ∈ name <$> cur) rows.*2) ∧
  pvWarnings pv' = pvWarnings pv.
Proof.
  revert pv. induction rows as [|[i nm] rows IH]; intros pv.
  - simpl. rewrite !app_nil_r. by split_and!.
  - cbn [fold_left fst snd]. destruct (IH (previewEntry cur pv i nm)) as (He & Hn & Hu & Hw).
    destruct (previewEntry_lists cur pv i nm) as (He1 & Hn1 & Hu1 & Hw1).
    cbn zeta in *. rewrite fmap_cons, !filter_cons. cbn [snd fst].
    split_and!.
    + rewrite He, He1, <- app_assoc. f_equal.
      destruct (validMiner nm) eqn:Hv.
      * by rewrite decide_False by congruence.
      * by rewrite decide_True by done.
    + rewrite Hn, Hn1, <- app_assoc. f_equal.
      by destruct (decide (validMiner nm = true ∧ name nm ∉ name <$> cur)).
    + rewrite Hu, Hu1, <- app_assoc. apply Permutation_app_head.
      by destruct (decide (validMiner nm = true ∧ name nm ∈ name <$> cur)).
    + by rewrite Hw, Hw1.
Qed.

Lemma previewRemoved_lists batch pv ex :
  let pv' := previewRemoved batch pv ex in
  pvErrors pv' = pvErrors pv ∧ pvNew pv' = pvNew pv ∧
  pvUnchanged pv' = pvUnchanged pv ∧ pvUpdated pv' = pvUpdated pv ∧
  pvWarnings pv' = pvWarnings pv.
Proof. unfold previewRemoved. by destruct (List.find _ batch). Qed.

Lemma preview_removed_lists batch cur pv :
  let pv' := fold_left (previewRemoved batch) cur pv in
  pvErrors pv' = pvErrors pv ∧ pvNew pv' = pvNew pv ∧
  pvUnchanged pv' = pvUnchanged pv ∧ pvUpdated pv' = pvUpdated pv ∧
  pvWarnings pv' = pvWarnings pv.
Proof.
  revert pv. induction cur as [|ex cur IH]; intros pv; [done|].
  cbn [fold_left]. destruct (IH (previewRemoved batch pv ex)) as (H1 & H2 & H3 & H4 & H5).
  destruct (previewRemoved_lists batch pv ex) as (G1 & G2 & G3 & G4 & G5).
  cbn zeta in *. split_and!; congruence.
Qed.

(** What the lists of a preview hold. *)
Lemma preview_lists (batch cur : list miner) (strategy : string) :
  let pv := generateUploadPreview batch cur strategy in
  pvErrors pv =
    (λ ie, errorMessage ie.1 ie.2) <$>
      filter (λ ie, validMiner ie.2 = false) (indexed 0 batch) ∧
  pvNew pv = filter (λ m, validMiner m = true ∧ name m ∉ name <$> cur) batch ∧
  pvUnchanged pv ++ (rowName <$> pvUpdated pv) ≡ₚ
    name <$> filter (λ m, validMiner m = true ∧ name m ∈ name <$> cur) batch ∧
  pvWarnings pv = [].
Proof.
  pose proof (preview_rows_lists cur (indexed 0 batch) emptyPreview) as H.
  cbn zeta in H. rewrite indexed_snd' in H. simpl in H.
  unfold generateUploadPreview.
  destruct (String.eqb strategy "replace"); [|exact H].
  destruct (preview_removed_lists batch cur
              (fold_left (λ pv ie, previewEntry cur pv ie.1 ie.2) (indexed 0 batch)
                 emptyPreview)) as (H1 & H2 & H3 & H4 & H5).
  cbn zeta in *. rewrite H1, H2, H3, H4, H5. exact H.
Qed.

(** ** What an update writes *)

Lemma recordEntry_Some dateMs known (w w' : working) (entry : miner) :
  recordEntry dateMs known w entry = Some w' →
  ∃ daily intraday,
    (tempPriceHistory w !! name entry = Some (History daily intraday) ∨
     tempPriceHistory w !! name entry = None ∧ daily = [] ∧ intraday = []) ∧
    tempPriceHistory w' =
      <[name entry := updateHistory dateMs entry daily intraday]> (tempPriceHistory w) ∧
    tempKnownMiners w' = {[name entry]} ∪ tempKnownMiners w ∧
    tempMinerSpecs w' = <[name entry := specOf entry]> (tempMinerSpecs w) ∧
    countTrulyNewMiners w' =
      (if bool_decide (name entry ∈ known) then countTrulyNewMiners w
       else S (countTrulyNewMiners w)) ∧
    minersInThisUploadBatch w' = {[name entry]} ∪ minersInThisUploadBatch w.
Proof.
  unfold recordEntry.
  destruct (tempPriceHistory w !! name entry) as [[d i|l]|] eqn:E; [|done|].
  - intros [= <-]. exists d, i. simpl. split_and!; try done. by left.
  - intros [= <-]. exists [], []. simpl. split_and!; try done. by right.
Qed.

Lemma updateHistory_intraday dateMs (entry : miner) (daily intraday : list histEntry) :
  ∃ daily',
    updateHistory dateMs entry daily intraday =
      History daily' (jsSort byTimestamp (intraday ++ [newHistEntry entry])).
Proof. unfold updateHistory. destruct (reduce1 _ _); by eexists. Qed.

Lemma ts_sortsBy : sortsBy byTimestamp hTimestamp.
Proof. intros a b. unfold byTimestamp. lia. Qed.

Lemma union_swap (a b c : gset string) : b ∪ (a ∪ c) = (a ∪ b) ∪ c.
Proof. rewrite (comm_L (∪) a b). apply (assoc_L (∪)). Qed.

(** The first loop of the update, name by name and counter by counter. *)
Lemma forEachM_names dateMs known (batch : list miner) (w w' : working) :
  forEachM (recordEntry dateMs known) batch w = Some w' →
  tempKnownMiners w' = list_to_set (name <$> batch) ∪ tempKnownMiners w ∧
  minersInThisUploadBatch w' = list_to_set (name <$> batch) ∪ minersInThisUploadBatch w ∧
  countTrulyNewMiners w' =
    (countTrulyNewMiners w + length (filter (λ e, name e ∉ known) batch))%nat.
Proof.
  revert w. induction batch as [|e batch IH]; intros w; cbn [forEachM].
  { intros [= <-]. simpl. rewrite !(left_id_L ∅ (∪)). split_and!; [done..|lia]. }
  destruct (recordEntry dateMs known w e) as [w1|] eqn:E; [|done].
  intros Hrun. destruct (IH w1 Hrun) as (Hk & Hb & Hc).
  apply recordEntry_Some in E as (d & i & _ & _ & Hk1 & _ & Hc1 & Hb1).
  rewrite Hk, Hb, Hc, Hk1, Hb1, Hc1, fmap_cons. cbn [list_to_set].
  split_and!; [apply union_swap..|].
  destruct (decide (name e ∈ known)) as [Hin|Hin].
  - rewrite bool_decide_eq_true_2 by done. rewrite filter_cons_False by tauto. done.
  - rewrite bool_decide_eq_false_2 by done. rewrite filter_cons_True by done.
    simpl. lia.
Qed.

Lemma forEachM_specs dateMs known (batch : list miner) (w w' : working) (n : string) :
  forEachM (recordEntry dateMs known) batch w = Some w' →
  tempMinerSpecs w' !! n =
    match last (filter (λ e, name e = n) batch) with
    | Some e => Some (specOf e)
    | None => tempMinerSpecs w !! n
    end.
Proof.
  revert w. induction batch as [|e batch IH]; intros w; cbn [forEachM].
  { by intros [= <-]. }
  destruct (recordEntry dateMs known w e) as [w1|] eqn:E; [|done].
  intros Hrun. rewrite (IH w1 Hrun).
  apply recordEntry_Some in E as (d & i & _ & _ & _ & Hs1 & _).
  destruct (decide (name e = n)) as [Hn|Hn].
  - rewrite filter_cons_True by done. rewrite last_cons.
    destruct (last _); [done|]. rewrite Hs1, <- Hn. apply lookup_insert_eq.
  - rewrite filter_cons_False by done.
    destruct (last _); [done|]. rewrite Hs1. by apply lookup_insert_ne.
Qed.

Lemma forEachM_history dateMs known (batch : list miner) (w w' : working) (n : string) :
  forEachM (recordEntry dateMs known) batch w = Some w' →
  match filter (λ e, name e = n) batch with
  | [] => tempPriceHistory w' !! n = tempPriceHistory w !! n
  | rows =>
      ∃ daily intraday,
        tempPriceHistory w' !! n = Some (History daily intraday) ∧
        intraday ≡ₚ intradayOf (tempPriceHistory w !! n) ++ (newHistEntry <$> rows) ∧
        StronglySorted (λ a b, (hTimestamp a ≤ hTimestamp b)%Z) intraday
  end.
Proof.
  revert w. induction batch as [|e batch IH]; intros w; cbn [forEachM].
  { by intros [= <-]. }
  destruct (recordEntry dateMs known w e) as [w1|] eqn:E; [|done].
  intros Hrun. specialize (IH w1 Hrun).
  apply recordEntry_Some in E as (d & i & Hold & Hh1 & _).
  destruct (decide (name e = n)) as [Hn|Hn].
  - rewrite filter_cons_True by done. subst n.
    destruct (updateHistory_intraday dateMs e d i) as (d1 & Hupd).
    assert (tempPriceHistory w1 !! name e =
              Some (History d1 (jsSort byTimestamp (i ++ [newHistEntry e])))) as Hlook.
    { rewrite Hh1, lookup_insert_eq. by rewrite Hupd. }
    assert (intradayOf (tempPriceHistory w !! name e) = i) as Hi.
    { destruct Hold as [->|(-> & _ & ->)]; done. }
    rewrite Hi. rewrite Hlook in IH.
    destruct (filter (λ e0, name e0 = name e) batch) as [|x l].
    + exists d1, (jsSort byTimestamp (i ++ [newHistEntry e])).
      split_and!; [by rewrite IH| |].
      * simpl. apply jsSort_perm.
      * eapply jsSort_sorted. apply ts_sortsBy.
    + destruct IH as (d' & i' & Hl & Hp & Hs). exists d', i'. split_and!; [done| |done].
      rewrite Hp. simpl. rewrite (jsSort_perm _ _).
      rewrite <- app_assoc. done.
  - rewrite filter_cons_False by done.
    assert (tempPriceHistory w1 !! n = tempPriceHistory w !! n) as Hlook.
    { rewrite Hh1. by apply lookup_insert_ne. }
    by rewrite Hlook in IH.
Qed.

(** ** Previous prices and the rows of other names *)

Lemma findByName_first n (before after : list miner) (x : miner) :
  Forall (λ m, name m ≠ n) before → name x = n →
  findByName n (before ++ x :: after) = Some x.
Proof.
  intros Hb Hx. unfold findByName. induction Hb as [|y before Hy Hb IH]; simpl.
  - apply String.eqb_eq in Hx. by rewrite Hx.
  - apply String.eqb_neq in Hy. by rewrite Hy.
Qed.

Lemma findByName_absent n (l : list miner) :
  Forall (λ m, name m ≠ n) l → findByName n l = None.
Proof.
  intros Hl. unfold findByName. induction Hl as [|y l Hy Hl IH]; simpl; [done|].
  apply String.eqb_neq in Hy. by rewrite Hy.
Qed.

Lemma findByName_app n (l1 l2 : list miner) :
  findByName n (l1 ++ l2) =
    match findByName n l1 with Some x => Some x | None => findByName n l2 end.
Proof.
  unfold findByName. induction l1 as [|y l1 IH]; simpl; [done|].
  by destruct (String.eqb (name y) n).
Qed.

Lemma findByName_cons_ne n (x : miner) (l : list miner) :
  name x ≠ n → findByName n (x :: l) = findByName n l.
Proof. intros H. unfold findByName. simpl. apply String.eqb_neq in H. by rewrite H. Qed.

Lemma findByName_Some n (l : list miner) (x : miner) :
  findByName n l = Some x → x ∈ l ∧ name x = n.
Proof.
  intros H. apply find_some in H as [Hin Heq]. apply String.eqb_eq in Heq.
  split; [by apply list_elem_of_In|done].
Qed.

Lemma findByName_None n (l : list miner) :
  findByName n l = None ↔ n ∉ name <$> l.
Proof.
  split.
  - intros H Hn. apply list_elem_of_fmap in Hn as (x & -> & Hx).
    apply list_elem_of_In in Hx. apply (find_none _ _ H) in Hx. simpl in Hx.
    by apply String.eqb_neq in Hx.
  - intros H. apply findByName_absent. apply Forall_forall. intros x Hx Heq.
    apply H. apply list_elem_of_fmap. by exists x.
Qed.

(** One ['merge'] step, seen from the name of its row. *)
Lemma mergeStep_same (merged : list miner) (prev : gmap string Q) (r : miner) :
  (mergeStep (merged, prev) r).2 !! name r = price <$> findByName (name r) merged ∧
  price <$> findByName (name r) (mergeStep (merged, prev) r).1 = Some (price r).
Proof.
  destruct (mergeStep_cases merged r) as [Hnew|(before & old & after & -> & Hb & Hold)].
  - rewrite mergeStep_new by done. cbn [fst snd].
    rewrite lookup_delete_eq, findByName_absent by done. split; [done|].
    rewrite findByName_app, findByName_absent by done.
    unfold findByName. simpl. by rewrite String.eqb_refl.
  - rewrite mergeStep_overwrite by done. cbn [fst snd].
    rewrite lookup_insert_eq, !findByName_first by done. done.
Qed.

(** One ['merge'] step, seen from another name. *)
Lemma mergeStep_other (merged : list miner) (prev : gmap string Q) (r : miner) (n : string) :
  name r ≠ n →
  (mergeStep (merged, prev) r).2 !! n = prev !! n ∧
  findByName n (mergeStep (merged, prev) r).1 = findByName n merged ∧
  filter (λ m, name m = n) (mergeStep (merged, prev) r).1 =
    filter (λ m, name m = n) merged.
Proof.
  intros Hne.
  destruct (mergeStep_cases merged r) as [Hnew|(before & old & after & -> & Hb & Hold)].
  - rewrite mergeStep_new by done. cbn [fst snd].
    rewrite lookup_delete_ne by done. split_and!; [done| |].
    + rewrite findByName_app. destruct (findByName n merged); [done|].
      by apply findByName_cons_ne.
    + rewrite filter_app, filter_cons_False, filter_nil, app_nil_r by done. done.
  - rewrite mergeStep_overwrite by done. cbn [fst snd].
    rewrite lookup_insert_ne by done. split_and!; [done| |].
    + rewrite !findByName_app. destruct (findByName n before); [done|].
      rewrite !findByName_cons_ne; [done|congruence|done].
    + rewrite !filter_app, !filter_cons_False; [done|congruence|done].
Qed.

Lemma reverse_lookup_1 {A} (x : A) (l front : list A) :
  l ≠ [] → reverse (front ++ x :: l) !! 1 = reverse (x :: l) !! 1.
Proof.
  intros Hl. rewrite reverse_app, !reverse_cons.
  assert (1 < length (reverse l ++ [x])) as Hlen.
  { rewrite length_app, length_reverse. simpl. destruct l; [done|simpl; lia]. }
  rewrite <- app_assoc. rewrite (app_assoc (reverse l) [x]).
  by rewrite lookup_app_l.
Qed.

(** The previous price a ['merge'] leaves for a name: the price of the row
    before the last in the sequence made of the record the list had for
    the name and the rows of the batch with that name. *)
Lemma merge_fold_prev (n : string) (batch merged : list miner) (prev : gmap string Q) :
  (fold_left mergeStep batch (merged, prev)).2 !! n =
    match filter (λ e, name e = n) batch with
    | [] => prev !! n
    | rows =>
        reverse (option_list (price <$> findByName n merged) ++ (price <$> rows)) !! 1
    end.
Proof.
  revert merged prev. induction batch as [|r batch IH]; intros merged prev; [done|].
  cbn [fold_left].
  destruct (mergeStep (merged, prev) r) as [merged1 prev1] eqn:E. rewrite IH.
  destruct (decide (name r = n)) as [Hn|Hn].
  - rewrite filter_cons_True by done. subst n.
    destruct (mergeStep_same merged prev r) as [Hp Hf]. rewrite E in Hp, Hf.
    cbn [fst snd] in Hp, Hf. rewrite Hf.
    destruct (filter (λ e, name e = name r) batch) as [|x l].
    + rewrite Hp. simpl. rewrite reverse_app. simpl.
      by destruct (price <$> findByName (name r) merged).
    + rewrite !fmap_cons. cbn [option_list app].
      by rewrite (reverse_lookup_1 (price r) _ (option_list _)).
  - rewrite filter_cons_False by done.
    destruct (mergeStep_other merged prev r n Hn) as (Hp & Hf & _).
    rewrite E in Hp, Hf. cbn [fst snd] in Hp, Hf. by rewrite Hp, Hf.
Qed.


(** The previous price a ['replace'] leaves for a name of the batch: the
    price the list of the state had for it. *)
Lemma replace_fold_prev (n : string) (oldMiners batch acc : list miner)
    (prev : gmap string Q) :
  (fold_left (replaceStep oldMiners) batch (acc, prev)).2 !! n =
    match filter (λ e, name e = n) batch with
    | [] => prev !! n
    | _ => price <$> findByName n oldMiners
    end.
Proof.
  revert acc prev. induction batch as [|r batch IH]; intros acc prev; [done|].
  cbn [fold_left].
  destruct (replaceStep oldMiners (acc, prev) r) as [acc1 prev1] eqn:E. rewrite IH.
  assert (prev1 !! n = if decide (name r = n) then price <$> findByName n oldMiners
                       else prev !! n) as Hp.
  { unfold replaceStep in E. fold (findByName (name r) oldMiners) in E.
    destruct (decide (name r = n)) as [<-|Hn];
      destruct (findByName (name r) oldMiners); inversion E; subst;
      by rewrite ?lookup_insert_eq, ?lookup_delete_eq, ?lookup_insert_ne,
                 ?lookup_delete_ne by done. }
  destruct (decide (name r = n)) as [Hn|Hn].
  - rewrite filter_cons_True by done. by destruct (filter _ batch).
  - rewrite filter_cons_False by done. by rewrite Hp.
Qed.

Lemma appendStep_mergeStep acc r : appendStep acc r = mergeStep acc r.
Proof. done. Qed.

Lemma applyStrategy_cases (strategy : string) (oldMiners : list miner)
    (prev : gmap string Q) (batch : list miner) :
  (strategy = "replace" ∧
   applyStrategy strategy oldMiners prev batch =
     fold_left (replaceStep oldMiners) batch ([], prev)) ∨
  ((strategy = "merge" ∨ strategy = "append") ∧
   applyStrategy strategy oldMiners prev batch =
     fold_left mergeStep batch (oldMiners, prev)) ∨
  (strategy ≠ "replace" ∧ strategy ≠ "merge" ∧ strategy ≠ "append" ∧
   applyStrategy strategy oldMiners prev batch = (oldMiners, prev)).
Proof.
  unfold applyStrategy.
  destruct (String.eqb strategy "replace") eqn:E1.
  { apply String.eqb_eq in E1. left. by split. }
  destruct (String.eqb strategy "merge") eqn:E2.
  { apply String.eqb_eq in E2. right. left. split; [by left|done]. }
  destruct (String.eqb strategy "append") eqn:E3.
  { apply String.eqb_eq in E3. right. left. split; [by right|done]. }
  apply String.eqb_neq in E1, E2, E3. right. right. by split_and!.
Qed.

Lemma filter_name_nil (n : string) (batch : list miner) :
  filter (λ e, name e = n) batch = [] ↔ n ∉ name <$> batch.
Proof.
  split.
  - intros H Hn. apply list_elem_of_fmap in Hn as (x & -> & Hx).
    assert (x ∈ filter (λ e, name e = name x) batch) as Hin
      by by apply list_elem_of_filter.
    rewrite H in Hin. by apply elem_of_nil in Hin.
  - intros H. apply filter_nil_Forall, Forall_forall. intros x Hx Heq.
    apply H. apply list_elem_of_fmap. by exists x.
Qed.

Lemma actuallyUpdateData_Some dateMs s pv freshId now batch fileName strategy dataDate s' :
  actuallyUpdateData dateMs s pv freshId now batch fileName strategy dataDate = Some s' →
  ∃ w,
    forEachM (recordEntry dateMs (elements (knownMiners s))) batch
      {| tempPriceHistory := priceHistory s; tempKnownMiners := knownMiners s;
         tempMinerSpecs := minerSpecs s; tempMaxPrices := maxPrices s;
         countTrulyNewMiners := 0; minersInThisUploadBatch := ∅ |} = Some w ∧
    miners s' = (applyStrategy strategy (miners s) (previousPrices s) batch).1 ∧
    previousPrices s' = (applyStrategy strategy (miners s) (previousPrices s) batch).2 ∧
    priceHistory s' = tempPriceHistory w ∧
    knownMiners s' = tempKnownMiners w ∧
    newMinersLastUpload s' = minersInThisUploadBatch w ∧
    minerSpecs s' = tempMinerSpecs w ∧
    maxPrices s' = tempMaxPrices w ∧
    uploadHistory s' = uploadHistory s ++
      [{| recId := freshId; recDate := dataDate; recTimestamp := now;
          recFileName := fileName; recMinerCount := length batch;
          recNewMinerCount := countTrulyNewMiners w;
          recUpdatedCount :=
            match pv with Some p => updatedCount (pvSummary p) | None => 0 end;
          recStrategy := strategy; recSnapshot := Some (snapshotOf s) |}].
Proof.
  unfold actuallyUpdateData. destruct (forEachM _ batch _) as [w|]; [|done].
  intros [= <-]. exists w. by split_and!.
Qed.

(** X3.  The bookkeeping of an update: the known names grow by the names of
    the batch, the names highlighted as the last upload are exactly those of
    the batch, and one record is appended, which counts the rows of the
    batch and, as new, the rows whose name was not known before the update
    (a new name carried by two rows counts twice), and holds the snapshot of
    the state the update started from. *)
Theorem update_bookkeeping dateMs s pv freshId now batch fileName strategy dataDate s' :
  actuallyUpdateData dateMs s pv freshId now batch fileName strategy dataDate = Some s' →
  knownMiners s' = list_to_set (name <$> batch) ∪ knownMiners s ∧
  newMinersLastUpload s' = list_to_set (name <$> batch) ∧
  uploadHistory s' = uploadHistory s ++
    [{| recId := freshId; recDate := dataDate; recTimestamp := now;
        recFileName := fileName; recMinerCount := length batch;
        recNewMinerCount := length (filter (λ e, name e ∉ knownMiners s) batch);
        recUpdatedCount :=
          match pv with Some p => updatedCount (pvSummary p) | None => 0 end;
        recStrategy := strategy; recSnapshot := Some (snapshotOf s) |}].
Proof.
  intros Hrun.
  apply actuallyUpdateData_Some in Hrun
    as (w & Hw & _ & _ & _ & Hk & Hl & _ & _ & Hu).
  apply forEachM_names in Hw as (Hk' & Hl' & Hc). cbn in Hk', Hl', Hc.
  assert (filter (λ e, name e ∉ elements (knownMiners s)) batch =
          filter (λ e, name e ∉ knownMiners s) batch) as Hf.
  { apply filter_ext_Forall, Forall_forall. intros e _. by rewrite elem_of_elements. }
  rewrite Hf in Hc.
  by rewrite Hk, Hl, Hu, Hk', Hl', Hc, (right_id_L ∅ (∪)).
Qed.

Lemma update_bookkeeping_witness :
  knownMiners sampleAfterSecond =
    list_to_set (name <$> sampleSecondBatch) ∪ knownMiners sampleAfterFirst ∧
  newMinersLastUpload sampleAfterSecond = list_to_set (name <$> sampleSecondBatch) ∧
  uploadHistory sampleAfterSecond = uploadHistory sampleAfterFirst ++
    [{| recId := "upload-2"; recDate := "2024-01-02"; recTimestamp := 1704189600000;
        recFileName := "prices-2.csv"; recMinerCount := length sampleSecondBatch;
        recNewMinerCount :=
          length (filter (λ e, name e ∉ knownMiners sampleAfterFirst) sampleSecondBatch);
        recUpdatedCount := 0;
        recStrategy := "merge"; recSnapshot := Some (snapshotOf sampleAfterFirst) |}].
Proof. exact (update_bookkeeping _ _ None _ _ _ _ _ _ _ sample_second_step). Defined.



(** X5.  An update records every row of its batch: for a name the batch
    carries, the intraday array afterwards holds the entries it held before
    (none for a name without history) and one entry for each row with that
    name, sorted by timestamp, and the specs of the name are those of its
    last row. *)
Theorem update_records_rows dateMs s pv freshId now batch fileName strategy dataDate s'
    (n : string) :
  actuallyUpdateData dateMs s pv freshId now batch fileName strategy dataDate = Some s' →
  n ∈ name <$> batch →
  ∃ daily intraday,
    priceHistory s' !! n = Some (History daily intraday) ∧
    intraday ≡ₚ intradayOf (priceHistory s !! n) ++
                (newHistEntry <$> filter (λ e, name e = n) batch) ∧
    StronglySorted (λ a b, (hTimestamp a ≤ hTimestamp b)%Z) intraday ∧
    minerSpecs s' !! n = specOf <$> last (filter (λ e, name e = n) batch).
Proof.
  intros Hrun Hn.
  assert (filter (λ e, name e = n) batch ≠ []) as Hrows
    by (intros H%filter_name_nil; by apply H).
  apply actuallyUpdateData_Some in Hrun as (w & Hw & _ & _ & Hh & _ & _ & Hs & _).
  pose proof (forEachM_history _ _ _ _ _ n Hw) as Hh'.
  pose proof (forEachM_specs _ _ _ _ _ n Hw) as Hs'.
  rewrite Hh, Hs, Hs'. cbn in Hh'.
  destruct (filter (λ e, name e = n) batch) as [|x l] eqn:Hf; [done|].
  destruct Hh' as (d & i & Hl & Hp & Hsorted). exists d, i. split_and!; [done..|].
  destruct (last (x :: l)) eqn:Hlast; [done|].
  by apply last_None in Hlast.
Qed.

Lemma update_records_rows_witness :
  ∃ daily intraday,
    priceHistory sampleAfterSecond !! "A" = Some (History daily intraday) ∧
    intraday ≡ₚ intradayOf (priceHistory sampleAfterFirst !! "A") ++
                (newHistEntry <$> filter (λ e, name e = "A") sampleSecondBatch) ∧
    StronglySorted (λ a b, (hTimestamp a ≤ hTimestamp b)%Z) intraday ∧
    minerSpecs sampleAfterSecond !! "A" =
      specOf <$> last (filter (λ e, name e = "A") sampleSecondBatch).
Proof.
  apply (update_records_rows _ _ _ _ _ _ _ _ _ _ "A" sample_second_step).
  apply (bool_decide_unpack _). vm_compute. exact I.
Defined.

(** X6.  The previous price an update leaves for a name of its batch.
    Under ['replace'] it is the price of the record the snapshot list had
    for the name before the update, and none if it had no such record.
    Under ['merge'] and ['append'] it is the price that stood in the record
    when the last row with that name was applied: the price of the record
    the list had, or, when the batch carries the name more than once, the
    price of the row before the last.  Under any other strategy the
    previous prices are not touched. *)
Theorem update_previous_price dateMs s pv freshId now batch fileName strategy dataDate s'
    (n : string) :
  actuallyUpdateData dateMs s pv freshId now batch fileName strategy dataDate = Some s' →
  n ∈ name <$> batch →
  previousPrices s' !! n =
    if String.eqb strategy "replace" then price <$> findByName n (miners s)
    else if String.eqb strategy "merge" || String.eqb strategy "append" then
      reverse (option_list (price <$> findByName n (miners s)) ++
               (price <$> filter (λ e, name e = n) batch)) !! 1
    else previousPrices s !! n.
Proof.
  intros Hrun Hn.
  assert (filter (λ e, name e = n) batch ≠ []) as Hrows
    by (intros H%filter_name_nil; by apply H).
  apply actuallyUpdateData_Some in Hrun as (w & _ & _ & -> & _).
  destruct (applyStrategy_cases strategy (miners s) (previousPrices s) batch)
    as [[-> ->]|[[Hs0 ->]|(H1 & H2 & H3 & ->)]].
  - rewrite replace_fold_prev. simpl. by destruct (filter _ batch).
  - rewrite merge_fold_prev.
    destruct Hs0 as [-> | ->]; simpl; by destruct (filter _ batch).
  - apply String.eqb_neq in H1, H2, H3. by rewrite H1, H2, H3.
Qed.

Lemma update_previous_price_witness :
  previousPrices sampleAfterSecond !! "A" =
    reverse (option_list (price <$> findByName "A" (miners sampleAfterFirst)) ++
             (price <$> filter (λ e, name e = "A") sampleSecondBatch)) !! 1.
Proof.
  apply (update_previous_price _ _ _ _ _ _ _ _ _ _ "A" sample_second_step).
  apply (bool_decide_unpack _). vm_compute. exact I.
Defined.

(** ** Rollback across several uploads *)


Lemma rollbackUpload_uploadHistory (s : state) (confirmed : bool) (id : string) :
  uploadHistory (rollbackUpload s confirmed id).2 = uploadHistory s.
Proof.
  unfold rollbackUpload. destruct (List.find _ _) as [u|]; [|done].
  destruct (recSnapshot u); [|done]. by destruct confirmed.
Qed.



(** X8.  Of two rollbacks in a row the second alone decides: because a
    rollback keeps every upload record, a rollback that succeeds on a state
    gives the same state when another rollback, to whatever record and
    accepted or declined, came before it.  In particular a rollback is
    undone by rolling back to the record of the following upload. *)
Theorem rollback_last_wins (s : state) (confirmed : bool) (id1 id2 : string) :
  (rollbackUpload s true id2).1 = RolledBack →
  rollbackUpload (rollbackUpload s confirmed id1).2 true id2 = rollbackUpload s true id2.
Proof.
  intros Hok.
  pose proof (rollbackUpload_uploadHistory s confirmed id1) as Hh.
  destruct (List.find (λ v, String.eqb (recId v) id2) (uploadHistory s)) as [u|] eqn:Hfind.
  - destruct (recSnapshot u) as [snap|] eqn:Hsnap.
    + rewrite (rollbackUpload_found s true id2 u snap Hfind Hsnap).
      rewrite <- Hh in Hfind.
      rewrite (rollbackUpload_found _ true id2 u snap Hfind Hsnap). by rewrite Hh.
    + by rewrite (rollbackUpload_no_snapshot s true id2 u Hfind Hsnap) in Hok.
  - by rewrite (rollbackUpload_absent s true id2 Hfind) in Hok.
Qed.

Lemma rollback_last_wins_witness :
  rollbackUpload (rollbackUpload sampleAfterSecond true "upload-1").2 true "upload-2" =
    rollbackUpload sampleAfterSecond true "upload-2".
Proof. apply rollback_last_wins. vm_compute. reflexivity. Defined.

(** ** Properties kept by every operation *)

Lemma laterOf_fold_max (l : list histEntry) (x y : histEntry) :
  y ∈ x :: l → (hTimestamp y ≤ hTimestamp (fold_left laterOf l x))%Z.
Proof.
  revert x y. induction l as [|z l IH]; intros x y Hy; simpl.
  - apply list_elem_of_singleton in Hy. subst. lia.
  - assert (hTimestamp x ≤ hTimestamp (laterOf x z) ∧
            hTimestamp z ≤ hTimestamp (laterOf x z))%Z as [Hx Hz].
    { unfold laterOf. destruct (hTimestamp x <? hTimestamp z)%Z eqn:E; lia. }
    apply elem_of_cons in Hy as [->|Hy].
    + etrans; [exact Hx|]. apply IH. apply elem_of_cons. by left.
    + apply elem_of_cons in Hy as [->|Hy].
      * etrans; [exact Hz|]. apply IH. apply elem_of_cons. by left.
      * apply IH. apply elem_of_cons. by right.
Qed.

Lemma reduce1_laterOf_max (l : list histEntry) (x : histEntry) :
  x ∈ l →
  ∃ e, reduce1 laterOf l = Some e ∧ e ∈ l ∧
       ∀ y, y ∈ l → (hTimestamp y ≤ hTimestamp e)%Z.
Proof.
  destruct l as [|z l]; [by intros H%elem_of_nil|]. intros _.
  eexists. split; [done|]. split; [apply laterOf_fold_elem|].
  intros y Hy. by apply laterOf_fold_max.
Qed.

(** Phase 1 keeps the daily entries the latest of their dates. *)
Lemma updateHistory_latest dateMs (entry : miner) (daily intraday : list histEntry) :
  dailyWithinIntraday daily intraday → dailyLatest daily intraday →
  ∃ daily' intraday',
    updateHistory dateMs entry daily intraday = History daily' intraday' ∧
    dailyLatest daily' intraday'.
Proof.
  intros (Hsub & Hnd & Hcov) Hlatest. unfold updateHistory.
  set (intraday' := jsSort byTimestamp (intraday ++ [newHistEntry entry])).
  assert (∀ e, e ∈ intraday' ↔ e ∈ intraday ∨ e = newHistEntry entry) as Hin.
  { intros e. unfold intraday'.
    by rewrite elem_of_jsSort, elem_of_app, list_elem_of_singleton. }
  destruct (reduce1_laterOf_max (filter (λ h, hDate h = date entry) intraday')
              (newHistEntry entry)) as (latest & -> & Hl & Hmax).
  { apply list_elem_of_filter. split; [done|]. apply Hin. by right. }
  apply list_elem_of_filter in Hl as [Hdate Hl].
  eexists _, intraday'. split; [done|].
  assert (∀ e, e ∈ intraday' → hDate e = hDate latest →
               (hTimestamp e ≤ hTimestamp latest)%Z) as Hnew.
  { intros e He Hd. apply Hmax. apply list_elem_of_filter. split; [congruence|done]. }
  assert (∀ d e, d ∈ daily → hDate d ≠ date entry → e ∈ intraday' →
                 hDate e = hDate d → (hTimestamp e ≤ hTimestamp d)%Z) as Hother.
  { intros d e Hd Hne He Heq. apply Hin in He as [He| ->].
    - by apply (Hlatest d e).
    - simpl in Heq. congruence. }
  set (p := λ d : histEntry, String.eqb (hDate d) (date entry)).
  destruct (findIndex p daily) as [idx|] eqn:Hidx.
  - apply findIndex_Some in Hidx as (before & old & after & -> & <- & Hold & _).
    apply String.eqb_eq in Hold.
    replace (length before) with (length before + 0) by lia.
    rewrite insert_app_r. simpl.
    rewrite fmap_app, fmap_cons in Hnd.
    apply NoDup_app in Hnd as (Hnb & Hdisj & Hna).
    apply NoDup_cons in Hna as [Hold_after Hna].
    intros d e Hd He Heq. apply elem_of_jsSort in Hd.
    apply elem_of_app in Hd as [Hd|Hd].
    + apply (Hother d e); [apply elem_of_app; by left| |done..].
      intros Hd'. apply (Hdisj (hDate d)).
      * apply list_elem_of_fmap. by exists d.
      * rewrite Hd', <- Hold. apply elem_of_cons. by left.
    + apply elem_of_cons in Hd as [->|Hd]; [by apply Hnew|].
      apply (Hother d e); [apply elem_of_app; right; apply elem_of_cons; by right| |done..].
      intros Hd'. apply Hold_after. rewrite Hold, <- Hd'.
      apply list_elem_of_fmap. by exists d.
  - apply findIndex_None in Hidx.
    intros d e Hd He Heq. apply elem_of_jsSort in Hd.
    apply elem_of_app in Hd as [Hd|Hd].
    + apply (Hother d e); [done| |done..].
      rewrite Forall_forall in Hidx. apply Hidx in Hd. unfold p in Hd.
      by apply String.eqb_neq in Hd.
    + apply list_elem_of_singleton in Hd as ->. by apply Hnew.
Qed.

Lemma recordEntry_views dateMs known (w w' : working) (entry : miner) :
  viewsAgree (tempPriceHistory w) →
  recordEntry dateMs known w entry = Some w' →
  viewsAgree (tempPriceHistory w').
Proof.
  intros Hinv Hrun.
  apply recordEntry_Some in Hrun as (d & i & Hold & -> & _).
  assert (dailyWithinIntraday d i ∧ dailyLatest d i) as [Hdi Hl].
  { destruct Hold as [Hold|(_ & -> & ->)].
    - apply Hinv in Hold as (d' & i' & [= <- <-] & H). exact H.
    - split; [apply dailyWithinIntraday_nil|]. by intros x e Hx%elem_of_nil. }
  intros n v. destruct (decide (name entry = n)) as [<-|Hne].
  - rewrite lookup_insert_eq. intros [= <-].
    destruct (updateHistory_invariant dateMs entry d i Hdi) as (d1 & i1 & H1 & Hdi1).
    destruct (updateHistory_latest dateMs entry d i Hdi Hl) as (d2 & i2 & H2 & Hl2).
    rewrite H1 in H2. inversion H2; subst. by exists d2, i2.
  - rewrite lookup_insert_ne by done. apply Hinv.
Qed.

Lemma actuallyUpdateData_views dateMs s pv freshId now batch fileName strategy
    dataDate s' :
  viewsAgree (priceHistory s) →
  actuallyUpdateData dateMs s pv freshId now batch fileName strategy dataDate = Some s' →
  viewsAgree (priceHistory s').
Proof.
  intros Hinv Hrun. apply actuallyUpdateData_Some in Hrun as (w & Hw & _ & _ & -> & _).
  revert Hw. generalize (elements (knownMiners s)). intros known.
  set (w0 := {| tempPriceHistory := priceHistory s |}).
  assert (viewsAgree (tempPriceHistory w0)) as H0 by done.
  clearbody w0. revert w0 H0. induction batch as [|e batch IH]; intros w0 H0; cbn [forEachM].
  - by intros [= <-].
  - destruct (recordEntry dateMs known w0 e) as [w1|] eqn:E; [|done].
    apply IH. by eapply recordEntry_views.
Qed.

(** Compaction rebuilds the two views so that they agree, whatever the
    daily array was. *)
Lemma optimizeEntry_views dateMs thirtyDaysAgo (daily intraday : list histEntry) :
  ∃ daily' intraday',
    optimizeEntry dateMs thirtyDaysAgo (History daily intraday) =
      History daily' intraday' ∧
    dailyWithinIntraday daily' intraday' ∧ dailyLatest daily' intraday'.
Proof.
  rewrite optimizeEntry_compacted. eexists _, _. split; [done|].
  unfold compacted. cbn [fst snd].
  set (objects := indexed 0 intraday).
  assert (∀ e, e ∈ (jsSort (λ a b : object, byDate dateMs a.2 b.2)
                      (latestPerDate objects)).*2 ↔
               ∃ m, m ∈ latestPerDate objects ∧ e = m.2) as Hd.
  { intros e. rewrite list_elem_of_fmap. split.
    - intros (m & -> & Hm). apply elem_of_jsSort in Hm. by exists m.
    - intros (m & Hm & ->). exists m. split; [done|]. by apply elem_of_jsSort. }
  assert (∀ e, e ∈ (jsSort (λ a b : object, byTimestamp a.2 b.2)
                      (latestPerDate objects ++ recentOnly thirtyDaysAgo objects)).*2 →
               ∃ x, x ∈ objects ∧ e = x.2) as Hi.
  { intros e (x & -> & Hx)%list_elem_of_fmap. apply elem_of_jsSort in Hx.
    exists x. split; [|done]. apply elem_of_app in Hx as [Hx|Hx].
    - by apply latestPerDate_subset.
    - by apply recentOnly_elem in Hx as [Hx _]. }
  split; [split_and!|].
  - intros e (m & Hm & ->)%Hd. apply list_elem_of_fmap. exists m. split; [done|].
    apply elem_of_jsSort. apply elem_of_app. by left.
  - rewrite <- list_fmap_compose. rewrite (jsSort_perm _ _).
    apply latestPerDate_NoDup_dates.
  - intros e (x & Hx & ->)%Hi.
    destruct (latestPerDate_covers objects x Hx) as (m & Hm & Hdate & _).
    rewrite <- Hdate. apply list_elem_of_fmap. exists m.2. split; [done|].
    apply Hd. by exists m.
  - intros d e (m & Hm & ->)%Hd (x & Hx & ->)%Hi Hdate.
    destruct (latestPerDate_covers objects x Hx) as (m' & Hm' & Hdate' & Hts).
    assert (m' = m) as ->; [|done].
    apply (NoDup_fmap_elem_inj (λ x : object, hDate x.2) (latestPerDate objects));
      [apply latestPerDate_NoDup_dates|done..|congruence].
Qed.

Lemma optimizePriceHistory_views dateMs thirtyDaysAgo (h : gmap string minerHistory) :
  viewsAgree h → viewsAgree (optimizePriceHistory dateMs thirtyDaysAgo h).
Proof.
  intros Hinv n v. unfold optimizePriceHistory. rewrite lookup_fmap.
  destruct (h !! n) as [v0|] eqn:E; [|done]. simpl. intros [= <-].
  apply Hinv in E as (d & i & -> & _).
  destruct (optimizeEntry_views dateMs thirtyDaysAgo d i) as (d' & i' & -> & H).
  by exists d', i'.
Qed.

(** Writing power and efficiency into the entries keeps the views in
    agreement. *)
Lemma setEntry_views (p e : optNumber) (daily intraday : list histEntry) :
  dailyWithinIntraday daily intraday → dailyLatest daily intraday →
  dailyWithinIntraday (setEntry p e <$> daily) (setEntry p e <$> intraday) ∧
  dailyLatest (setEntry p e <$> daily) (setEntry p e <$> intraday).
Proof.
  intros (Hsub & Hnd & Hcov) Hl.
  assert (∀ l : list histEntry, hDate <$> (setEntry p e <$> l) = hDate <$> l) as Hdates.
  { intros l. rewrite <- list_fmap_compose. by apply list_fmap_ext. }
  split; [split_and!|].
  - intros x (y & -> & Hy)%list_elem_of_fmap. apply list_elem_of_fmap.
    exists y. split; [done|]. by apply Hsub.
  - by rewrite Hdates.
  - intros x (y & -> & Hy)%list_elem_of_fmap. rewrite Hdates. simpl. by apply Hcov.
  - intros x y (x0 & -> & Hx)%list_elem_of_fmap (y0 & -> & Hy)%list_elem_of_fmap Hd.
    simpl in *. by apply (Hl x0 y0).
Qed.

Lemma writeEfficiency_views (l : list miner) (specs : gmap string minerSpec)
    (h : gmap string minerHistory) :
  viewsAgree h → viewsAgree (fold_left writeEfficiency l (specs, h)).2.
Proof.
  revert specs h. induction l as [|m l IH]; intros specs h Hinv; [done|].
  cbn [fold_left]. unfold writeEfficiency at 2.
  destruct (truthy (efficiency m)); [|by apply IH].
  apply IH. destruct (h !! name m) as [[d i|es]|] eqn:E; [|done..].
  intros n v. destruct (decide (name m = n)) as [<-|Hne].
  - rewrite lookup_insert_eq. intros [= <-].
    apply Hinv in E as (d' & i' & [= <- <-] & Hdi & Hl).
    eexists _, _. split; [done|]. by apply setEntry_views.
  - rewrite lookup_insert_ne by done. apply Hinv.
Qed.

Lemma recalculateMiner_same trim collapseSpaces powerDatabase (m : miner) :
  let m' := (recalculateMiner trim collapseSpaces powerDatabase m).1 in
  name m' = name m ∧ price m' = price m ∧ hashrate m' = hashrate m.
Proof.
  unfold recalculateMiner.
  destruct (jsOr _ _) as [q|]; [destruct (Qeq_bool q 0)|];
    cbn [powerConsumption setPower];
    repeat match goal with
           | |- context [match ?x with _ => _ end] => destruct x
           end; done.
Qed.

Lemma researchMiner_same trim collapseSpaces powerDatabase (m : miner) :
  let m' := (researchMiner trim collapseSpaces powerDatabase m).1 in
  name m' = name m ∧ price m' = price m ∧ hashrate m' = hashrate m.
Proof.
  unfold researchMiner.
  repeat match goal with
         | |- context [match ?x with _ => _ end] => destruct x
         end; done.
Qed.

Lemma elem_of_drop_list {A} (n : nat) (l : list A) (x : A) : x ∈ drop n l → x ∈ l.
Proof. intros H. rewrite <- (take_drop n l). apply elem_of_app. by right. Qed.

Lemma cleanupStorage_records dateMs (s : state) (confirmed : bool) (t : Z)
    (u : uploadRecord) :
  u ∈ uploadHistory (cleanupStorage dateMs s confirmed t) → u ∈ uploadHistory s.
Proof.
  unfold cleanupStorage. destruct confirmed; [|done]. cbn [uploadHistory].
  destruct (10 <? length (uploadHistory s))%nat; [|done]. apply elem_of_drop_list.
Qed.

Section Kept.

Variables (trim collapseSpaces : string → string) (powerDatabase : list (string * Q)).
Variable dateMs : string → Z.

(** A property of the data and a condition on the batches such that every
    function that writes the data keeps the property. *)
Variable P :
  list miner → gmap string minerHistory → gmap string Q → gmap string Q → Prop.
Variable okBatch : list miner → Prop.

Hypothesis P_empty : P [] ∅ ∅ ∅.

Hypothesis P_update : ∀ s pv freshId now batch fileName strategy dataDate s',
  P (miners s) (priceHistory s) (maxPrices s) (previousPrices s) →
  okBatch batch →
  actuallyUpdateData dateMs s pv freshId now batch fileName strategy dataDate = Some s' →
  P (miners s') (priceHistory s') (maxPrices s') (previousPrices s').

Hypothesis P_cleanup : ∀ l h mx pv thirtyDaysAgo,
  P l h mx pv → P l (optimizePriceHistory dateMs thirtyDaysAgo h) mx pv.

Hypothesis P_write : ∀ (f : miner → miner) l specs h mx pv,
  (∀ m, name (f m) = name m ∧ price (f m) = price m ∧ hashrate (f m) = hashrate m) →
  P l h mx pv →
  P (f <$> l) (fold_left writeEfficiency (f <$> l) (specs, h)).2 mx pv.

Lemma writeMiners_holds (f : miner * bool → miner) (g : miner → miner * bool) (s : state) :
  (∀ m, name (f (g m)) = name m ∧ price (f (g m)) = price m ∧
        hashrate (f (g m)) = hashrate m) →
  holds P s → holds P (writeMiners s (f <$> (g <$> miners s))).
Proof.
  intros Hsame [Hs Hsnap]. split; [|exact Hsnap]. unfold writeMiners. cbn.
  rewrite <- list_fmap_compose. by apply (P_write (f ∘ g)).
Qed.

Lemma perform_holds (op : operation) (s : state) :
  match op with
  | Upload _ _ _ uploadedEntries _ _ _ => okBatch uploadedEntries
  | _ => True
  end →
  holds P s → holds P (perform trim collapseSpaces powerDatabase dateMs op s).
Proof.
  intros Hok [Hs Hsnap].
  destruct op as [pv freshId now batch fileName strategy dataDate|c id|c t|c1 c2 c3| |];
    cbn [perform].
  - destruct (actuallyUpdateData _ _ _ _ _ _ _ _ _) as [s'|] eqn:E; [|by split].
    cbn. split; [by eapply P_update|].
    apply actuallyUpdateData_record in E as (r & -> & _ & Hr).
    intros u snap Hu Hsome. apply elem_of_app in Hu as [Hu|Hu]; [by eapply Hsnap|].
    apply list_elem_of_singleton in Hu as ->. rewrite Hr in Hsome.
    by inversion Hsome; subst.
  - unfold rollbackUpload.
    destruct (List.find _ _) as [u|] eqn:Hfind; [|by split].
    destruct (recSnapshot u) as [snap|] eqn:Hsome; [|by split].
    destruct c; [|by split]. cbn. split; [|exact Hsnap].
    apply find_some in Hfind as [Hin _]. apply list_elem_of_In in Hin.
    by apply (Hsnap u snap).
  - split.
    + unfold cleanupStorage. destruct c; [|done]. cbn. by apply P_cleanup.
    + intros u snap Hu. apply (Hsnap u snap). by eapply cleanupStorage_records.
  - unfold clearAllData. destruct c1, c2, c3; try by split.
    split; cbn; [exact P_empty|]. by intros u snap Hu%elem_of_nil.
  - unfold recalculateEfficiency. destruct (0 <? _)%nat; [|by split].
    apply writeMiners_holds; [|by split]. intros m.
    apply recalculateMiner_same.
  - unfold applyResearchedPowerData. destruct (0 <? _)%nat; [|by split].
    apply writeMiners_holds; [|by split]. intros m.
    apply researchMiner_same.
Qed.

Lemma run_holds (ops : list operation) (s : state) :
  uploadsSatisfy okBatch ops → holds P s →
  holds P (run trim collapseSpaces powerDatabase dateMs ops s).
Proof.
  revert s. induction ops as [|op ops IH]; intros s Hok Hs; [done|].
  apply Forall_cons in Hok as [Hop Hok]. cbn. apply IH; [done|].
  by apply perform_holds.
Qed.

End Kept.

(** *** The rows and the previous prices an update can leave *)





(** *** Agreement of the two views *)

Lemma viewsAgree_kept trim collapseSpaces powerDatabase dateMs
    (ops : list operation) (s : state) :
  holds (λ _ h _ _, viewsAgree h) s →
  holds (λ _ h _ _, viewsAgree h) (run trim collapseSpaces powerDatabase dateMs ops s).
Proof.
  apply (run_holds _ _ _ _ _ (λ _, True)).
  - intros n v. by rewrite lookup_empty.
  - intros s0 pv freshId now batch fileName strategy dataDate s' H _.
    by apply actuallyUpdateData_views.
  - intros l h mx pv t. apply optimizePriceHistory_views.
  - intros f l specs h mx pv _. apply writeEfficiency_views.
  - apply Forall_forall. intros op _. by destruct op.
Qed.

(** *** Prices below the maximum *)


(** *** Valid records and positive previous prices *)


Lemma holds_initial P : P [] ∅ ∅ ∅ → holds P initialState.
Proof. intros H. split; [exact H|]. by intros u snap Hu%elem_of_nil. Qed.

Lemma viewsAgree_empty : viewsAgree ∅.
Proof. intros n v. by rewrite lookup_empty. Qed.

(** X9.  The two views of a history agree after any sequence of uploads,
    rollbacks, cleanups, clearings, efficiency recalculations and
    applications of the power table, accepted or declined, that starts from
    a state where they agree in the histories and in the snapshots of the
    upload records (the empty state of a freshly mounted component is one):
    every history is a [{daily, intraday}] object, every daily entry is an
    intraday entry, the daily array has exactly one entry for each date of
    the intraday array, and no intraday entry of that date has a later
    timestamp. *)
Theorem views_agree_after_operations trim collapseSpaces powerDatabase dateMs
    (ops : list operation) (s : state) (n : string) (v : minerHistory) :
  holds (λ _ h _ _, viewsAgree h) s →
  priceHistory (run trim collapseSpaces powerDatabase dateMs ops s) !! n = Some v →
  ∃ daily intraday,
    v = History daily intraday ∧
    (∀ e, e ∈ daily → e ∈ intraday) ∧
    NoDup (hDate <$> daily) ∧
    (∀ e, e ∈ intraday → hDate e ∈ hDate <$> daily) ∧
    (∀ d e, d ∈ daily → e ∈ intraday → hDate e = hDate d →
            (hTimestamp e ≤ hTimestamp d)%Z).
Proof.
  intros Hs Hv.
  destruct (viewsAgree_kept trim collapseSpaces powerDatabase dateMs ops s Hs) as [H _].
  apply H in Hv as (d & i & -> & (H1 & H2 & H3) & H4). exists d, i. by split_and!.
Qed.

Lemma views_agree_after_operations_witness :
  ∃ daily intraday,
    default (History [] []) (priceHistory sampleFinal !! "A") = History daily intraday ∧
    (∀ e, e ∈ daily → e ∈ intraday) ∧
    NoDup (hDate <$> daily) ∧
    (∀ e, e ∈ intraday → hDate e ∈ hDate <$> daily) ∧
    (∀ d e, d ∈ daily → e ∈ intraday → hDate e = hDate d →
            (hTimestamp e ≤ hTimestamp d)%Z).
Proof.
  apply (views_agree_after_operations id id samplePowerDatabase digitsKey sampleOperations initialState "A").
  - apply holds_initial, viewsAgree_empty.
  - vm_compute. reflexivity.
Defined.

(** *** The change from the maximum price *)






(** *** Finite changes *)







(** The preview reports no error exactly when every row of the batch
    passes the required-field check. *)
Lemma preview_no_errors (batch cur : list miner) (strategy : string) :
  pvErrors (generateUploadPreview batch cur strategy) = [] ↔
  Forall (λ m, validMiner m = true) batch.
Proof.
  destruct (preview_lists batch cur strategy) as (-> & _).
  split.
  - intros H%fmap_nil_inv. apply Forall_forall. intros m Hm.
    apply list_elem_of_lookup_1 in Hm as [i Hi].
    destruct (validMiner m) eqn:Hv; [done|].
    assert ((0 + i, m) ∈ filter (λ ie : nat * miner, validMiner ie.2 = false)
                          (indexed 0 batch)) as Hin.
    { apply list_elem_of_filter. split; [done|].
      apply (list_elem_of_lookup_2 _ i). by rewrite indexed_lookup_eq, Hi. }
    rewrite H in Hin. by apply elem_of_nil in Hin.
  - intros H. rewrite filter_nil_Forall; [done|]. apply Forall_forall.
    intros [i m] Hin Hbad.
    apply list_elem_of_lookup_1 in Hin as [j Hj].
    rewrite indexed_lookup_eq in Hj. destruct (batch !! j) as [m'|] eqn:E; [|done].
    inversion Hj; subst. rewrite Forall_forall in H.
    apply list_elem_of_lookup_2 in E. apply H in E. simpl in Hbad. congruence.
Qed.

(** X11.  Confirmation is gated on the preview: for a staged batch that has
    been previewed, [confirmUpload] changes nothing when some row fails the
    required-field check; when all rows pass it runs the update on the
    staged batch, under the strategy and the date selected at that moment
    (not those the preview was computed with), then clears the staging and
    the preview; an update that throws leaves the dialogue as it was. *)
Theorem confirm_upload_gate dateMs (ss : session) (freshId : string) (now : Z)
    (staged cur : list miner) (strategy : string) :
  stagedNewMiners ss = Some staged → staged ≠ [] →
  uploadPreview ss = Some (generateUploadPreview staged cur strategy) →
  confirmUpload dateMs ss freshId now =
    if bool_decide (Forall (λ m, validMiner m = true) staged) then
      match actuallyUpdateData dateMs (data ss) (uploadPreview ss) freshId now staged
              (stagedUploadFileName ss) (mergeStrategy ss) (uploadDate ss) with
      | Some s' =>
          {| data := s'; mergeStrategy := mergeStrategy ss; uploadDate := uploadDate ss;
             selectedFile := None; stagedNewMiners := None; stagedUploadFileName := "";
             uploadPreview := None; showUploadPreview := false |}
      | None => ss
      end
    else ss.
Proof.
  intros Hst Hne Hpv. unfold confirmUpload. rewrite Hst.
  destruct staged as [|r staged]; [done|]. rewrite Hpv.
  pose proof (preview_no_errors (r :: staged) cur strategy) as Herr.
  destruct (pvErrors (generateUploadPreview (r :: staged) cur strategy)) as [|e errs].
  - rewrite bool_decide_eq_true_2 by by apply Herr. done.
  - rewrite bool_decide_eq_false_2; [done|]. intros H. by apply Herr in H.
Qed.

Lemma confirm_upload_gate_witness :
  confirmUpload digitsKey sampleSession "upload-2" 1704189600000 =
    if bool_decide (Forall (λ m, validMiner m = true) sampleSecondBatch) then
      match actuallyUpdateData digitsKey (data sampleSession) (uploadPreview sampleSession)
              "upload-2" 1704189600000 sampleSecondBatch
              (stagedUploadFileName sampleSession) (mergeStrategy sampleSession)
              (uploadDate sampleSession) with
      | Some s' =>
          {| data := s'; mergeStrategy := mergeStrategy sampleSession;
             uploadDate := uploadDate sampleSession;
             selectedFile := None; stagedNewMiners := None; stagedUploadFileName := "";
             uploadPreview := None; showUploadPreview := false |}
      | None => sampleSession
      end
    else sampleSession.
Proof.
  apply (confirm_upload_gate digitsKey sampleSession "upload-2" 1704189600000
           sampleSecondBatch (miners sampleAfterFirst) "merge").
  - reflexivity.
  - discriminate.
  - reflexivity.
Defined.

(** *** The dialogue keeps the records valid *)






(** ** Cleanup and rollback *)






(** ** The figure of the preview and the figure of the table *)

Lemma merge_fold_find (n : string) (batch merged : list miner) (prev : gmap string Q) :
  price <$> findByName n (fold_left mergeStep batch (merged, prev)).1 =
    match last (filter (λ e, name e = n) batch) with
    | Some r => Some (price r)
    | None => price <$> findByName n merged
    end.
Proof.
  revert merged prev. induction batch as [|r batch IH]; intros merged prev; [done|].
  cbn [fold_left]. destruct (mergeStep (merged, prev) r) as [merged1 prev1] eqn:E.
  rewrite IH. destruct (decide (name r = n)) as [Hn|Hn].
  - rewrite filter_cons_True by done. rewrite last_cons.
    destruct (last _); [done|]. subst n.
    destruct (mergeStep_same merged prev r) as [_ H]. by rewrite E in H.
  - rewrite filter_cons_False by done. destruct (last _); [done|].
    destruct (mergeStep_other merged prev r n Hn) as (_ & H & _). rewrite E in H.
    cbn [fst] in H. by rewrite H.
Qed.

Lemma findByName_unique (n : string) (batch : list miner) (r : miner) :
  filter (λ e, name e = n) batch = [r] → findByName n batch = Some r.
Proof.
  induction batch as [|x batch IH]; [done|].
  destruct (decide (name x = n)) as [Hx|Hx].
  - rewrite filter_cons_True by done. intros [= -> _].
    unfold findByName. simpl. apply String.eqb_eq in Hx. by rewrite Hx.
  - rewrite filter_cons_False by done. intros H.
    rewrite findByName_cons_ne by done. by apply IH.
Qed.

(** X14.  The table shows what the preview announced.  For a name that the
    batch carries once and the snapshot list has a record for, under
    ['replace'], ['merge'] or ['append'], after the update the record of
    that name has the price of the row, and its change from the previous
    price is the value the preview computes from the two prices, rounded to
    one decimal; only when the two prices are equal the table shows no
    change at all where the preview computes 0. *)
Theorem table_shows_previewed_change dateMs s pv freshId now batch fileName strategy
    dataDate s' (r ex : miner) :
  actuallyUpdateData dateMs s pv freshId now batch fileName strategy dataDate = Some s' →
  strategy = "replace" ∨ strategy = "merge" ∨ strategy = "append" →
  filter (λ e, name e = name r) batch = [r] →
  findByName (name r) (miners s) = Some ex →
  ∃ m, findByName (name r) (miners s') = Some m ∧
       price m = price r ∧
       changeFromPrevious
         (calculatePriceChanges (maxPrices s') (previousPrices s') m) =
         if Qeq_bool (price r) (price ex) then None
         else Some (toFixed1 (priceChange (price r) (price ex))).
Proof.
  intros Hrun Hstrategy Hrows Hex.
  apply actuallyUpdateData_Some in Hrun as (_ & _ & -> & -> & _).
  assert (price <$> findByName (name r)
                      (applyStrategy strategy (miners s) (previousPrices s) batch).1
            = Some (price r) ∧
          (applyStrategy strategy (miners s) (previousPrices s) batch).2 !! name r
            = Some (price ex)) as [Hfind Hprev].
  { destruct (applyStrategy_cases strategy (miners s) (previousPrices s) batch)
      as [[_ ->]|[[_ ->]|(H1 & H2 & H3 & _)]].
    - rewrite replace_fold_list, replace_fold_prev, Hrows, Hex.
      change ([] ++ batch) with batch. by rewrite (findByName_unique _ _ r).
    - by rewrite merge_fold_find, merge_fold_prev, Hrows, Hex.
    - by destruct Hstrategy as [?|[?|?]]. }
  destruct (findByName (name r)
              (applyStrategy strategy (miners s) (previousPrices s) batch).1)
    as [m|] eqn:Hm; [|by cbn in Hfind].
  inversion Hfind as [Hprice]. exists m. split_and!; [done..|].
  apply findByName_Some in Hm as [_ Hname].
  unfold calculatePriceChanges. cbn [changeFromPrevious]. rewrite Hname, Hprev, Hprice.
  unfold priceChange.
  assert (Qeq_bool (price ex) (price r) = Qeq_bool (price r) (price ex)) as ->.
  { destruct (Qeq_bool (price r) (price ex)) eqn:E.
    - apply Qeq_bool_iff in E. apply Qeq_bool_iff. by symmetry.
    - apply Qeq_bool_false_iff in E. apply Qeq_bool_false_iff. intros H. apply E.
      by symmetry. }
  by destruct (Qeq_bool (price r) (price ex)).
Qed.

Lemma table_shows_previewed_change_witness :
  ∃ m, findByName "A" (miners sampleAfterSecond) = Some m ∧
       price m = 60%Q ∧
       changeFromPrevious
         (calculatePriceChanges (maxPrices sampleAfterSecond)
            (previousPrices sampleAfterSecond) m) =
         if Qeq_bool 60 50 then None else Some (toFixed1 (priceChange 60 50)).
Proof.
  apply (table_shows_previewed_change _ _ _ _ _ _ _ _ _ _
           (sampleMiner "A" 100 60 "2024-01-02" 1704189600000)
           (sampleMiner "A" 100 50 "2024-01-01" 1704103200000) sample_second_step).
  - right. by left.
  - reflexivity.
  - reflexivity.
Defined.

(** ** Recalculated efficiency *)

Lemma setEntry_setEntry (p1 e1 p2 e2 : optNumber) (l : list histEntry) :
  setEntry p2 e2 <$> (setEntry p1 e1 <$> l) = setEntry p2 e2 <$> l.
Proof. rewrite <- list_fmap_compose. by apply list_fmap_ext. Qed.

(** What the loop over the updated list leaves for a name: the power and
    the efficiency of the last record with that name and an efficiency. *)
Lemma writeEfficiency_fold (l : list miner) (specs : gmap string minerSpec)
    (h : gmap string minerHistory) (n : string) :
  let next := fold_left writeEfficiency l (specs, h) in
  let written := last (filter (λ m, name m = n ∧ truthy (efficiency m) = true) l) in
  next.1 !! n =
    match written with
    | Some m =>
        Some {| specPowerConsumption := powerConsumption m;
                specEfficiency := efficiency m;
                specAlgorithm := specs !! n ≫= specAlgorithm |}
    | None => specs !! n
    end ∧
  next.2 !! n =
    match written, h !! n with
    | Some m, Some (History daily intraday) =>
        Some (History (setEntry (powerConsumption m) (efficiency m) <$> daily)
                      (setEntry (powerConsumption m) (efficiency m) <$> intraday))
    | _, other => other
    end.
Proof.
  revert specs h. induction l as [|m l IH]; intros specs h.
  { cbn. split; [done|]. by destruct (h !! n) as [[]|]. }
  cbn [fold_left]. cbn zeta in *. unfold writeEfficiency at 2 4.
  destruct (decide (name m = n ∧ truthy (efficiency m) = true)) as [[Hn Ht]|Hno].
  - rewrite filter_cons_True by done. rewrite last_cons, Ht. subst n.
    match goal with
    | |- context [fold_left writeEfficiency l (?a, ?b)] => destruct (IH a b) as [-> ->]
    end.
    rewrite lookup_insert_eq. cbn [specAlgorithm mbind option_bind].
    destruct (last _) as [m2|].
    + split.
      * first [done | by destruct (specs !! name m)].
      * destruct (h !! name m) as [[d i|es]|] eqn:E;
          rewrite ?lookup_insert_eq, ?E, ?setEntry_setEntry; done.
    + split.
      * first [done | by destruct (specs !! name m)].
      * destruct (h !! name m) as [[d i|es]|] eqn:E;
          rewrite ?lookup_insert_eq, ?E; done.
  - rewrite filter_cons_False by done.
    destruct (truthy (efficiency m)) eqn:Ht.
    + assert (name m ≠ n) as Hne by tauto.
      match goal with
      | |- context [fold_left writeEfficiency l (?a, ?b)] => destruct (IH a b) as [-> ->]
      end.
      rewrite lookup_insert_ne by done.
      assert (match h !! name m with
              | Some (History daily intraday) =>
                  <[name m := History
                      (setEntry (powerConsumption m) (efficiency m) <$> daily)
                      (setEntry (powerConsumption m) (efficiency m) <$> intraday)]> h
              | _ => h
              end !! n = h !! n) as ->; [|done].
      destruct (h !! name m) as [[d i|es]|]; rewrite ?lookup_insert_ne; done.
    + apply IH.
Qed.






Lemma Qdiv_nonzero (v h : Q) :
  Qeq_bool v 0 = false → Qeq_bool h 0 = false → Qeq_bool (v / h) 0 = false.
Proof.
  intros Hv Hh. apply Qeq_bool_false_iff in Hv, Hh. apply Qeq_bool_false_iff. intros H.
  apply Hv. rewrite <- (Qmult_div_r v h) by done. rewrite H. ring.
Qed.

Lemma setPower_setPower (m : miner) (p : optNumber) :
  setPower (setPower m p) p = setPower m p.
Proof. done. Qed.





Lemma writeMiners_written (s : state) (l : list miner) (n : string) :
  let s' := writeMiners s l in
  let written := last (filter (λ m, name m = n ∧ truthy (efficiency m) = true) l) in
  miners s' = l ∧
  minerSpecs s' !! n =
    match written with
    | Some m =>
        Some {| specPowerConsumption := powerConsumption m;
                specEfficiency := efficiency m;
                specAlgorithm := minerSpecs s !! n ≫= specAlgorithm |}
    | None => minerSpecs s !! n
    end ∧
  priceHistory s' !! n =
    match written, priceHistory s !! n with
    | Some m, Some (History daily intraday) =>
        Some (History (setEntry (powerConsumption m) (efficiency m) <$> daily)
                      (setEntry (powerConsumption m) (efficiency m) <$> intraday))
    | _, other => other
    end.
Proof.
  intros s' written. destruct (writeEfficiency_fold l (minerSpecs s) (priceHistory s) n)
    as [H1 H2]. by split_and!.
Qed.

(** X17.  When [recalculateEfficiency] or [applyResearchedPowerData] finds
    something to update, it rewrites specs and history of every name from
    the snapshot list it has computed: the specs of a name take the power
    and the efficiency of the last record with that name and an efficiency
    (the algorithm is kept), and so does every entry of its history, in the
    daily and in the intraday array, the entries of earlier uploads
    included; a name without such a record keeps specs and history, and a
    history stored as a flat array is not touched.  Either way the known
    names, the maximum and previous prices and the upload records stay as
    they are. *)
Theorem efficiency_written_to_history trim collapseSpaces powerDatabase (s : state)
    (n : string) :
  let rewritten (s' : state) :=
    knownMiners s' = knownMiners s ∧ maxPrices s' = maxPrices s ∧
    previousPrices s' = previousPrices s ∧ uploadHistory s' = uploadHistory s ∧
    (s' = s ∨
     let written :=
       last (filter (λ m, name m = n ∧ truthy (efficiency m) = true) (miners s')) in
     minerSpecs s' !! n =
       match written with
       | Some m =>
           Some {| specPowerConsumption := powerConsumption m;
                   specEfficiency := efficiency m;
                   specAlgorithm := minerSpecs s !! n ≫= specAlgorithm |}
       | None => minerSpecs s !! n
       end ∧
     priceHistory s' !! n =
       match written, priceHistory s !! n with
       | Some m, Some (History daily intraday) =>
           Some (History (setEntry (powerConsumption m) (efficiency m) <$> daily)
                         (setEntry (powerConsumption m) (efficiency m) <$> intraday))
       | _, other => other
       end) in
  rewritten (recalculateEfficiency trim collapseSpaces powerDatabase s) ∧
  rewritten (applyResearchedPowerData trim collapseSpaces powerDatabase s).
Proof.
  cbn zeta. split.
  - unfold recalculateEfficiency. destruct (0 <? _)%nat; [|by split_and!; try left].
    split_and!; try done. right.
    destruct (writeMiners_written s
                (recalculateMiner trim collapseSpaces powerDatabase <$> miners s).*1 n)
      as (Hl & Hs & Hh).
    cbn zeta in *. by rewrite Hl.
  - unfold applyResearchedPowerData. destruct (0 <? _)%nat; [|by split_and!; try left].
    split_and!; try done. right.
    destruct (writeMiners_written s
                (researchMiner trim collapseSpaces powerDatabase <$> miners s).*1 n)
      as (Hl & Hs & Hh).
    cbn zeta in *. by rewrite Hl.
Qed.

(** ** Migration *)

Lemma objSet_cons {V} (k0 : string) (v0 : V) (obj : list (string * V)) (k : string) (v : V) :
  objSet ((k0, v0) :: obj) k v =
    if String.eqb k0 k then (k, v) :: obj else (k0, v0) :: objSet obj k v.
Proof.
  unfold objSet. cbn [findIndex fst]. destruct (String.eqb k0 k); [done|].
  by destruct (findIndex _ obj).
Qed.

Lemma objSet_fst {V} (obj : list (string * V)) (k : string) (v : V) :
  (objSet obj k v).*1 = if bool_decide (k ∈ obj.*1) then obj.*1 else obj.*1 ++ [k].
Proof.
  induction obj as [|[k0 v0] obj IH].
  { by rewrite bool_decide_eq_false_2 by apply not_elem_of_nil. }
  rewrite objSet_cons. destruct (String.eqb k0 k) eqn:E.
  - apply String.eqb_eq in E. subst. cbn.
    rewrite bool_decide_eq_true_2; [done|]. apply elem_of_cons. by left.
  - apply String.eqb_neq in E. cbn. rewrite IH.
    destruct (decide (k ∈ obj.*1)) as [Hin|Hin].
    + rewrite !bool_decide_eq_true_2; [done| |done]. apply elem_of_cons. by right.
    + rewrite !bool_decide_eq_false_2; [done| |done].
      intros [?|?]%elem_of_cons; [congruence|done].
Qed.

Lemma objSet_NoDup {V} (obj : list (string * V)) (k : string) (v : V) :
  NoDup obj.*1 → NoDup (objSet obj k v).*1.
Proof.
  intros H. rewrite objSet_fst. case_bool_decide; [done|].
  apply NoDup_app. split_and!; [done| |apply NoDup_singleton].
  intros x Hx Hx'. apply list_elem_of_singleton in Hx'. by subst.
Qed.

Lemma objSet_to_map {V} (obj : list (string * V)) (k : string) (v : V) :
  list_to_map (objSet obj k v) =@{gmap string V} <[k := v]> (list_to_map obj).
Proof.
  induction obj as [|[k0 v0] obj IH]; [done|].
  rewrite objSet_cons. destruct (String.eqb k0 k) eqn:E.
  - apply String.eqb_eq in E. subst. cbn. by rewrite insert_insert_eq.
  - apply String.eqb_neq in E. cbn. rewrite IH. by apply insert_insert_ne.
Qed.

Lemma elem_of_to_map {V} (obj : list (string * V)) (k : string) (v : V) :
  NoDup obj.*1 → (k, v) ∈ obj ↔ (list_to_map obj : gmap string V) !! k = Some v.
Proof. intros H. by rewrite elem_of_list_to_map. Qed.

Lemma find_key {V} (obj : list (string * V)) (k : string) :
  match List.find (λ kv, String.eqb kv.1 k) obj with
  | Some kv => kv.1 = k ∧ kv ∈ obj
  | None => k ∉ obj.*1
  end.
Proof.
  destruct (List.find _ obj) as [kv|] eqn:E.
  - apply find_some in E as [Hin Heq]. apply String.eqb_eq in Heq.
    split; [done|]. by apply list_elem_of_In.
  - intros (kv & -> & Hin)%list_elem_of_fmap. apply list_elem_of_In in Hin.
    apply (find_none _ _ E) in Hin. simpl in Hin. by apply String.eqb_neq in Hin.
Qed.

(** What [dailyEntriesMap] holds once the loop has gone through [pre]: one
    entry for each date of [pre], taken from it, none later on its date. *)
Lemma dailySet_fold (l pre : list histEntry) (m : list (string * histEntry)) :
  NoDup m.*1 →
  (∀ k e, (k, e) ∈ m →
     hDate e = k ∧ e ∈ pre ∧
     ∀ x, x ∈ pre → hDate x = k → (hTimestamp x ≤ hTimestamp e)%Z) →
  (∀ x, x ∈ pre → hDate x ∈ m.*1) →
  let m' := fold_left dailySet l m in
  NoDup m'.*1 ∧
  (∀ k e, (k, e) ∈ m' →
     hDate e = k ∧ e ∈ pre ++ l ∧
     ∀ x, x ∈ pre ++ l → hDate x = k → (hTimestamp x ≤ hTimestamp e)%Z) ∧
  (∀ x, x ∈ pre ++ l → hDate x ∈ m'.*1).
Proof.
  revert pre m. induction l as [|y l IH]; intros pre m Hnd Hm Hcov.
  { cbn. rewrite app_nil_r. by split_and!. }
  cbn [fold_left]. cbn zeta.
  replace (pre ++ y :: l) with ((pre ++ [y]) ++ l) by by rewrite <- app_assoc.
  assert (∀ k e, (k, e) ∈ objSet m (hDate y) y ↔
                 (k = hDate y ∧ e = y) ∨ (k ≠ hDate y ∧ (k, e) ∈ m)) as Hset.
  { intros k e. rewrite !elem_of_to_map, objSet_to_map by by try apply objSet_NoDup.
    destruct (decide (k = hDate y)) as [->|Hne].
    - rewrite lookup_insert_eq. split; [intros [= ->]; by left|].
      intros [[_ ->]|[? _]]; done.
    - rewrite lookup_insert_ne by done. split; [by right|]. intros [[? _]|[_ ?]]; done. }
  assert (∀ x, x ∈ pre ++ [y] → x ∈ pre ∨ x = y) as Hpre.
  { intros x [?|?%list_elem_of_singleton]%elem_of_app; [by left|by right]. }
  pose proof (find_key m (hDate y)) as Hfind. unfold dailySet.
  destruct (List.find _ m) as [[k0 existing]|].
  - destruct Hfind as [Hk0 Hin]. cbn in Hk0. subst k0.
    destruct (Hm _ _ Hin) as (Hdate & Hex & Hmax).
    destruct (hTimestamp existing <=? hTimestamp y)%Z eqn:E.
    + apply Z.leb_le in E. apply IH.
      * by apply objSet_NoDup.
      * intros k e [[-> ->]|[Hne Hke]]%Hset.
        -- split_and!; [done|apply elem_of_app; right; by apply list_elem_of_singleton|].
           intros x [Hx| ->]%Hpre Hd; [|lia]. specialize (Hmax x Hx Hd). lia.
        -- destruct (Hm _ _ Hke) as (H1 & H2 & H3).
           split_and!; [done|apply elem_of_app; by left|].
           intros x [Hx| ->]%Hpre Hd; [by apply H3|congruence].
      * intros x Hx. rewrite objSet_fst. case_bool_decide as Hc.
        -- apply Hpre in Hx as [Hx| ->]; [by apply Hcov|done].
        -- exfalso. apply Hc. apply list_elem_of_fmap. by exists (hDate y, existing).
    + apply Z.leb_gt in E. apply IH; [done| |].
      * intros k e Hke. destruct (Hm _ _ Hke) as (H1 & H2 & H3).
        split_and!; [done|apply elem_of_app; by left|].
        intros x [Hx| ->]%Hpre Hd; [by apply H3|].
        assert (e = existing) as ->; [|lia].
        apply (elem_of_to_map m k e Hnd) in Hke.
        apply (elem_of_to_map m (hDate y) existing Hnd) in Hin.
        rewrite Hd in Hin. congruence.
      * intros x [Hx| ->]%Hpre; [by apply Hcov|].
        apply list_elem_of_fmap. by exists (hDate y, existing).
  - apply IH.
    + by apply objSet_NoDup.
    + intros k e [[-> ->]|[Hne Hke]]%Hset.
      * split_and!; [done|apply elem_of_app; right; by apply list_elem_of_singleton|].
        intros x [Hx| ->]%Hpre Hd; [|lia]. exfalso. apply Hfind. rewrite <- Hd.
        by apply Hcov.
      * destruct (Hm _ _ Hke) as (H1 & H2 & H3).
        split_and!; [done|apply elem_of_app; by left|].
        intros x [Hx| ->]%Hpre Hd; [by apply H3|congruence].
    + intros x Hx. rewrite objSet_fst. rewrite bool_decide_eq_false_2 by done.
      apply elem_of_app. apply Hpre in Hx as [Hx| ->]; [left; by apply Hcov|].
      right. by apply list_elem_of_singleton.
Qed.

Lemma byDate_sortsBy dateMs : sortsBy (byDate dateMs) (λ e, dateMs (hDate e)).
Proof. intros a b. unfold byDate. lia. Qed.

(** The two arrays built from a stored array. *)
Lemma migrateArray_views today noonMs legacyId dateMs (entries : list storedEntry) :
  let di := migrateArray today noonMs legacyId dateMs entries in
  di.2 ≡ₚ (λ ie, migrateEntry today noonMs legacyId ie.1 ie.2) <$> indexed 0 entries ∧
  StronglySorted (λ a b, (hTimestamp a ≤ hTimestamp b)%Z) di.2 ∧
  StronglySorted (λ a b, (dateMs (hDate a) ≤ dateMs (hDate b))%Z) di.1 ∧
  dailyWithinIntraday di.1 di.2 ∧ dailyLatest di.1 di.2.
Proof.
  unfold migrateArray. cbn [fst snd].
  set (intraday := jsSort byTimestamp _).
  destruct (dailySet_fold intraday [] []) as (Hnd & Hm & Hcov);
    [constructor|by intros k e H%elem_of_nil|by intros x H%elem_of_nil|].
  cbn zeta in *. rewrite app_nil_l in *.
  set (m := fold_left dailySet intraday []) in *.
  assert (∀ e, e ∈ m.*2 ↔ (hDate e, e) ∈ m) as Hval.
  { intros e. rewrite list_elem_of_fmap. split.
    - intros ([k e'] & -> & Hin). cbn. destruct (Hm _ _ Hin) as (-> & _). done.
    - intros Hin. by exists (hDate e, e). }
  assert (hDate <$> m.*2 = m.*1) as Hdates.
  { rewrite <- list_fmap_compose. apply Forall_fmap_ext_1, Forall_forall.
    intros [k e] Hin. cbn. by destruct (Hm _ _ Hin) as (-> & _). }
  split_and!.
  - apply jsSort_perm.
  - eapply jsSort_sorted. apply ts_sortsBy.
  - eapply jsSort_sorted. apply byDate_sortsBy.
  - split_and!.
    + intros e He%elem_of_jsSort. apply Hval in He. by destruct (Hm _ _ He) as (_ & ? & _).
    + rewrite (jsSort_perm _ _). by rewrite Hdates.
    + intros e He. rewrite (jsSort_perm _ _), Hdates. by apply Hcov.
  - intros d e Hd%elem_of_jsSort He Heq. apply Hval in Hd.
    destruct (Hm _ _ Hd) as (_ & _ & Hmax). by apply Hmax.
Qed.

(** The object the loop over the stored histories builds, name by name,
    and the number of arrays it has migrated. *)
Lemma migrateName_fold today noonMs legacyId dateMs (items : list (string * storedHistory))
    (acc : list (string * (list histEntry * list histEntry))) (c : nat) (n : string) :
  NoDup items.*1 →
  let next := fold_left (migrateName today noonMs legacyId dateMs) items (acc, c) in
  (list_to_map next.1 : gmap string _) !! n =
    match (list_to_map items : gmap string _) !! n with
    | Some (StoredArray entries) =>
        Some (migrateArray today noonMs legacyId dateMs entries)
    | Some (StoredObject daily intraday) => Some (daily, intraday)
    | _ => (list_to_map acc : gmap string _) !! n
    end ∧
  next.2 = (c + length (filter (λ kv, isStoredArray kv.2 = true) items))%nat.
Proof.
  revert acc c. induction items as [|[k v] items IH]; intros acc c Hnd.
  { cbn. split; [done|lia]. }
  apply NoDup_cons in Hnd as [Hk Hnd]. cbn [fold_left]. cbn zeta.
  assert (∀ acc' c',
            (list_to_map acc' : gmap string _) !! n =
              (if decide (k = n)
               then match v with
                    | StoredArray entries =>
                        Some (migrateArray today noonMs legacyId dateMs entries)
                    | StoredObject daily intraday => Some (daily, intraday)
                    | StoredOther => (list_to_map acc : gmap string _) !! n
                    end
               else (list_to_map acc : gmap string _) !! n) →
            let next := fold_left (migrateName today noonMs legacyId dateMs) items
                          (acc', c') in
            (list_to_map next.1 : gmap string _) !! n =
              match (list_to_map ((k, v) :: items) : gmap string _) !! n with
              | Some (StoredArray entries) =>
                  Some (migrateArray today noonMs legacyId dateMs entries)
              | Some (StoredObject daily intraday) => Some (daily, intraday)
              | _ => (list_to_map acc : gmap string _) !! n
              end ∧
            next.2 = (c' + length (filter (λ kv : string * storedHistory,
                                             isStoredArray kv.2 = true) items))%nat) as Hstep.
  { intros acc' c' Hacc'. destruct (IH acc' c' Hnd) as [H1 H2]. cbn zeta in *.
    split; [|done]. rewrite H1. cbn [list_to_map foldr].
    destruct (decide (k = n)) as [->|Hne].
    - rewrite lookup_insert_eq.
      assert ((list_to_map items : gmap string storedHistory) !! n = None) as ->.
      { by apply not_elem_of_list_to_map_1. }
      rewrite Hacc'. by destruct v.
    - rewrite lookup_insert_ne by done. by rewrite Hacc'. }
  unfold migrateName at 2 4. cbn [fst snd]. destruct v as [entries|daily intraday|].
  - destruct (Hstep (objSet acc k (migrateArray today noonMs legacyId dateMs entries))
                (S c)) as [H1 H2].
    { rewrite objSet_to_map. destruct (decide (k = n)) as [->|Hne].
      - by rewrite lookup_insert_eq.
      - by rewrite lookup_insert_ne. }
    split; [exact H1|]. cbn zeta in H2. rewrite H2.
    rewrite filter_cons_True by done. simpl. lia.
  - destruct (Hstep (objSet acc k (daily, intraday)) c) as [H1 H2].
    { rewrite objSet_to_map. destruct (decide (k = n)) as [->|Hne].
      - by rewrite lookup_insert_eq.
      - by rewrite lookup_insert_ne. }
    split; [exact H1|]. cbn zeta in H2. rewrite H2.
    rewrite filter_cons_False; done.
  - destruct (Hstep acc c) as [H1 H2].
    { by destruct (decide (k = n)). }
    split; [exact H1|]. cbn zeta in H2. rewrite H2.
    rewrite filter_cons_False; done.
Qed.

(** X18.  The history the migration builds from a stored array: the
    intraday array holds exactly the entries of the stored array, each with
    its date, timestamp and upload id filled in where missing, sorted by
    timestamp; the daily array is sorted by date, has exactly one entry for
    each date of the intraday array, taken from it, and no intraday entry of
    that date has a later timestamp. *)
Theorem migrated_array_views today noonMs legacyId dateMs (entries : list storedEntry) :
  let di := migrateArray today noonMs legacyId dateMs entries in
  di.2 ≡ₚ (λ ie, migrateEntry today noonMs legacyId ie.1 ie.2) <$> indexed 0 entries ∧
  StronglySorted (λ a b, (hTimestamp a ≤ hTimestamp b)%Z) di.2 ∧
  StronglySorted (λ a b, (dateMs (hDate a) ≤ dateMs (hDate b))%Z) di.1 ∧
  (∀ e, e ∈ di.1 → e ∈ di.2) ∧
  NoDup (hDate <$> di.1) ∧
  (∀ e, e ∈ di.2 → hDate e ∈ hDate <$> di.1) ∧
  (∀ d e, d ∈ di.1 → e ∈ di.2 → hDate e = hDate d → (hTimestamp e ≤ hTimestamp d)%Z).
Proof.
  destruct (migrateArray_views today noonMs legacyId dateMs entries)
    as (H1 & H2 & H3 & (H4 & H5 & H6) & H7).
  by split_and!.
Qed.

Lemma migrateName_count today noonMs legacyId dateMs
    (items : list (string * storedHistory))
    (acc : list (string * (list histEntry * list histEntry))) (c : nat) :
  (fold_left (migrateName today noonMs legacyId dateMs) items (acc, c)).2 =
    (c + length (filter (λ kv, isStoredArray kv.2 = true) items))%nat.
Proof.
  revert acc c. induction items as [|[k v] items IH]; intros acc c; [cbn; lia|].
  cbn [fold_left]. unfold migrateName at 2. cbn [fst snd].
  destruct v as [entries|daily intraday|]; rewrite IH.
  - rewrite filter_cons_True by done. simpl. lia.
  - by rewrite filter_cons_False.
  - by rewrite filter_cons_False.
Qed.

Lemma migrateExistingData_runs today noonMs legacyId dateMs (st : storage)
    (accepted : bool) :
  dataMigrationV2 st = false →
  match storedPriceHistory st with
  | (firstMinerKey, StoredObject _ _) :: _ => firstMinerKey = ""
  | _ => True
  end →
  filter (λ kv, isStoredArray kv.2 = true) (storedPriceHistory st) ≠ [] →
  let next := fold_left (migrateName today noonMs legacyId dateMs)
                (storedPriceHistory st) ([], 0%nat) in
  migrateExistingData today noonMs legacyId dateMs st accepted =
    {| migratedHistory :=
         Some ((λ di : list histEntry * list histEntry, History di.1 di.2) <$>
                 list_to_map next.1);
       storageAfter :=
         if accepted then
           {| dataMigrationV2 := true;
              storedPriceHistory :=
                (λ kv : string * (list histEntry * list histEntry),
                   (kv.1, StoredObject kv.2.1 kv.2.2)) <$> next.1 |}
         else st |}.
Proof.
  intros Hflag Hfirst Harrays next. unfold migrateExistingData. rewrite Hflag.
  pose proof (migrateName_count today noonMs legacyId dateMs (storedPriceHistory st)
                [] 0) as Hcount.
  fold next in Hcount. subst next.
  destruct (storedPriceHistory st) as [|[k0 v0] rest] eqn:Hitems; [done|].
  assert (negb (String.eqb k0 "") &&
          match v0 with StoredObject _ _ => true | _ => false end = false) as ->.
  { destruct v0; rewrite ?andb_false_r; try done. subst. done. }
  destruct (fold_left _ _ _) as [new total]. cbn [fst snd] in *.
  destruct (0 <? total)%nat eqn:E; [done|].
  apply Nat.ltb_ge in E. destruct (filter _ _); [done|]. simpl in Hcount. lia.
Qed.

(** X19.  What the migration passes to the state.  When it runs over stored
    histories with distinct names (the flag is not set, the first history
    is not an object with an [intraday] property under a non-empty name) and
    finds at least one array, the history dictionary it sets has, for each
    name, the object built from the array stored under it, or the object
    stored under it, unchanged; the names under which something else was
    stored are dropped. *)
Theorem migration_outcome today noonMs legacyId dateMs (st : storage) (accepted : bool) :
  dataMigrationV2 st = false →
  NoDup (storedPriceHistory st).*1 →
  match storedPriceHistory st with
  | (firstMinerKey, StoredObject _ _) :: _ => firstMinerKey = ""
  | _ => True
  end →
  filter (λ kv, isStoredArray kv.2 = true) (storedPriceHistory st) ≠ [] →
  ∃ h,
    migratedHistory (migrateExistingData today noonMs legacyId dateMs st accepted)
      = Some h ∧
    ∀ n, h !! n =
      match (list_to_map (storedPriceHistory st) : gmap string storedHistory) !! n with
      | Some (StoredArray entries) =>
          Some (History (migrateArray today noonMs legacyId dateMs entries).1
                        (migrateArray today noonMs legacyId dateMs entries).2)
      | Some (StoredObject daily intraday) => Some (History daily intraday)
      | Some StoredOther | None => None
      end.
Proof.
  intros Hflag Hnd Hfirst Harrays.
  rewrite (migrateExistingData_runs today noonMs legacyId dateMs st accepted)
    by done.
  eexists. split; [done|]. intros n. rewrite lookup_fmap.
  destruct (migrateName_fold today noonMs legacyId dateMs (storedPriceHistory st)
              [] 0 n Hnd) as [-> _].
  destruct (list_to_map (storedPriceHistory st) !! n) as [[entries|daily intraday|]|];
    done.
Qed.

Lemma migration_outcome_witness :
  ∃ h,
    migratedHistory
      (migrateExistingData "2024-01-02" digitsKey (λ d i, d +:+ "_" +:+ pretty i)
         digitsKey sampleStorage true) = Some h ∧
    ∀ n, h !! n =
      match (list_to_map (storedPriceHistory sampleStorage)
               : gmap string storedHistory) !! n with
      | Some (StoredArray entries) =>
          Some (History
                  (migrateArray "2024-01-02" digitsKey (λ d i, d +:+ "_" +:+ pretty i)
                     digitsKey entries).1
                  (migrateArray "2024-01-02" digitsKey (λ d i, d +:+ "_" +:+ pretty i)
                     digitsKey entries).2)
      | Some (StoredObject daily intraday) => Some (History daily intraday)
      | Some StoredOther | None => None
      end.
Proof.
  apply migration_outcome.
  - reflexivity.
  - apply (bool_decide_unpack _). vm_compute. exact I.
  - exact I.
  - discriminate.
Defined.

(** X20.  The migration runs once, and what it has not migrated then it
    never migrates.  After a call whose writes the storage accepts the flag
    is set, and a later call does nothing.  In particular, when the first
    stored history is already an object with an [intraday] property (under
    a non-empty name), the call only sets the flag: nothing is passed to the
    state and the stored histories are left as they are, the arrays stored
    under later names included.  A storage that refuses the writes keeps the
    flag unset, so that the next call tries again. *)
Theorem migration_runs_once today noonMs legacyId dateMs (st : storage) :
  let r := migrateExistingData today noonMs legacyId dateMs st true in
  dataMigrationV2 (storageAfter r) = true ∧
  (∀ accepted,
     migrateExistingData today noonMs legacyId dateMs (storageAfter r) accepted =
       {| migratedHistory := None; storageAfter := storageAfter r |}) ∧
  (∀ firstMinerKey daily intraday rest,
     dataMigrationV2 st = false →
     storedPriceHistory st = (firstMinerKey, StoredObject daily intraday) :: rest →
     firstMinerKey ≠ "" →
     migratedHistory r = None ∧
     storedPriceHistory (storageAfter r) = storedPriceHistory st) ∧
  (dataMigrationV2 st = false →
   storageAfter (migrateExistingData today noonMs legacyId dateMs st false) = st).
Proof.
  assert (dataMigrationV2
            (storageAfter (migrateExistingData today noonMs legacyId dateMs st true))
          = true) as Hflag.
  { unfold migrateExistingData. destruct (dataMigrationV2 st) eqn:E; [done|].
    destruct (storedPriceHistory st) as [|[k0 v0] rest]; [done|].
    destruct (_ && _); [done|]. destruct (fold_left _ _ _) as [new total].
    by destruct (0 <? total)%nat. }
  cbn zeta. split_and!.
  - exact Hflag.
  - intros accepted. unfold migrateExistingData at 1. by rewrite Hflag.
  - intros k0 d i rest Hno Hitems Hk0. unfold migrateExistingData.
    rewrite Hno, Hitems. apply String.eqb_neq in Hk0. by rewrite Hk0.
  - intros Hno. unfold migrateExistingData. rewrite Hno.
    destruct st as [flag items]. cbn [dataMigrationV2 storedPriceHistory] in *.
    subst flag.
    destruct items as [|[k0 v0] rest]; [done|].
    destruct (_ && _); [done|]. destruct (fold_left _ _ _) as [new total].
    by destruct (0 <? total)%nat.
Qed.



(** ** Figures of the dashboard *)

Lemma sum_list_append (l1 l2 : list nat) :
  sum_list (l1 ++ l2) = sum_list l1 + sum_list l2.
Proof. induction l1 as [|x l1 IH]; [done|]. cbn. rewrite IH. lia. Qed.

Lemma countUp_spec (ranges : list rangeCount) (i : nat) :
  i < length ranges →
  length (countUp ranges i) = length ranges ∧
  range <$> countUp ranges i = range <$> ranges ∧
  sum_list (count <$> countUp ranges i) = S (sum_list (count <$> ranges)).
Proof.
  intros Hi. unfold countUp.
  destruct (lookup_lt_is_Some_2 ranges i Hi) as [r Hr]. rewrite Hr.
  apply list_elem_of_split_length in Hr as (before & after & -> & ->).
  replace (length before) with (length before + 0) by lia.
  rewrite insert_app_r. cbn [list_insert]. rewrite !length_app, !fmap_app, !sum_list_append.
  cbn. split_and!; [done..|lia].
Qed.

Lemma distribution_fold (l : list miner) (ranges : list rangeCount) :
  length ranges = 5 →
  let counted :=
    fold_left
      (λ ranges miner,
         match ratedEfficiency miner with
         | Some e =>
             if negb (Qle_bool 15 e) then countUp ranges 0
             else if negb (Qle_bool 20 e) then countUp ranges 1
             else if negb (Qle_bool 25 e) then countUp ranges 2
             else if negb (Qle_bool 30 e) then countUp ranges 3
             else countUp ranges 4
         | None => ranges
         end) l ranges in
  range <$> counted = range <$> ranges ∧
  sum_list (count <$> counted) =
    sum_list (count <$> ranges) + length (omap ratedEfficiency l).
Proof.
  set (step := λ (ranges : list rangeCount) (miner : miner),
         match ratedEfficiency miner with
         | Some e =>
             if negb (Qle_bool 15 e) then countUp ranges 0
             else if negb (Qle_bool 20 e) then countUp ranges 1
             else if negb (Qle_bool 25 e) then countUp ranges 2
             else if negb (Qle_bool 30 e) then countUp ranges 3
             else countUp ranges 4
         | None => ranges
         end).
  assert (∀ ranges m, length ranges = 5 →
            length (step ranges m) = 5 ∧
            range <$> step ranges m = range <$> ranges ∧
            sum_list (count <$> step ranges m) =
              sum_list (count <$> ranges) + length (omap ratedEfficiency [m])) as Hstep.
  { intros rs m Hlen. unfold step. cbn [omap list_omap].
    destruct (ratedEfficiency m) as [e|]; [|cbn; split_and!; [done..|lia]].
    assert (∀ i, i < 5 →
              length (countUp rs i) = 5 ∧ range <$> countUp rs i = range <$> rs ∧
              sum_list (count <$> countUp rs i) = sum_list (count <$> rs) + 1) as Hi.
    { intros i Hi. destruct (countUp_spec rs i) as (H1 & H2 & H3); [lia|].
      split_and!; [lia|done|lia]. }
    cbn [length].
    destruct (negb (Qle_bool 15 e)); [apply Hi; lia|].
    destruct (negb (Qle_bool 20 e)); [apply Hi; lia|].
    destruct (negb (Qle_bool 25 e)); [apply Hi; lia|].
    destruct (negb (Qle_bool 30 e)); apply Hi; lia. }
  clearbody step. revert ranges.
  induction l as [|m l IH]; intros ranges Hlen; [cbn; split; [done|lia]|].
  cbn [fold_left]. cbn zeta.
  destruct (Hstep ranges m Hlen) as (H1 & H2 & H3).
  destruct (IH (step ranges m) H1) as [H4 H5]. cbn zeta in H4, H5.
  rewrite H4, H5, H2, H3. split; [done|].
  cbn [omap list_omap]. destruct (ratedEfficiency m); cbn [length]; lia.
Qed.

Lemma sum_filter_positive (l : list rangeCount) :
  sum_list (count <$> filter (λ r, 0 < count r) l) = sum_list (count <$> l).
Proof.
  induction l as [|r l IH]; [done|]. rewrite filter_cons. destruct (decide (0 < count r)).
  - cbn. by rewrite IH.
  - cbn. rewrite IH. lia.
Qed.

Lemma rated_or_without (l : list miner) :
  length (omap ratedEfficiency l) +
  length (filter (λ m, (match efficiency m with
                        | Number e => Qeq_bool e 0 || Qle_bool e 0
                        | _ => true
                        end) = true) l) = length l.
Proof.
  induction l as [|m l IH]; [done|]. cbn [omap list_omap]. rewrite filter_cons.
  unfold ratedEfficiency at 1, jsGt.
  destruct (efficiency m) as [| |e]; cbn [length]; try (rewrite decide_True by done);
    cbn [length]; try lia.
  destruct (Qeq_bool e 0), (Qle_bool e 0); cbn [negb andb orb];
    first [rewrite decide_True by done | rewrite decide_False by done];
    cbn [length]; lia.
Qed.

(** X22.  The figures of the dashboard add up: the counts of the efficiency
    ranges shown and the number of records reported as without efficiency
    together give the total number of records; no range is shown with a
    count of 0, and the ranges shown keep the order of the five ranges. *)
Theorem dashboard_counts_add_up (miners : list miner) (newMinersLastUpload : gset string) :
  let st := computeStats miners newMinersLastUpload in
  let shown := efficiencyDistribution miners in
  sum_list (count <$> shown) + withoutEfficiency st = totalMiners st ∧
  Forall (λ r, 0 < count r) shown ∧
  range <$> shown `sublist_of`
    ["< 15 J/TH"; "15-20 J/TH"; "20-25 J/TH"; "25-30 J/TH"; "> 30 J/TH"].
Proof.
  cbn zeta. unfold efficiencyDistribution, computeStats.
  cbn [withoutEfficiency totalMiners].
  match goal with
  | |- context [fold_left ?f miners ?r] =>
      destruct (distribution_fold miners r eq_refl) as [Hr Hs]; cbn zeta in Hr, Hs;
      set (counted := fold_left f miners r) in *
  end.
  split_and!.
  - rewrite sum_filter_positive, Hs. cbn [fmap list_fmap count sum_list sum_list_with].
    pose proof (rated_or_without miners). unfold id. lia.
  - apply Forall_forall. by intros r [H _]%list_elem_of_filter.
  - change ["< 15 J/TH"; "15-20 J/TH"; "20-25 J/TH"; "25-30 J/TH"; "> 30 J/TH"]
      with (range <$> [{| range := "< 15 J/TH"; count := 0; color := "#10B981" |};
                       {| range := "15-20 J/TH"; count := 0; color := "#3B82F6" |};
                       {| range := "20-25 J/TH"; count := 0; color := "#F59E0B" |};
                       {| range := "25-30 J/TH"; count := 0; color := "#EF4444" |};
                       {| range := "> 30 J/TH"; count := 0; color := "#DC2626" |}]).
    rewrite <- Hr. apply fmap_sublist, sublist_filter.
Qed.

(** X23.  The label of the last save, by the milliseconds elapsed: under
    five seconds (an instant in the future included) "Just now", under a
    minute the whole seconds, under an hour the whole minutes, under a day
    the whole hours, from a day on the date; a state never saved shows
    "Never". *)
Theorem formatLastSaved_thresholds (toLocaleDateString : Z → string)
    (lastSaved now : Z) :
  formatLastSaved toLocaleDateString None now = "Never" ∧
  let elapsed := (now - lastSaved)%Z in
  formatLastSaved toLocaleDateString (Some lastSaved) now =
    if (elapsed <? 5000)%Z then "Just now"
    else if (elapsed <? 60000)%Z then pretty (elapsed / 1000)%Z +:+ "s ago"
    else if (elapsed <? 3600000)%Z then pretty (elapsed / 60000)%Z +:+ "m ago"
    else if (elapsed <? 86400000)%Z then pretty (elapsed / 3600000)%Z +:+ "h ago"
    else toLocaleDateString lastSaved.
Proof.
  split; [done|]. cbn zeta. unfold formatLastSaved.
  set (d := (now - lastSaved)%Z).
  assert (d / 1000 / 60 = d / 60000)%Z as Hm by (rewrite Z.div_div by lia; done).
  assert (d / 1000 / 60 / 60 = d / 3600000)%Z as Hh
    by (rewrite !Z.div_div by lia; done).
  assert (∀ k c, (0 < k)%Z → ((d / k <? c) = (d <? c * k))%Z) as Hlt.
  { intros k c Hk. destruct (d <? c * k)%Z eqn:E.
    - apply Z.ltb_lt in E. apply Z.ltb_lt. apply Z.div_lt_upper_bound; lia.
    - apply Z.ltb_ge in E. apply Z.ltb_ge. apply Z.div_le_lower_bound; lia. }
  rewrite Hh, Hm, !Hlt by lia.
  change (5 * 1000)%Z with 5000%Z. change (60 * 1000)%Z with 60000%Z.
  change (60 * 60000)%Z with 3600000%Z. change (24 * 3600000)%Z with 86400000%Z.
  done.
Qed.

(** ** When an update throws *)




(** ** The lists of the preview *)

(** X2.  What the preview lists.  The errors are the messages of the rows
    that fail the required-field check, in the order of the batch, so that
    the preview is free of errors exactly when every row passes; the new
    list holds the valid rows whose name the snapshot list does not have,
    in the order of the batch; the names listed as unchanged and those of
    the rows listed as updated are together the names of the valid rows
    whose name the snapshot list has, a name carried by several rows being
    listed once for each; no warning is ever given; and nothing is listed
    as removed under a strategy other than ['replace']. *)
Theorem preview_classifies_rows (newMinerEntries currentMinersList : list miner)
    (currentMergeStrategy : string) :
  let pv := generateUploadPreview newMinerEntries currentMinersList currentMergeStrategy in
  pvErrors pv =
    (λ ie, errorMessage ie.1 ie.2) <$>
      filter (λ ie, validMiner ie.2 = false) (indexed 0 newMinerEntries) ∧
  (pvErrors pv = [] ↔ Forall (λ m, validMiner m = true) newMinerEntries) ∧
  pvNew pv =
    filter (λ m, validMiner m = true ∧ name m ∉ name <$> currentMinersList)
      newMinerEntries ∧
  pvUnchanged pv ++ (rowName <$> pvUpdated pv) ≡ₚ
    name <$> filter (λ m, validMiner m = true ∧ name m ∈ name <$> currentMinersList)
               newMinerEntries ∧
  pvWarnings pv = [] ∧
  (currentMergeStrategy ≠ "replace" → pvRemoved pv = []).
Proof.
  destruct (preview_lists newMinerEntries currentMinersList currentMergeStrategy)
    as (H1 & H2 & H3 & H4).
  cbn zeta. split_and!; [done|apply preview_no_errors|done..|].
  intros Hs. unfold generateUploadPreview. apply String.eqb_neq in Hs. rewrite Hs.
  by rewrite preview_rows_removed.
Qed.
(** * The row parser *)

Section ParserFacts.

Variable numberToString : Q → string.
Variable trim : string → string.
Variable parseFloat parseInt : string → option Q.
Variable toLowerCase removeAlgo : string → string.
Variable matchHashrate : string → option (string * string).
Variable matchDecimal matchDollars matchDigits : string → option string.
Variable powerDatabase : list (string * Q).
Variable uploadTime : Z.
Variable rowUploadId : string → nat → string.

#[local] Abbreviation parseRow' :=
  (parseRow numberToString trim parseFloat parseInt toLowerCase removeAlgo
     matchHashrate matchDecimal matchDollars matchDigits powerDatabase uploadTime
     rowUploadId).
#[local] Abbreviation parseDataRows' :=
  (parseDataRows numberToString trim parseFloat parseInt toLowerCase removeAlgo
     matchHashrate matchDecimal matchDollars matchDigits powerDatabase uploadTime
     rowUploadId).

Lemma jsGt_nonzero (h : Q) : jsGt h 0 = true → Qeq_bool h 0 = false.
Proof.
  unfold jsGt. intros H%negb_true_iff. apply Qeq_bool_false_iff. intros Heq.
  assert (Qle_bool h 0 = true) as Hle; [|congruence].
  apply Qle_bool_iff. rewrite Heq. apply Qle_refl.
Qed.

Lemma fillEfficiency_truthy (c : candidate) (power : optNumber) (h : Q) :
  cHashrate c = Some h → jsGt h 0 = true → truthy power = true →
  truthy (fillEfficiency c power) = true.
Proof.
  intros Hh Hpos Hp. unfold fillEfficiency. rewrite Hh.
  destruct power as [| |p]; try done. cbn in Hp.
  rewrite Hp, (jsGt_nonzero h Hpos). cbn [negb andb].
  destruct (truthy (cEfficiency c)) eqn:He; cbn [negb]; [done|].
  cbn. apply negb_true_iff, Qdiv_nonzero; [by apply negb_true_iff|by apply jsGt_nonzero].
Qed.

Lemma parseRow_Some (dateForData : string) (i : nat) (row : list cell) (m : miner) :
  parseRow' dateForData i row = Some m →
  validMiner m = true ∧ date m = dateForData ∧ uploadTimestamp m = uploadTime ∧
  uploadId m = rowUploadId dateForData i ∧ (2 ≤ length row)%nat ∧
  (truthy (powerConsumption m) = true → truthy (efficiency m) = true).
Proof.
  unfold parseRow. destruct (length row <? 2)%nat eqn:Hlen; [done|].
  apply Nat.ltb_ge in Hlen.
  set (c := match cellAt row 0 with
            | Text s => match String.index 0 "http" s with
                        | Some _ => _
                        | None => _
                        end
            | _ => _
            end).
  clearbody c. cbn zeta.
  destruct (cHashrate c) as [h|] eqn:Hh; [|done].
  destruct (cPrice c) as [p|] eqn:Hp; [|done].
  destruct (negb (String.eqb (cName c) "")) eqn:Hn; [|done].
  destruct (jsGt h 0) eqn:Hgh; [|done].
  destruct (jsGt p 0) eqn:Hgp; [|done].
  cbn [andb]. intros [= <-]. unfold validMiner. cbn [name price hashrate date
    uploadTimestamp uploadId powerConsumption efficiency].
  rewrite Hn, Hgh, Hgp. split_and!; try done.
  intros Hpow. by apply (fillEfficiency_truthy c _ h).
Qed.

Lemma omap_length_le {A B} (f : A → option B) (l : list A) :
  (length (omap f l) ≤ length l)%nat.
Proof.
  induction l as [|x l IH]; [done|]. cbn. destruct (f x); cbn; lia.
Qed.

Lemma parseDataRows_rows (rows : list (list cell)) (dateForData : string) (m : miner) :
  m ∈ parseDataRows' rows dateForData →
  ∃ i row, rows !! i = Some row ∧ parseRow' dateForData i row = Some m.
Proof.
  unfold parseDataRows. intros ([i row] & Hin & Hrow)%list_elem_of_omap.
  apply list_elem_of_lookup_1 in Hin as [k Hk].
  rewrite indexed_lookup_eq in Hk.
  destruct (rows !! k) as [row'|] eqn:Hrows; [|done].
  cbn in Hk. injection Hk as <- <-. cbn in Hrow. by exists k, row'.
Qed.

Lemma parseDataRows_valid (rows : list (list cell)) (dateForData : string) :
  Forall (λ m, validMiner m = true) (parseDataRows' rows dateForData).
Proof.
  apply Forall_forall. intros m (i & row & _ & Hm)%parseDataRows_rows.
  by apply parseRow_Some in Hm as (? & _).
Qed.

(** X25.  [parseDataRows] only returns rows that pass the required-field
    check of the preview: each has a name, a positive hashrate and a positive
    price, carries the date given and the instant of the call, and comes
    from a line of at least two cells; there are at most as many rows as
    lines.  So the preview of a parsed batch never lists an error, whatever
    the table and the strategy. *)
Theorem parsed_rows_pass_the_preview (rows : list (list cell)) (dateForData : string)
    (currentMinersList : list miner) (currentMergeStrategy : string) :
  Forall (λ m, name m ≠ "" ∧ (0 < hashrate m)%Q ∧ (0 < price m)%Q ∧
               date m = dateForData ∧ uploadTimestamp m = uploadTime ∧
               ∃ i row, rows !! i = Some row ∧ (2 ≤ length row)%nat ∧
                        uploadId m = rowUploadId dateForData i)
         (parseDataRows' rows dateForData) ∧
  (length (parseDataRows' rows dateForData) ≤ length rows)%nat ∧
  pvErrors (generateUploadPreview (parseDataRows' rows dateForData)
              currentMinersList currentMergeStrategy) = [].
Proof.
  split_and!.
  - apply Forall_forall. intros m (i & row & Hrow & Hm)%parseDataRows_rows.
    apply parseRow_Some in Hm as (Hv & Hd & Ht & Hid & Hlen & _).
    unfold validMiner in Hv. apply andb_true_iff in Hv as [Hv Hh].
    apply andb_true_iff in Hv as [Hn Hp].
    split_and!; try done.
    + intros Heq. rewrite Heq in Hn. done.
    + unfold jsGt in Hh. apply negb_true_iff in Hh. apply Qnot_le_lt. intros Hle.
      apply Qle_bool_iff in Hle. congruence.
    + unfold jsGt in Hp. apply negb_true_iff in Hp. apply Qnot_le_lt. intros Hle.
      apply Qle_bool_iff in Hle. congruence.
    + by exists i, row.
  - unfold parseDataRows. etrans; [apply omap_length_le|]. by rewrite indexed_length.
  - apply preview_no_errors, parseDataRows_valid.
Qed.


(** X27.  A batch read from a file is never held back by the confirmation
    gate: when the file is within the size limit and [parseDataRows] returns
    at least one row, choosing the file and confirming runs the update on
    the parsed rows under the file's name, and closes the dialogue unless
    the update throws. *)
Theorem file_upload_never_blocked dateMs (ss : session) (f : fileInfo)
    (rows : list (list cell)) (batch : list miner) (freshId : string) (now : Z) :
  batch = parseDataRows' rows (uploadDate ss) →
  (fSize f ≤ 10 * 1024 * 1024)%Z → batch ≠ [] →
  confirmUpload dateMs (handleFileUpload ss (Some f) (Some batch)) freshId now =
    match actuallyUpdateData dateMs (data ss)
            (Some (generateUploadPreview batch (miners (data ss)) (mergeStrategy ss)))
            freshId now batch (fName f) (mergeStrategy ss) (uploadDate ss) with
    | Some s' =>
        {| data := s'; mergeStrategy := mergeStrategy ss; uploadDate := uploadDate ss;
           selectedFile := None; stagedNewMiners := None; stagedUploadFileName := "";
           uploadPreview := None; showUploadPreview := false |}
    | None => handleFileUpload ss (Some f) (Some batch)
    end.
Proof.
  intros Hb Hsize Hne. unfold handleFileUpload.
  destruct (10 * 1024 * 1024 <? fSize f)%Z eqn:Hlt; [apply Z.ltb_lt in Hlt; lia|].
  destruct batch as [|r batch]; [done|].
  unfold confirmUpload.
  cbn [stagedNewMiners uploadPreview data stagedUploadFileName mergeStrategy uploadDate].
  assert (pvErrors (generateUploadPreview (r :: batch) (miners (data ss))
                      (mergeStrategy ss)) = []) as ->.
  { apply preview_no_errors. rewrite Hb. apply parseDataRows_valid. }
  cbn [length Nat.ltb Nat.leb].
  by destruct (actuallyUpdateData _ _ _ _ _ _ _ _ _).
Qed.

End ParserFacts.

Lemma file_upload_never_blocked_witness :
  confirmUpload digitsKey
    (handleFileUpload (initialSession sampleAfterFirst "2024-01-02")
       (Some {| fName := "prices-2.csv"; fSize := 2048 |})
       (Some (sampleParse sampleRows "2024-01-02")))
    "upload-2" 1704189600000 =
  match actuallyUpdateData digitsKey sampleAfterFirst
          (Some (generateUploadPreview (sampleParse sampleRows "2024-01-02")
                   (miners sampleAfterFirst) "merge"))
          "upload-2" 1704189600000 (sampleParse sampleRows "2024-01-02")
          "prices-2.csv" "merge" "2024-01-02" with
  | Some s' =>
      {| data := s'; mergeStrategy := "merge"; uploadDate := "2024-01-02";
         selectedFile := None; stagedNewMiners := None; stagedUploadFileName := "";
         uploadPreview := None; showUploadPreview := false |}
  | None =>
      handleFileUpload (initialSession sampleAfterFirst "2024-01-02")
        (Some {| fName := "prices-2.csv"; fSize := 2048 |})
        (Some (sampleParse sampleRows "2024-01-02"))
  end.
Proof.
  apply (file_upload_never_blocked (λ _, "") id (λ _, None) (λ _, None) id id
           (λ _, None) (λ _, None) (λ _, None) (λ _, None) samplePowerDatabase
           1704189600000 (λ d i, d +:+ "_" +:+ pretty i) digitsKey
           (initialSession sampleAfterFirst "2024-01-02")
           {| fName := "prices-2.csv"; fSize := 2048 |} sampleRows
           (sampleParse sampleRows "2024-01-02") "upload-2" 1704189600000).
  - reflexivity.
  - vm_compute. discriminate.
  - vm_compute. discriminate.
Defined.
